(** * quant_trading: backtesting and parameter search
    (src/trading_lib/trading_environment.py)

    A shallow embedding of [TradingStrategy.backtest], [PerformanceAnalyzer]
    and the [Optimizer] routines, and the properties the specification states
    about them; then of the cache helpers of [DataManager], of
    [StrategyManager], [TradingSystem] and [StrategyCollection], with further
    properties of the code.

    Numbers.  A float64 cell is modelled by [float]: an exact rational, one of
    the two infinities, or NaN.  Special values follow IEEE 754 / numpy
    ([x/0] is an infinity or NaN, [0*inf] and [inf-inf] are NaN, every
    comparison with NaN is false); rounding and overflow of finite values and
    the sign of zero are abstracted away.  [sqrt] and [**] have no rational
    model and are section variables.  Where rounding decides a property (the
    guard of the Sharpe ratio), [PerformanceAnalyzer] is written a second
    time over the binary64 numbers of the machine ([summary64]).

    Series.  A pandas Series is the list of its cells over a positional index
    shared by all series of one backtest; a missing cell is NaN.

    Exceptions.  Fallible code returns [result]; [Raise e] is a Python
    exception of class [Exception].

    External libraries.  pandas operations are written out as pandas defines
    them.  numpy's [argsort], Optuna's sampler and best trial, SciPy's
    [differential_evolution] and the download behind [load_data] are section
    variables; [argsort] is known by what numpy promises of it
    ([argsort_sorts]), and written out for a few keys as numpy's vector code
    computes it ([avx512_argsort]).  Files are a map from paths to what was
    written.

    The file has two parts: the model (definitions), then the properties. *)

From Stdlib Require Import String.
From Stdlib Require Import ZArith QArith Qcanon Qcabs List Bool Lia.
From Stdlib Require Import Permutation Sorted Lqa.
From Stdlib Require PrimFloat.
Import ListNotations.

Set Implicit Arguments.
Local Open Scope nat_scope.

(** ** Exceptions and fallible results *)

Inductive exn : Type :=
| KeyError (msg : string)
| IndexError (msg : string)
| ValueError (msg : string)
| TypeError (msg : string)
| OverflowError (msg : string)
| OtherError (msg : string).

(** [str(e)] *)
Definition str_exn (e : exn) : string :=
  match e with
  | KeyError m | IndexError m | ValueError m
  | TypeError m | OverflowError m | OtherError m => m
  end.

Inductive result (A : Type) : Type :=
| Ok (a : A)
| Raise (e : exn).
Arguments Ok {A} a.
Arguments Raise {A} e.

Definition bind {A B} (r : result A) (k : A -> result B) : result B :=
  match r with
  | Ok a => k a
  | Raise e => Raise e
  end.

Notation "x <- c ;; k" := (bind c (fun x => k))
  (at level 61, c at next level, right associativity).

(** ** Floats *)

Declare Scope float_scope.
Delimit Scope float_scope with flt.

Inductive float : Type :=
| Fin (q : Qc)
| PosInf
| NegInf
| NaN.
Bind Scope float_scope with float.

Definition FZ (z : Z) : float := Fin (Q2Qc (inject_Z z)).
Definition FQ (n : Z) (d : positive) : float := Fin (Q2Qc (n # d)).

Definition f0 : float := FZ 0.
Definition f1 : float := FZ 1.

Definition isnan (x : float) : bool :=
  match x with NaN => true | _ => false end.

Definition isfinite (x : float) : bool :=
  match x with Fin _ => true | _ => false end.

(** sign of a rational: [Lt] negative, [Eq] zero, [Gt] positive *)
Definition qsign (q : Qc) : comparison := (q ?= 0)%Qc.

Definition fneg (x : float) : float :=
  match x with
  | Fin q => Fin (- q)%Qc
  | PosInf => NegInf
  | NegInf => PosInf
  | NaN => NaN
  end.

Definition fadd (x y : float) : float :=
  match x, y with
  | NaN, _ | _, NaN => NaN
  | PosInf, NegInf | NegInf, PosInf => NaN
  | PosInf, _ | _, PosInf => PosInf
  | NegInf, _ | _, NegInf => NegInf
  | Fin a, Fin b => Fin (a + b)%Qc
  end.

Definition fsub (x y : float) : float := fadd x (fneg y).

(** an infinity of the sign of [c], NaN for [Eq] (zero times infinity) *)
Definition inf_of_sign (c : comparison) : float :=
  match c with Gt => PosInf | Lt => NegInf | Eq => NaN end.

Definition fmul (x y : float) : float :=
  match x, y with
  | NaN, _ | _, NaN => NaN
  | Fin a, Fin b => Fin (a * b)%Qc
  | PosInf, Fin q | Fin q, PosInf => inf_of_sign (qsign q)
  | NegInf, Fin q | Fin q, NegInf => inf_of_sign (CompOpp (qsign q))
  | PosInf, PosInf | NegInf, NegInf => PosInf
  | PosInf, NegInf | NegInf, PosInf => NegInf
  end.

Definition fdiv (x y : float) : float :=
  match x, y with
  | NaN, _ | _, NaN => NaN
  | Fin a, Fin b =>
      match qsign b with
      | Eq => inf_of_sign (qsign a)
      | _ => Fin (a / b)%Qc
      end
  | Fin _, (PosInf | NegInf) => f0
  | (PosInf | NegInf), (PosInf | NegInf) => NaN
  | PosInf, Fin q => match qsign q with Lt => NegInf | _ => PosInf end
  | NegInf, Fin q => match qsign q with Lt => PosInf | _ => NegInf end
  end.

Definition fabs (x : float) : float :=
  match x with
  | Fin q => Fin (Qcabs q)
  | PosInf | NegInf => PosInf
  | NaN => NaN
  end.

(** [x < y]; false as soon as one side is NaN *)
Definition fltb (x y : float) : bool :=
  match x, y with
  | NaN, _ | _, NaN => false
  | Fin a, Fin b => match (a ?= b)%Qc with Lt => true | _ => false end
  | NegInf, (Fin _ | PosInf) => true
  | Fin _, PosInf => true
  | _, _ => false
  end.

Definition fgtb (x y : float) : bool := fltb y x.

(** [x == y] on floats; NaN equals nothing *)
Definition feqb (x y : float) : bool :=
  match x, y with
  | Fin a, Fin b => match (a ?= b)%Qc with Eq => true | _ => false end
  | PosInf, PosInf | NegInf, NegInf => true
  | _, _ => false
  end.

Definition fleb (x y : float) : bool := fltb x y || feqb x y.

(** structural equality of cells: as [feqb], and NaN matches NaN *)
Definition fsame (x y : float) : bool :=
  match x, y with
  | NaN, NaN => true
  | _, _ => feqb x y
  end.

(** truth value of a float in [if x:] : false exactly for zero *)
Definition truthy (x : float) : bool := negb (feqb x f0).

Infix "+" := fadd : float_scope.
Infix "-" := fsub : float_scope.
Infix "*" := fmul : float_scope.
Infix "/" := fdiv : float_scope.
Notation "- x" := (fneg x) : float_scope.

(** [round(x)]: nearest integer, ties to the even one; infinities and NaN
    cannot be converted ([OverflowError], [ValueError]) *)
Definition qround_half_even (q : Qc) : Z :=
  let n := Qnum q in
  let d := Zpos (Qden q) in
  let fl := (n / d)%Z in
  let r := (n mod d)%Z in
  match (2 * r ?= d)%Z with
  | Lt => fl
  | Gt => (fl + 1)%Z
  | Eq => if Z.even fl then fl else (fl + 1)%Z
  end.

Definition py_round (x : float) : result Z :=
  match x with
  | Fin q => Ok (qround_half_even q)
  | PosInf | NegInf =>
      Raise (OverflowError "cannot convert float infinity to integer")
  | NaN => Raise (ValueError "cannot convert float NaN to integer")
  end.

(** [x.is_integer()] *)
Definition is_integer (x : float) : bool :=
  match x with
  | Fin q => Pos.eqb (Qden q) 1
  | _ => false
  end.

(** [int(x)] for a float with [x.is_integer()] (truncation in general) *)
Definition py_int_of_float (x : float) : result Z :=
  match x with
  | Fin q => Ok (Z.quot (Qnum q) (Zpos (Qden q)))
  | PosInf | NegInf =>
      Raise (OverflowError "cannot convert float infinity to integer")
  | NaN => Raise (ValueError "cannot convert float NaN to integer")
  end.

(** ** pandas Series *)

Definition Series := list float.

(** the cell at position [t]; a position outside the index reads as missing *)
Definition cell (s : Series) (t : nat) : float := nth t s NaN.

(** [s.shift(1)] *)
Definition shift1 (s : Series) : Series :=
  match s with
  | [] => []
  | _ :: _ => NaN :: removelast s
  end.

(** [s.fillna(v)] *)
Definition fillna (v : float) (s : Series) : Series :=
  map (fun x => if isnan x then v else x) s.

(** [s.dropna()] *)
Definition dropna (s : Series) : Series :=
  filter (fun x => negb (isnan x)) s.

(** [s.ffill()]: a missing cell takes the last valid value before it *)
Fixpoint ffill_from (last : float) (s : Series) : Series :=
  match s with
  | [] => []
  | x :: r => if isnan x then last :: ffill_from last r
              else x :: ffill_from x r
  end.
Definition ffill (s : Series) : Series := ffill_from NaN s.

(** [a op b] on two series: cells are paired by position, a position present
    in one operand only yields NaN (outer alignment) *)
Fixpoint align (op : float -> float -> float) (a b : Series) : Series :=
  match a with
  | [] => map (fun _ => NaN) b
  | x :: a' =>
      match b with
      | [] => NaN :: map (fun _ => NaN) a'
      | y :: b' => op x y :: align op a' b'
      end
  end.

(** [s.abs()] *)
Definition sabs (s : Series) : Series := map fabs s.

(** [s.diff()] is [s - s.shift(1)] *)
Definition diff (s : Series) : Series := align fsub s (shift1 s).

(** [s.pct_change()] is [d / d.shift(1) - 1], where [d] is [s] forward-filled
    when pandas pads by default ([pad = true], pandas up to 2.x) and [s] itself
    otherwise *)
Definition pct_change (pad : bool) (s : Series) : Series :=
  let d := if pad then ffill s else s in
  map (fun x => (x - f1)%flt) (align fdiv d (shift1 d)).

(** numpy's cumulative product: [out[0] = v[0]], [out[i] = out[i-1] * v[i]] *)
Fixpoint np_cumprod_from (acc : float) (v : Series) : Series :=
  match v with
  | [] => []
  | x :: r => let a := (acc * x)%flt in a :: np_cumprod_from a r
  end.
Definition np_cumprod (v : Series) : Series :=
  match v with
  | [] => []
  | x :: r => x :: np_cumprod_from x r
  end.

(** [s.cumprod()] (skipna): missing cells count as 1 in the running product
    and stay missing in the output *)
Definition cumprod (s : Series) : Series :=
  let vals := map (fun x => if isnan x then f1 else x) s in
  map (fun p => if isnan (fst p) then NaN else snd p)
      (combine s (np_cumprod vals)).

(** ** Data frames *)

Definition DataFrame := list (string * Series).

(** [data[col]] *)
Fixpoint getcol (df : DataFrame) (col : string) : result Series :=
  match df with
  | [] => Raise (KeyError col)
  | (c, s) :: rest => if String.eqb c col then Ok s else getcol rest col
  end.

(** ** TradingStrategy *)

(** A strategy object.  [generate_signals] is the subclass hook; it receives
    [self._initial_capital], which [backtest] sets before calling it. *)
Record TradingStrategy : Type := {
  name : string;
  price_col : string;
  generate_signals : float -> DataFrame -> result Series;
  positions : option Series;
  returns : option Series;
  equity_curve : option Series
}.

(** the local variables of [backtest] *)
Record backtest_locals : Type := {
  l_price : Series;
  l_sig : Series;
  l_pos : Series;
  l_ret : Series;
  l_strat_ret : Series;
  l_equity : Series
}.

Section Backtest.
(** whether [pct_change] pads missing prices (the pandas default in use) *)
Variable pad : bool.

(** the series [backtest] computes from the price column and the signals,
    line by line: [pos], [ret], [strat_ret], [equity] *)
Definition backtest_compute (price sig : Series)
    (initial_capital transaction_cost : float) : backtest_locals :=
  let pos := fillna f0 (shift1 sig) in
  let ret := fillna f0 (pct_change pad price) in
  let strat_ret :=
    align fsub (align fmul pos ret)
          (map (fun c => (c * transaction_cost)%flt)
               (fillna f0 (sabs (diff sig)))) in
  let equity :=
    map (fun c => (initial_capital * c)%flt)
        (cumprod (map (fun r => (f1 + r)%flt) strat_ret)) in
  {| l_price := price; l_sig := sig; l_pos := pos; l_ret := ret;
     l_strat_ret := strat_ret; l_equity := equity |}.

(** [backtest] up to its assignments: the price column is read first, then
    the signals are generated; either step may raise *)
Definition backtest_run (self : TradingStrategy) (data : DataFrame)
    (initial_capital transaction_cost : float) : result backtest_locals :=
  price <- getcol data (price_col self) ;;
  sig <- generate_signals self initial_capital data ;;
  Ok (backtest_compute price sig initial_capital transaction_cost).

(** [TradingStrategy.backtest]: the returned equity curve and the object
    after the call *)
Definition backtest (self : TradingStrategy) (data : DataFrame)
    (initial_capital transaction_cost : float)
    : result (Series * TradingStrategy) :=
  l <- backtest_run self data initial_capital transaction_cost ;;
  Ok (l_equity l,
      {| name := name self;
         price_col := price_col self;
         generate_signals := generate_signals self;
         positions := Some (l_sig l);
         returns := Some (l_strat_ret l);
         equity_curve := Some (l_equity l) |}).
End Backtest.

(** left-to-right products: [prod_upto f t] is [f 0 * f 1 * ... * f t] *)
Fixpoint prod_upto (f : nat -> float) (t : nat) : float :=
  match t with
  | O => f O
  | S t' => (prod_upto f t' * f (S t'))%flt
  end.

Fixpoint prod_from (acc : float) (f : nat -> float) (t : nat) : float :=
  match t with
  | O => (acc * f O)%flt
  | S t' => (prod_from acc f t' * f (S t'))%flt
  end.

(** ** The backtest formulas of the specification *)

Definition missing_as_0 (x : float) : float := if isnan x then f0 else x.

Definition isinf (x : float) : bool :=
  match x with PosInf | NegInf => true | _ => false end.

Section BacktestFormulas.
Variables (price sig : Series) (initialCapital transactionCost : float).

(** [position[t] = signal[t-1]], [position[0] = 0], a missing signal is 0 *)
Definition position (t : nat) : float :=
  match t with
  | O => f0
  | S t' => missing_as_0 (cell sig t')
  end.

(** [priceReturn[t] = price[t]/price[t-1] - 1], [priceReturn[0] = 0] *)
Definition priceReturn (t : nat) : float :=
  match t with
  | O => f0
  | S t' => (cell price t / cell price t' - f1)%flt
  end.



(** the same, 0 at [t = 0] and wherever the difference is undefined *)
Definition signalChange (t : nat) : float :=
  match t with
  | O => f0
  | S t' => missing_as_0 (fabs (cell sig t - cell sig t'))
  end.

Definition periodReturn (change : nat -> float) (t : nat) : float :=
  (position t * priceReturn t - transactionCost * change t)%flt.

Definition equityAt (change : nat -> float) (t : nat) : float :=
  (initialCapital
   * prod_upto (fun k => (f1 + periodReturn change k)%flt) t)%flt.
End BacktestFormulas.

(** a price is a finite number other than zero *)
Definition price_ok (p : float) : bool := isfinite p && negb (feqb p f0).

(** a signal is a finite number or missing *)
Definition signal_ok (s : float) : bool := negb (isinf s).

(** ** Worked inputs *)

(** a strategy whose [generate_signals] returns the given series *)
Definition fixed_signal_strategy (sig : Series) : TradingStrategy :=
  {| name := "fixed"%string;
     price_col := "close"%string;
     generate_signals := fun _ _ => Ok sig;
     positions := None;
     returns := None;
     equity_curve := None |}.

(** a data frame with the single column [close] *)
Definition close_prices (p : Series) : DataFrame := [("close"%string, p)].

(** prices [100, 110, 121] *)
Definition prices_100_110_121 : Series := [FZ 100; FZ 110; FZ 121].



(** ** pandas reductions (NaN cells are skipped, as [skipna=True] does) *)

(** plain left-to-right sum of a list of cells *)
Definition fsum (l : list float) : float := fold_left fadd l f0.

Definition count (l : list float) : float := FZ (Z.of_nat (length l)).

(** [s.sum()]: the sum of the valid cells, 0 when there is none *)
Definition series_sum (s : Series) : float := fsum (dropna s).

(** the mean of a list of cells, NaN for the empty list *)
Definition fmean (l : list float) : float :=
  match l with
  | [] => NaN
  | _ :: _ => (fsum l / count l)%flt
  end.

(** [s.mean()] *)
Definition series_mean (s : Series) : float := fmean (dropna s).

(** [(s > 0)], [(s < 0)] as boolean series, [s[s > 0]], [s[s < 0]] *)
Definition gt0 (x : float) : bool := fgtb x f0.
Definition lt0 (x : float) : bool := fltb x f0.

(** [b.mean()] of a boolean series: the fraction of true cells *)
Definition bool_mean (b : list bool) : float :=
  match b with
  | [] => NaN
  | _ :: _ =>
      (FZ (Z.of_nat (length (filter (fun c => c) b)))
       / FZ (Z.of_nat (length b)))%flt
  end.

(** [s.min()] *)
Definition fmin_list (l : list float) : float :=
  match l with
  | [] => NaN
  | x :: r => fold_left (fun m y => if fltb y m then y else m) r x
  end.
Definition series_min (s : Series) : float := fmin_list (dropna s).

(** [s.cummax()]: running maximum of the valid cells, missing cells stay
    missing *)
Fixpoint cummax_from (m : option float) (s : Series) : Series :=
  match s with
  | [] => []
  | x :: r =>
      if isnan x then NaN :: cummax_from m r
      else
        let m' := match m with
                  | None => x
                  | Some y => if fltb y x then x else y
                  end in
        m' :: cummax_from (Some m') r
  end.
Definition cummax (s : Series) : Series := cummax_from None s.

(** [s.iloc[0]] and [s.iloc[-1]] *)
Definition iloc_first (s : Series) : result float :=
  match s with
  | [] => Raise (IndexError "single positional indexer is out-of-bounds")
  | x :: _ => Ok x
  end.
Definition iloc_last (s : Series) : result float :=
  match s with
  | [] => Raise (IndexError "single positional indexer is out-of-bounds")
  | x :: r => Ok (last r x)
  end.

(** ** PerformanceAnalyzer *)

Record PerformanceAnalyzer : Type := {
  pa_equity : Series;
  pa_returns : Series
}.

(** [PerformanceAnalyzer.__init__] *)
Definition PerformanceAnalyzer_init (equity returns : Series)
    : PerformanceAnalyzer :=
  {| pa_equity := equity; pa_returns := dropna returns |}.

(** the summary: one cell per metric, in the order of the source *)
Record Summary : Type := {
  total_return : float;
  ann_return : float;
  ann_vol : float;
  sharpe : float;
  max_drawdown : float;
  win_rate : float;
  profit_factor : float;
  expectancy : float
}.

Section Performance.
(** [np.sqrt] and the power operator [**] *)
Variable sqrt : float -> float.
Variable pow : float -> float -> float.

(** sample standard deviation ([ddof = 1]) of a list of cells: NaN below two
    cells *)
Definition fstd (l : list float) : float :=
  match l with
  | [] | [_] => NaN
  | _ :: _ :: _ =>
      let avg := (fsum l / count l)%flt in
      let sqr := map (fun x => ((avg - x) * (avg - x))%flt) l in
      sqrt (fsum sqr / FZ (Z.of_nat (length l) - 1))%flt
  end.

(** [s.std()] *)
Definition series_std (s : Series) : float := fstd (dropna s).

(** [PerformanceAnalyzer.summary] *)
Definition summary (self : PerformanceAnalyzer) : result Summary :=
  let equity := pa_equity self in
  let rets := pa_returns self in
  e_last <- iloc_last equity ;;
  e_first <- iloc_first equity ;;
  let tot := (e_last / e_first - f1)%flt in
  let days := length rets in
  let ann :=
    match days with
    | O => NaN
    | S _ => (pow (f1 + tot) (FZ 252 / FZ (Z.of_nat days)) - f1)%flt
    end in
  let vol := (series_std rets * sqrt (FZ 252))%flt in
  let sr :=
    if truthy (series_std rets)
    then (series_mean rets / series_std rets * sqrt (FZ 252))%flt
    else NaN in
  let dd := align fdiv (align fsub equity (cummax equity)) (cummax equity) in
  let maxdd := series_min dd in
  let wr := bool_mean (map gt0 rets) in
  let pf :=
    if existsb lt0 rets
    then (series_sum (filter gt0 rets) / - series_sum (filter lt0 rets))%flt
    else NaN in
  let exp :=
    (wr * (if existsb gt0 rets then series_mean (filter gt0 rets) else f0)
     - (f1 - wr)
       * (if existsb lt0 rets then - series_mean (filter lt0 rets)
          else f0))%flt in
  Ok {| total_return := tot; ann_return := ann; ann_vol := vol;
        sharpe := sr; max_drawdown := maxdd; win_rate := wr;
        profit_factor := pf; expectancy := exp |}.

(** the metrics that depend on the returns, written over a plain list [r] of
    observations with no use of NaN skipping: [n] is the number of entries of
    [r], each sum and each mean ranges over the entries of [r] *)
Definition ann_return_over (tot : float) (r : list float) : float :=
  match length r with
  | O => NaN
  | S _ => (pow (f1 + tot) (FZ 252 / count r) - f1)%flt
  end.
Definition ann_vol_over (r : list float) : float :=
  (fstd r * sqrt (FZ 252))%flt.
Definition sharpe_over (r : list float) : float :=
  if truthy (fstd r) then (fmean r / fstd r * sqrt (FZ 252))%flt else NaN.
Definition win_rate_over (r : list float) : float :=
  match r with
  | [] => NaN
  | _ :: _ => (count (filter gt0 r) / count r)%flt
  end.
Definition profit_factor_over (r : list float) : float :=
  if existsb lt0 r
  then (fsum (filter gt0 r) / - fsum (filter lt0 r))%flt
  else NaN.
Definition expectancy_over (r : list float) : float :=
  (win_rate_over r
   * (if existsb gt0 r then fmean (filter gt0 r) else f0)
   - (f1 - win_rate_over r)
     * (if existsb lt0 r then - fmean (filter lt0 r) else f0))%flt.
End Performance.

(** the non-NaN returns of a series, in the words of the specification:
    [valid_entries s kept] says that [kept] lists the entries of [s] that
    are not NaN, each one once and in the order of [s], and nothing else *)
Inductive valid_entries : Series -> list float -> Prop :=
| valid_entries_nil : valid_entries [] []
| valid_entries_skip (x : float) (s : Series) (kept : list float) :
    isnan x = true -> valid_entries s kept -> valid_entries (x :: s) kept
| valid_entries_keep (x : float) (s : Series) (kept : list float) :
    isnan x = false -> valid_entries s kept ->
    valid_entries (x :: s) (x :: kept).

(** the metric names of the summary, [summary[metric]] *)
Definition get_metric (metric : string) (s : Summary) : result float :=
  if String.eqb metric "Total Return" then Ok (total_return s)
  else if String.eqb metric "Ann. Return" then Ok (ann_return s)
  else if String.eqb metric "Ann. Vol" then Ok (ann_vol s)
  else if String.eqb metric "Sharpe" then Ok (sharpe s)
  else if String.eqb metric "Max Drawdown" then Ok (max_drawdown s)
  else if String.eqb metric "Win Rate" then Ok (win_rate s)
  else if String.eqb metric "Profit Factor" then Ok (profit_factor s)
  else if String.eqb metric "Expectancy" then Ok (expectancy s)
  else Raise (KeyError metric).

(** stand-ins for [np.sqrt] and [**] used to run examples: the square root
    to six decimals, and the power with the exponent truncated to an integer *)
Definition sqrt_approx (x : float) : float :=
  match x with
  | Fin q =>
      match Qnum q with
      | Zneg _ => NaN
      | n => FQ (Z.sqrt (n * Zpos (Qden q) * 1000000000000))
                (Qden q * 1000000)
      end
  | PosInf => PosInf
  | NegInf | NaN => NaN
  end.

Definition pow_approx (b e : float) : float :=
  match b, e with
  | Fin p, Fin q =>
      match Z.quot (Qnum q) (Zpos (Qden q)) with
      | Zneg k => (f1 / Fin (Qcpower p (Pos.to_nat k)))%flt
      | k => Fin (Qcpower p (Z.to_nat k))
      end
  | _, _ => NaN
  end.

(** ** Python values and dictionaries *)

(** the values a parameter or a table cell can hold: native Python values
    and numpy scalars ([numpy.float64], [numpy.int64], [numpy.bool_]) *)
Inductive pyval : Type :=
| PInt (z : Z)
| PBool (b : bool)
| PFloat (x : float)
| PStr (s : string)
| PNone
| NpFloat (x : float)
| NpInt (z : Z)
| NpBool (b : bool).

(** [isinstance(v, int)]: [bool] is a subclass of [int], [numpy.int64] is
    not *)
Definition isinstance_int (v : pyval) : bool :=
  match v with PInt _ | PBool _ => true | _ => false end.

(** [isinstance(v, float)]: [numpy.float64] is a subclass of [float] *)
Definition isinstance_float (v : pyval) : bool :=
  match v with PFloat _ | NpFloat _ => true | _ => false end.

(** [isinstance(v, (int, float))] *)
Definition isinstance_number (v : pyval) : bool :=
  isinstance_int v || isinstance_float v.

(** the number a numeric value stands for in a comparison *)
Definition num_val (v : pyval) : float :=
  match v with
  | PInt z | NpInt z => FZ z
  | PBool b | NpBool b => if b then f1 else f0
  | PFloat x | NpFloat x => x
  | PStr _ | PNone => NaN
  end.

(** [hasattr(v, 'item')], true of numpy scalars, and [v.item()] *)
Definition has_item (v : pyval) : bool :=
  match v with NpFloat _ | NpInt _ | NpBool _ => true | _ => false end.
Definition item (v : pyval) : pyval :=
  match v with
  | NpFloat x => PFloat x
  | NpInt z => PInt z
  | NpBool b => PBool b
  | _ => v
  end.

(** a Python [dict] with string keys, in insertion order *)
Definition dict (V : Type) : Type := list (string * V).

Fixpoint lookup {V} (d : dict V) (k : string) : option V :=
  match d with
  | [] => None
  | (k', v) :: rest => if String.eqb k' k then Some v else lookup rest k
  end.

(** [k in d] *)
Definition dict_mem {V} (d : dict V) (k : string) : bool :=
  match lookup d k with Some _ => true | None => false end.

(** [d[k]] *)
Definition getitem {V} (d : dict V) (k : string) : result V :=
  match lookup d k with
  | Some v => Ok v
  | None => Raise (KeyError k)
  end.

(** [d[k] = v]: an existing key keeps its place, a new key goes last *)
Fixpoint dict_set {V} (d : dict V) (k : string) (v : V) : dict V :=
  match d with
  | [] => [(k, v)]
  | (k', v') :: rest =>
      if String.eqb k' k then (k', v) :: rest
      else (k', v') :: dict_set rest k v
  end.

(** [d.update(e)] *)
Definition dict_update {V} (d e : dict V) : dict V :=
  fold_left (fun acc kv => dict_set acc (fst kv) (snd kv)) e d.

(** [dict(zip(keys, vals))] *)
Definition dict_zip {V} (keys : list string) (vals : list V) : dict V :=
  dict_update [] (combine keys vals).

Definition kwargs : Type := dict pyval.

(** [min(vals)] and [max(vals)]: the first smallest and the first largest
    element; [ValueError] on an empty list *)
Definition py_min (vals : list pyval) : result pyval :=
  match vals with
  | [] => Raise (ValueError "min() arg is an empty sequence")
  | v :: r =>
      Ok (fold_left
            (fun m y => if fltb (num_val y) (num_val m) then y else m) r v)
  end.
Definition py_max (vals : list pyval) : result pyval :=
  match vals with
  | [] => Raise (ValueError "max() arg is an empty sequence")
  | v :: r =>
      Ok (fold_left
            (fun m y => if fgtb (num_val y) (num_val m) then y else m) r v)
  end.

(** [list(range(start, stop, step))] *)
Definition py_range (start stop step : Z) : result (list Z) :=
  match step with
  | Z0 => Raise (ValueError "range() arg 3 must not be zero")
  | Zpos _ =>
      let len := if (start <? stop)%Z
                 then ((stop - start - 1) / step + 1)%Z else 0%Z in
      Ok (map (fun i => (start + Z.of_nat i * step)%Z)
              (seq 0 (Z.to_nat len)))
  | Zneg _ =>
      let len := if (stop <? start)%Z
                 then ((start - stop - 1) / (- step) + 1)%Z else 0%Z in
      Ok (map (fun i => (start + Z.of_nat i * step)%Z)
              (seq 0 (Z.to_nat len)))
  end.

(** [list(np.linspace(low, high, n))]: [n] evenly spaced [numpy.float64]
    values, the last one [high] itself *)
Definition np_linspace (low high : float) (n : Z) : result (list float) :=
  match n with
  | Zneg _ => Raise (ValueError "Number of samples must be non-negative")
  | Z0 => Ok []
  | Zpos _ =>
      if (n =? 1)%Z then Ok [low]
      else
        let step := ((high - low) / FZ (n - 1))%flt in
        Ok (map (fun i => (FZ (Z.of_nat i) * step + low)%flt)
                (seq 0 (Z.to_nat (n - 1)))
            ++ [high])
  end.

(** [itertools.product] over the lists: the last list varies fastest *)
Fixpoint product {A} (ls : list (list A)) : list (list A) :=
  match ls with
  | [] => [[]]
  | l :: rest => flat_map (fun x => map (cons x) (product rest)) l
  end.

(** run a fallible step over a list, left to right, stopping at the first
    exception *)
Fixpoint mapM {A B} (f : A -> result B) (l : list A) : result (list B) :=
  match l with
  | [] => Ok []
  | a :: r => b <- f a ;; bs <- mapM f r ;; Ok (b :: bs)
  end.

(** ** Optimizer *)

(** one entry of a strategy's [param_config]: a [choices] list, or a [type]
    with [bounds] and the optional [step] and [n] *)
Inductive param_spec : Type :=
| Choices (vals : list pyval)
| IntSpec (low high : Z) (step : option Z)
| FloatSpec (low high : float) (n : option Z) (step : option float)
| OtherSpec (low high : float) (n : option Z).

(** a strategy class: its constructor and its [param_config] attribute *)
Record StrategyClass : Type := {
  cls_name : string;
  construct : kwargs -> result TradingStrategy;
  cls_param_config : option (dict param_spec)
}.

Record Optimizer : Type := {
  strategy_cls : StrategyClass;
  param_grid : dict (list pyval)
}.

Definition default {A} (d : A) (o : option A) : A :=
  match o with Some a => a | None => d end.

(** the grid of one entry, as [Optimizer.__init__] builds it *)
Definition spec_grid (spec : param_spec) : result (list pyval) :=
  match spec with
  | Choices vals => Ok vals
  | IntSpec low high step =>
      zs <- py_range low (high + 1) (default 1%Z step) ;;
      Ok (map PInt zs)
  | FloatSpec low high n _ | OtherSpec low high n =>
      xs <- np_linspace low high (default 10%Z n) ;;
      Ok (map NpFloat xs)
  end.

Fixpoint build_grid (config : dict param_spec) (grid : dict (list pyval))
    : result (dict (list pyval)) :=
  match config with
  | [] => Ok grid
  | (name, spec) :: rest =>
      vals <- spec_grid spec ;;
      build_grid rest (dict_set grid name vals)
  end.

(** [Optimizer.__init__] *)
Definition Optimizer_init (cls : StrategyClass) : result Optimizer :=
  match cls_param_config cls with
  | None => Raise (ValueError "must define .param_config")
  | Some config =>
      grid <- build_grid config [] ;;
      Ok {| strategy_cls := cls; param_grid := grid |}
  end.

(** a table row: column name to cell.  A row keeps the Python values it was
    built from; in a column of mixed values [pd.DataFrame] converts cells
    ([None] next to a number becomes NaN), which is not modelled. *)
Definition row : Type := dict pyval.

(** [summary().to_dict()]: the metrics as native floats *)
Definition to_dict (s : Summary) : row :=
  [("Total Return"%string, PFloat (total_return s));
   ("Ann. Return"%string, PFloat (ann_return s));
   ("Ann. Vol"%string, PFloat (ann_vol s));
   ("Sharpe"%string, PFloat (sharpe s));
   ("Max Drawdown"%string, PFloat (max_drawdown s));
   ("Win Rate"%string, PFloat (win_rate s));
   ("Profit Factor"%string, PFloat (profit_factor s));
   ("Expectancy"%string, PFloat (expectancy s))].

(** the encoding [optimize_de] builds from the grid *)
Record de_encoding : Type := {
  de_keys : list string;
  de_bounds : list (pyval * pyval);
  de_int_flags : list bool;
  de_cat_map : dict (list pyval)
}.

Definition de_empty : de_encoding :=
  {| de_keys := []; de_bounds := []; de_int_flags := []; de_cat_map := [] |}.

Fixpoint de_encode_loop (grid : dict (list pyval)) (enc : de_encoding)
    : result de_encoding :=
  match grid with
  | [] => Ok enc
  | (k, vals) :: rest =>
      if forallb isinstance_number vals then
        low <- py_min vals ;;
        high <- py_max vals ;;
        de_encode_loop rest
          {| de_keys := de_keys enc ++ [k];
             de_bounds := de_bounds enc ++ [(low, high)];
             de_int_flags :=
               de_int_flags enc ++ [forallb isinstance_int vals];
             de_cat_map := de_cat_map enc |}
      else
        de_encode_loop rest
          {| de_keys := de_keys enc ++ [k];
             de_bounds :=
               de_bounds enc
               ++ [(PInt 0, PInt (Z.of_nat (length vals) - 1))];
             de_int_flags := de_int_flags enc ++ [true];
             de_cat_map := dict_set (de_cat_map enc) k vals |}
  end.

Definition de_encode (grid : dict (list pyval)) : result de_encoding :=
  de_encode_loop grid de_empty.

(** the value one component [xi] of a vector decodes to *)
Definition decode_cell (cat_map : dict (list pyval)) (xi : float)
    (k : string) (is_int : bool) : result pyval :=
  match lookup cat_map k with
  | Some choices =>
      r <- py_round xi ;;
      let idx := Z.max 0 (Z.min r (Z.of_nat (length choices) - 1)) in
      match nth_error choices (Z.to_nat idx) with
      | Some v => Ok v
      | None => Raise (IndexError "list index out of range")
      end
  | None =>
      if is_int then r <- py_round xi ;; Ok (PInt r)
      else Ok (PFloat xi)
  end.

(** the loop over [zip(x, keys, int_flags)] filling [kwargs] *)
Fixpoint decode_loop (cat_map : dict (list pyval)) (x : list float)
    (keys : list string) (flags : list bool) (kw : kwargs)
    : result kwargs :=
  match x, keys, flags with
  | xi :: x', k :: keys', f :: flags' =>
      v <- decode_cell cat_map xi k f ;;
      decode_loop cat_map x' keys' flags' (dict_set kw k v)
  | _, _, _ => Ok kw
  end.

Definition decode (enc : de_encoding) (x : list float) : result kwargs :=
  decode_loop (de_cat_map enc) x (de_keys enc) (de_int_flags enc) [].

(** the penalty [1e6] *)
Definition penalty : float := FZ 1000000.

(** the suggestions of a trial come from the external sampler; a trial
    carries its number and the attributes set on it *)
Record Trial : Type := {
  trial_number : nat;
  user_attrs : dict string
}.

Definition set_user_attr (t : Trial) (k v : string) : Trial :=
  {| trial_number := trial_number t;
     user_attrs := dict_set (user_attrs t) k v |}.

(** [s.lower()] on ASCII letters *)
Definition ascii_lower (c : Ascii.ascii) : Ascii.ascii :=
  let n := Ascii.nat_of_ascii c in
  if (65 <=? n) && (n <=? 90) then Ascii.ascii_of_nat (n + 32) else c.
Fixpoint lower (s : string) : string :=
  match s with
  | EmptyString => EmptyString
  | String c r => String (ascii_lower c) (lower r)
  end.

Inductive direction : Type := Maximize | Minimize.

Section OptimizerRoutines.
Variable pad : bool.
Variable sqrt : float -> float.
Variable pow : float -> float -> float.

(** instantiate, backtest with the default capital and cost, summarize *)
Definition run_summary (self : Optimizer) (data : DataFrame)
    (params : kwargs) : result Summary :=
  strat <- construct (strategy_cls self) params ;;
  r <- backtest pad strat data (FZ 10000) f0 ;;
  match returns (snd r) with
  | Some rets => summary sqrt pow (PerformanceAnalyzer_init (fst r) rets)
  | None => Raise (OtherError "returns is None")
  end.

Definition run_metric (self : Optimizer) (data : DataFrame)
    (metric : string) (params : kwargs) : result float :=
  s <- run_summary self data params ;;
  get_metric metric s.

(** *** optimize_grid *)

(** the candidates, in the order of [itertools.product] *)
Definition grid_candidates (grid : dict (list pyval)) : list kwargs :=
  map (fun vals => dict_zip (map fst grid) vals) (product (map snd grid)).

(** the record of one candidate; a candidate that raises is skipped *)
Definition grid_record (self : Optimizer) (data : DataFrame)
    (params : kwargs) : list row :=
  match run_summary self data params with
  | Ok s => [dict_update (to_dict s) params]
  | Raise _ => []
  end.

Definition grid_records (self : Optimizer) (data : DataFrame) : list row :=
  flat_map (grid_record self data) (grid_candidates (param_grid self)).

(** the sort key of a row: the number in its [metric] cell.  A column of
    strings is ordered by pandas as Python objects, which is not modelled:
    such a cell raises here. *)
Definition sort_key (metric : string) (r : row) : result float :=
  match lookup r metric with
  | None => Raise (KeyError metric)
  | Some (PStr _) => Raise (TypeError "non-numeric sort column")
  | Some v => Ok (num_val v)
  end.

(** numpy's [argsort] with the default kind (quicksort) *)
Variable argsort : list float -> list nat.

(** pandas' [nargsort] for [ascending=False], [na_position='last']: the
    valid keys and their positions are reversed, sorted ascending by
    [argsort], the outcome is reversed again, and the positions of the NaN
    keys are appended *)
Definition nargsort_desc (keys : list float) : list nat :=
  let idx := seq 0 (length keys) in
  let non_nan_idx := filter (fun i => negb (isnan (nth i keys NaN))) idx in
  let nan_idx := filter (fun i => isnan (nth i keys NaN)) idx in
  let non_nans := map (fun i => nth i keys NaN) non_nan_idx in
  let indexer :=
    map (fun j => nth j (rev non_nan_idx) O) (argsort (rev non_nans)) in
  rev indexer ++ nan_idx.

(** [DataFrame(records).sort_values(by=metric, ascending=False)
     .reset_index(drop=True)] *)
Definition sort_values_desc (metric : string) (records : list row)
    : result (list row) :=
  keys <- mapM (sort_key metric) records ;;
  Ok (map (fun i => nth i records []) (nargsort_desc keys)).

Definition optimize_grid (self : Optimizer) (data : DataFrame)
    (metric : string) : result (list row) :=
  match grid_records self data with
  | [] => Raise (ValueError "No valid grid combinations")
  | records => sort_values_desc metric records
  end.

(** *** optimize_bayesian *)

(** the sampler behind [trial.suggest_categorical], [suggest_int] and
    [suggest_float] *)
Variable suggest_categorical : Trial -> string -> list pyval -> result pyval.
Variable suggest_int : Trial -> string -> Z -> Z -> Z -> result Z.
Variable suggest_float :
  Trial -> string -> float -> float -> option float -> result float.

Definition sample_one (trial : Trial) (name : string) (cfg : param_spec)
    : result pyval :=
  match cfg with
  | Choices vals => suggest_categorical trial name vals
  | IntSpec lo hi step =>
      z <- suggest_int trial name lo hi (default 1%Z step) ;;
      Ok (PInt z)
  | FloatSpec lo hi _ step =>
      x <- suggest_float trial name lo hi
             (match step with
              | Some s => if truthy s then Some s else None
              | None => None
              end) ;;
      Ok (PFloat x)
  | OtherSpec _ _ _ =>
      Raise (TypeError "Unsupported or missing param_config")
  end.

Fixpoint sample_loop (trial : Trial) (config : dict param_spec)
    (params : kwargs) : result kwargs :=
  match config with
  | [] => Ok params
  | (name, cfg) :: rest =>
      v <- sample_one trial name cfg ;;
      sample_loop trial rest (dict_set params name v)
  end.

(** [Optimizer.sample_params] *)
Definition sample_params (self : Optimizer) (trial : Trial)
    : result kwargs :=
  match cls_param_config (strategy_cls self) with
  | None => Raise (OtherError "param_config is None")
  | Some config => sample_loop trial config []
  end.

(** the [objective] closure of [optimize_bayesian]: the trial after the
    call, and the value returned or the exception raised *)
Definition objective (self : Optimizer) (data : DataFrame)
    (metric : string) (trial : Trial) : Trial * result float :=
  match sample_params self trial with
  | Raise e => (trial, Raise e)
  | Ok params =>
      match run_metric self data metric params with
      | Ok score =>
          if isfinite score then (trial, Ok score)
          else (trial, Ok NegInf)
      | Raise e => (set_user_attr trial "error" (str_exn e), Ok NegInf)
      end
  end.

(** [study.optimize(objective, n_trials)]: one call of the objective per
    trial; an exception of the objective ends the study *)
Fixpoint study_optimize (obj : Trial -> Trial * result float)
    (n_trials number : nat) (history : list (Trial * float))
    : result (list (Trial * float)) :=
  match n_trials with
  | O => Ok history
  | S n =>
      let trial := {| trial_number := number; user_attrs := [] |} in
      match obj trial with
      | (trial', Ok v) =>
          study_optimize obj n (S number) (history ++ [(trial', v)])
      | (_, Raise e) => Raise e
      end
  end.

Definition study_direction (metric : string) : direction :=
  let m := lower metric in
  if String.eqb m "sharpe" || String.eqb m "total return"
  then Maximize else Minimize.

(** [optimize_bayesian], up to the choice of the best trial: the direction
    and the trials of the study *)
Definition optimize_bayesian (self : Optimizer) (data : DataFrame)
    (metric : string) (n_trials : nat)
    : result (direction * list (Trial * float)) :=
  h <- study_optimize (objective self data metric) n_trials 0 [] ;;
  Ok (study_direction metric, h).

(** *** optimize_de *)

(** the objective [_func]: the constructor calls it made, and the value
    returned or the exception raised *)
Definition _func (self : Optimizer) (enc : de_encoding) (data : DataFrame)
    (metric : string) (x : list float) : list kwargs * result float :=
  if existsb isnan x then ([], Ok penalty)
  else
    match decode enc x with
    | Raise e => ([], Raise e)
    | Ok kw =>
        ([kw],
         match run_metric self data metric kw with
         | Ok perf => Ok (- perf)%flt
         | Raise _ => Ok penalty
         end)
    end.

(** SciPy's [differential_evolution], returning [result.x] *)
Variable differential_evolution :
  (list float -> result float) -> list (pyval * pyval) -> result (list float).

Definition optimize_de (self : Optimizer) (data : DataFrame)
    (metric : string) : result (kwargs * float) :=
  enc <- de_encode (param_grid self) ;;
  match de_bounds enc with
  | [] =>
      perf <- run_metric self data metric [] ;;
      Ok ([], perf)
  | _ :: _ =>
      best_x <- differential_evolution
                  (fun x => snd (_func self enc data metric x))
                  (de_bounds enc) ;;
      best_kwargs <- decode enc best_x ;;
      best_metric <- run_metric self data metric best_kwargs ;;
      Ok (best_kwargs, best_metric)
  end.
End OptimizerRoutines.

(** *** best_params *)

(** [results.iloc[idx]]: a negative position counts from the end *)
Definition iloc (results : list row) (idx : Z) : result row :=
  let n := Z.of_nat (length results) in
  let i := if (idx <? 0)%Z then (n + idx)%Z else idx in
  if (0 <=? i)%Z && (i <? n)%Z
  then match nth_error results (Z.to_nat i) with
       | Some r => Ok r
       | None => Raise (IndexError "single positional indexer is out-of-bounds")
       end
  else Raise (IndexError "single positional indexer is out-of-bounds").

(** the native value kept for a cell: a numpy scalar is unwrapped, then a
    float that is a whole number becomes an int *)
Definition native_value (v : pyval) : pyval :=
  let v := if has_item v then item v else v in
  match v with
  | PFloat x =>
      if is_integer x
      then match py_int_of_float x with Ok z => PInt z | Raise _ => v end
      else v
  | _ => v
  end.

Fixpoint best_params_loop (keys : list string) (r : row) (out : kwargs)
    : result kwargs :=
  match keys with
  | [] => Ok out
  | k :: ks =>
      v <- getitem r k ;;
      best_params_loop ks r (dict_set out k (native_value v))
  end.

(** [Optimizer.best_params] *)
Definition best_params (self : Optimizer) (results : list row) (idx : Z)
    : result kwargs :=
  r <- iloc results idx ;;
  best_params_loop (map fst (param_grid self)) r [].

(** ** Worked strategy classes *)

(** the sampler of the examples: the first choice, the lower bound *)
Definition first_choice (_ : Trial) (_ : string) (vals : list pyval)
    : result pyval :=
  match vals with
  | v :: _ => Ok v
  | [] => Raise (ValueError "empty choices")
  end.
Definition lowest_int (_ : Trial) (_ : string) (lo _ _ : Z) : result Z :=
  Ok lo.
Definition lowest_float (_ : Trial) (_ : string) (lo _ : float)
    (_ : option float) : result float :=
  Ok lo.

(** a class whose instances always signal [0, 1, 1], with the given
    [param_config] *)
Definition example_cls (config : dict param_spec) : StrategyClass :=
  {| cls_name := "Example"%string;
     construct := fun _ => Ok (fixed_signal_strategy [f0; FZ 1; FZ 1]);
     cls_param_config := Some config |}.

(** a class whose constructor rejects every parameter set *)
Definition failing_cls (config : dict param_spec) : StrategyClass :=
  {| cls_name := "Failing"%string;
     construct := fun _ => Raise (ValueError "bad parameters");
     cls_param_config := Some config |}.

Definition example_data : DataFrame := close_prices prices_100_110_121.

(** one real parameter on [0, 1] *)
Definition real_config : dict param_spec :=
  [("th"%string, FloatSpec f0 f1 (Some 3%Z) None)].
(** one integer parameter on 1..10 *)
Definition int_config : dict param_spec :=
  [("k"%string, IntSpec 1 10 None)].
(** one integer parameter on 1..10 with step 4 *)
Definition stepped_config : dict param_spec :=
  [("k"%string, IntSpec 1 10 (Some 4%Z))].
(** one categorical parameter whose choices are numbers *)
Definition window_config : dict param_spec :=
  [("window"%string, Choices [PInt 5; PInt 10; PInt 20])].
(** one categorical parameter whose choices are strings *)
Definition kind_config : dict param_spec :=
  [("kind"%string, Choices [PStr "sma"; PStr "ema"])].


(** a categorical parameter with string choices and an integer parameter *)
Definition mixed_config : dict param_spec :=
  [("kind"%string, Choices [PStr "sma"; PStr "ema"]);
   ("k"%string, IntSpec 1 10 None)].

(** one integer parameter with the two values 1 and 2 *)
Definition two_k_config : dict param_spec :=
  [("k"%string, IntSpec 1 2 None)].

(** the optimizer of the example class over [two_k_config] *)
Definition two_k_optimizer : Optimizer :=
  {| strategy_cls := example_cls two_k_config;
     param_grid := [("k"%string, [PInt 1; PInt 2])] |}.

(** one integer parameter with the eight values 1..8 *)
Definition eight_k_config : dict param_spec :=
  [("k"%string, IntSpec 1 8 None)].

(** a class whose instances stay in the asset in every period when their
    parameter [k] is 5 or more, and out of it otherwise *)
Definition threshold_cls : StrategyClass :=
  {| cls_name := "Threshold"%string;
     construct := fun params =>
       match lookup params "k" with
       | Some (PInt k) =>
           Ok (fixed_signal_strategy
                 (if (5 <=? k)%Z then [FZ 1; FZ 1; FZ 1]
                  else [f0; f0; f0]))
       | _ => Raise (KeyError "k")
       end;
     cls_param_config := Some eight_k_config |}.

(** the optimizer of the threshold class *)
Definition eight_k_optimizer : Optimizer :=
  {| strategy_cls := threshold_cls;
     param_grid :=
       [("k"%string,
         [PInt 1; PInt 2; PInt 3; PInt 4; PInt 5; PInt 6; PInt 7; PInt 8])]
  |}.

(** ** The encoding of one grid entry, as [optimize_de] computes it *)

(** the bounds of an entry: [(min, max)] of its values when all are numbers,
    [(0, len - 1)] otherwise *)
Definition entry_bounds (vals : list pyval) : result (pyval * pyval) :=
  if forallb isinstance_number vals
  then low <- py_min vals ;; high <- py_max vals ;; Ok (low, high)
  else Ok (PInt 0, PInt (Z.of_nat (length vals) - 1)).

(** the integer flag of an entry *)
Definition entry_flag (vals : list pyval) : bool :=
  if forallb isinstance_number vals then forallb isinstance_int vals
  else true.

(** the choice a component [xi] selects: the index nearest to [xi], clipped
    into [0, len - 1] *)
Definition clipped_index (xi : Qc) (len : nat) : nat :=
  Z.to_nat (Z.max 0 (Z.min (qround_half_even xi) (Z.of_nat len - 1))).

(** the categorical map after the loop over the grid *)
Definition cat_map_of (grid : dict (list pyval)) (m : dict (list pyval))
    : dict (list pyval) :=
  fold_left
    (fun m kv =>
       if forallb isinstance_number (snd kv) then m
       else dict_set m (fst kv) (snd kv))
    grid m.


(** ** Sorting algorithms for [argsort] *)

(** what numpy promises of [argsort] on keys without NaN, whatever the kind:
    the outcome lists every position once, in ascending order of the keys *)
Definition argsort_sorts (argsort : list float -> list nat) : Prop :=
  forall ks,
    Forall (fun k => isnan k = false) ks ->
    Permutation (argsort ks) (seq 0 (length ks)) /\
    StronglySorted
      (fun i j => fleb (nth i ks NaN) (nth j ks NaN) = true) (argsort ks).

(** what a stable kind promises in addition: equal keys keep the order of
    their positions *)
Definition argsort_stable (argsort : list float -> list nat) : Prop :=
  forall ks,
    Forall (fun k => isnan k = false) ks ->
    StronglySorted
      (fun i j =>
         fltb (nth i ks NaN) (nth j ks NaN) = true \/
         (feqb (nth i ks NaN) (nth j ks NaN) = true /\ i < j))
      (argsort ks).

(** insertion of position [i] into a sorted list of positions: before the
    first position whose key is larger ([before_equal = false]) or is larger
    or equal ([before_equal = true]) *)
Fixpoint insert_idx (before_equal : bool) (ks : list float) (i : nat)
    (l : list nat) : list nat :=
  match l with
  | [] => [i]
  | j :: r =>
      if (if before_equal then fleb (nth i ks NaN) (nth j ks NaN)
          else fltb (nth i ks NaN) (nth j ks NaN))
      then i :: l
      else j :: insert_idx before_equal ks i r
  end.

(** two sorting algorithms: positions are inserted from the last to the
    first; with [before_equal = true] equal keys keep their order (a stable
    sort), with [before_equal = false] they end up reversed (not stable) *)
Definition insertion_argsort (before_equal : bool) (ks : list float)
    : list nat :=
  fold_right (insert_idx before_equal ks) [] (seq 0 (length ks)).

(** *** numpy's argsort of a few keys on AVX-512

    On a CPU with AVX-512, numpy (1.25 and later) sorts a [float64] array
    for [argsort] with the default kind by vector code.  For at most eight
    keys without NaN: the positions [0..n-1] and their keys fill the eight
    lanes of a vector register, a free lane holding the largest key and
    position 0; a bitonic network of six compare-exchange stages sorts the
    lanes by key, and the first [n] positions are read back. *)

(** a lane: a key and the position it came from *)
Definition lane : Type := (float * nat)%type.

(** one stage: lane [i] is paired with lane [partner i] and takes the larger
    of the two keys where [hi] is set, the smaller one elsewhere; it keeps
    its position when its key did not change and takes the partner's
    position otherwise *)
Definition cmp_merge (partner : list nat) (hi : list bool) (v : list lane)
    : list lane :=
  map (fun i =>
         let '(k, a) := nth i v (PosInf, 0) in
         let '(k', a') := nth (nth i partner 0) v (PosInf, 0) in
         let mn := if fltb k' k then k' else k in
         let mx := if fltb k k' then k' else k in
         let t := if nth i hi false then mx else mn in
         (t, if feqb t k then a else a'))
      (seq 0 8).

(** the six stages: the partner of every lane and the lanes that take the
    larger key (the masks [0xAA], [0xCC], [0xAA], [0xF0], [0xCC], [0xAA]) *)
Definition network_64bit : list (list nat * list bool) :=
  let adjacent := [1; 0; 3; 2; 5; 4; 7; 6] in
  let mirror4 := [3; 2; 1; 0; 7; 6; 5; 4] in
  let mirror8 := [7; 6; 5; 4; 3; 2; 1; 0] in
  let swap2 := [2; 3; 0; 1; 6; 7; 4; 5] in
  let odd := [false; true; false; true; false; true; false; true] in
  let pairs := [false; false; true; true; false; false; true; true] in
  let upper := [false; false; false; false; true; true; true; true] in
  [(adjacent, odd); (mirror4, pairs); (adjacent, odd);
   (mirror8, upper); (swap2, pairs); (adjacent, odd)].

Definition sort_zmm_64bit (v : list lane) : list lane :=
  fold_left (fun v stage => cmp_merge (fst stage) (snd stage) v)
            network_64bit v.

(** the argsort of at most eight keys.  Longer arrays, which numpy sorts by
    merging several registers and by a vectorised quicksort, are not written
    out: a stable insertion sort stands in for them. *)
Definition avx512_argsort (ks : list float) : list nat :=
  let n := length ks in
  if n <=? 8
  then
    let v := map (fun i => if i <? n then (nth i ks NaN, i) else (PosInf, 0))
                 (seq 0 8) in
    firstn n (map snd (sort_zmm_64bit v))
  else insertion_argsort true ks.

(** ** PerformanceAnalyzer over binary64

    Whether the guard [if self.returns.std()] of the Sharpe ratio passes is
    decided by rounding: the standard deviation pandas computes for a
    constant series need not be zero.  This part writes [PerformanceAnalyzer]
    once more, line for line as above, over the binary64 numbers of the
    machine ([PrimFloat.float]: IEEE 754 double precision, rounded to the
    nearest, the cells of numpy's [float64]). *)

Definition f64 : Set := PrimFloat.float.

(** the binary64 number of a whole number (exact below 2^53, and for every
    such number times a power of two) *)
Fixpoint of_pos64 (p : positive) : f64 :=
  match p with
  | xH => PrimFloat.one
  | xO q => PrimFloat.mul PrimFloat.two (of_pos64 q)
  | xI q =>
      PrimFloat.add (PrimFloat.mul PrimFloat.two (of_pos64 q)) PrimFloat.one
  end.
Definition of_Z64 (z : Z) : f64 :=
  match z with
  | Z0 => PrimFloat.zero
  | Zpos p => of_pos64 p
  | Zneg p => PrimFloat.opp (of_pos64 p)
  end.
Definition of_nat64 (n : nat) : f64 := of_Z64 (Z.of_nat n).

(** [s.dropna()] *)
Definition dropna64 (s : list f64) : list f64 :=
  filter (fun x => negb (PrimFloat.is_nan x)) s.

(** truth value of a float in [if x:] : false exactly for [+0.0] and
    [-0.0]; NaN is true *)
Definition truthy64 (x : f64) : bool := negb (PrimFloat.eqb x PrimFloat.zero).

(** [a op b] on two series, as [align] *)
Fixpoint align64 (op : f64 -> f64 -> f64) (a b : list f64) : list f64 :=
  match a with
  | [] => map (fun _ => PrimFloat.nan) b
  | x :: a' =>
      match b with
      | [] => PrimFloat.nan :: map (fun _ => PrimFloat.nan) a'
      | y :: b' => op x y :: align64 op a' b'
      end
  end.

(** [(s > 0)] and [(s < 0)] *)
Definition gt0_64 (x : f64) : bool := PrimFloat.ltb PrimFloat.zero x.
Definition lt0_64 (x : f64) : bool := PrimFloat.ltb x PrimFloat.zero.

(** [b.mean()] of a boolean series *)
Definition bool_mean64 (b : list bool) : f64 :=
  match b with
  | [] => PrimFloat.nan
  | _ :: _ =>
      PrimFloat.div (of_nat64 (length (filter (fun c => c) b)))
        (of_nat64 (length b))
  end.

(** [s.min()] *)
Definition min64 (s : list f64) : f64 :=
  match dropna64 s with
  | [] => PrimFloat.nan
  | x :: r => fold_left (fun m y => if PrimFloat.ltb y m then y else m) r x
  end.

(** [s.cummax()] *)
Fixpoint cummax64_from (m : option f64) (s : list f64) : list f64 :=
  match s with
  | [] => []
  | x :: r =>
      if PrimFloat.is_nan x then PrimFloat.nan :: cummax64_from m r
      else
        let m' := match m with
                  | None => x
                  | Some y => if PrimFloat.ltb y x then x else y
                  end in
        m' :: cummax64_from (Some m') r
  end.
Definition cummax64 (s : list f64) : list f64 := cummax64_from None s.

(** [s.iloc[0]] and [s.iloc[-1]] *)
Definition iloc_first64 (s : list f64) : result f64 :=
  match s with
  | [] => Raise (IndexError "single positional indexer is out-of-bounds")
  | x :: _ => Ok x
  end.
Definition iloc_last64 (s : list f64) : result f64 :=
  match s with
  | [] => Raise (IndexError "single positional indexer is out-of-bounds")
  | x :: r => Ok (last r x)
  end.

Record PerformanceAnalyzer64 : Type := {
  pa64_equity : list f64;
  pa64_returns : list f64
}.

(** [PerformanceAnalyzer.__init__] *)
Definition PerformanceAnalyzer64_init (equity returns : list f64)
    : PerformanceAnalyzer64 :=
  {| pa64_equity := equity; pa64_returns := dropna64 returns |}.

Record Summary64 : Type := {
  total_return64 : f64;
  ann_return64 : f64;
  ann_vol64 : f64;
  sharpe64 : f64;
  max_drawdown64 : f64;
  win_rate64 : f64;
  profit_factor64 : f64;
  expectancy64 : f64
}.

Section Performance64.
(** pandas' [s.sum()], [s.mean()] and [s.std()] of a series, and the power
    operator [**]; [np.sqrt] is the correctly rounded square root *)
Variable sum64 : list f64 -> f64.
Variable mean64 : list f64 -> f64.
Variable std64 : list f64 -> f64.
Variable pow64 : f64 -> f64 -> f64.

(** [PerformanceAnalyzer.summary] *)
Definition summary64 (self : PerformanceAnalyzer64) : result Summary64 :=
  let equity := pa64_equity self in
  let rets := pa64_returns self in
  e_last <- iloc_last64 equity ;;
  e_first <- iloc_first64 equity ;;
  let tot := PrimFloat.sub (PrimFloat.div e_last e_first) PrimFloat.one in
  let days := length rets in
  let ann :=
    match days with
    | O => PrimFloat.nan
    | S _ =>
        PrimFloat.sub
          (pow64 (PrimFloat.add PrimFloat.one tot)
             (PrimFloat.div (of_nat64 252) (of_nat64 days)))
          PrimFloat.one
    end in
  let vol := PrimFloat.mul (std64 rets) (PrimFloat.sqrt (of_nat64 252)) in
  let sr :=
    if truthy64 (std64 rets)
    then PrimFloat.mul (PrimFloat.div (mean64 rets) (std64 rets))
           (PrimFloat.sqrt (of_nat64 252))
    else PrimFloat.nan in
  let dd :=
    align64 PrimFloat.div (align64 PrimFloat.sub equity (cummax64 equity))
      (cummax64 equity) in
  let maxdd := min64 dd in
  let wr := bool_mean64 (map gt0_64 rets) in
  let pf :=
    if existsb lt0_64 rets
    then PrimFloat.div (sum64 (filter gt0_64 rets))
           (PrimFloat.opp (sum64 (filter lt0_64 rets)))
    else PrimFloat.nan in
  let exp :=
    PrimFloat.sub
      (PrimFloat.mul wr
         (if existsb gt0_64 rets then mean64 (filter gt0_64 rets)
          else PrimFloat.zero))
      (PrimFloat.mul (PrimFloat.sub PrimFloat.one wr)
         (if existsb lt0_64 rets
          then PrimFloat.opp (mean64 (filter lt0_64 rets))
          else PrimFloat.zero)) in
  Ok {| total_return64 := tot; ann_return64 := ann; ann_vol64 := vol;
        sharpe64 := sr; max_drawdown64 := maxdd; win_rate64 := wr;
        profit_factor64 := pf; expectancy64 := exp |}.
End Performance64.

(** pandas' reductions as it computes them for a series without NaN of fewer
    than 8 cells: numpy adds so few cells from left to right (longer series
    are summed in blocks, which is not written out here); the mean is the sum
    over the count; the standard deviation ([ddof = 1]) is the square root of
    the sum of the squared distances to that mean over the count less one,
    NaN below two cells *)
Definition np_sum64 (l : list f64) : f64 :=
  fold_left PrimFloat.add l PrimFloat.zero.
Definition pandas_mean64 (l : list f64) : f64 :=
  match l with
  | [] => PrimFloat.nan
  | _ :: _ => PrimFloat.div (np_sum64 l) (of_nat64 (length l))
  end.
Definition pandas_std64 (l : list f64) : f64 :=
  match l with
  | [] | [_] => PrimFloat.nan
  | _ :: _ :: _ =>
      let avg := PrimFloat.div (np_sum64 l) (of_nat64 (length l)) in
      let sqr :=
        map (fun x => PrimFloat.mul (PrimFloat.sub avg x)
                        (PrimFloat.sub avg x)) l in
      PrimFloat.sqrt
        (PrimFloat.div (np_sum64 sqr) (of_nat64 (length l - 1)))
  end.

(** a stand-in for [**] in worked cases: the exponent is truncated to a
    whole number, at most 1000, and the base multiplied that many times *)
Fixpoint whole_part64 (fuel k : nat) (e : f64) : nat :=
  match fuel with
  | O => k
  | S fuel' =>
      if PrimFloat.leb (of_nat64 (S k)) e then whole_part64 fuel' (S k) e
      else k
  end.
Fixpoint pow_nat64 (b : f64) (n : nat) : f64 :=
  match n with
  | O => PrimFloat.one
  | S m => PrimFloat.mul b (pow_nat64 b m)
  end.
Definition pow64_approx (b e : f64) : f64 :=
  pow_nat64 b (whole_part64 1000 0 e).

(** the binary64 numbers nearest to 1/10 and to 1/2 *)
Definition tenth64 : f64 := PrimFloat.div (of_Z64 1) (of_Z64 10).
Definition half64 : f64 := PrimFloat.div (of_Z64 1) (of_Z64 2).

(** ** Further definitions *)

(** an entry from which [Optimizer.__init__] can build a grid: an integer
    step other than 0, a sample count that is not negative *)
Definition spec_builds (spec : param_spec) : Prop :=
  match spec with
  | Choices _ => True
  | IntSpec _ _ step => default 1%Z step <> 0%Z
  | FloatSpec _ _ n _ | OtherSpec _ _ n => (0 <= default 10%Z n)%Z
  end.

(** the number of candidates of a grid: the product of the sizes of its
    value lists *)
Definition grid_size (grid : dict (list pyval)) : nat :=
  fold_right (fun kv acc => length (snd kv) * acc) 1 grid.

(** the value lists a column of [pd.DataFrame(records)] stores cell for
    cell: all 64-bit integers, all floats, all strings or all booleans.  In a
    column of mixed values pandas converts cells: [None] next to a number
    becomes NaN and an integer next to a float becomes a float. *)
Definition int64_cell (v : pyval) : bool :=
  match v with
  | PInt z | NpInt z => (- 2 ^ 63 <=? z)%Z && (z <? 2 ^ 63)%Z
  | _ => false
  end.
Definition float_cell (v : pyval) : bool :=
  match v with PFloat _ | NpFloat _ => true | _ => false end.
Definition str_cell (v : pyval) : bool :=
  match v with PStr _ => true | _ => false end.
Definition bool_cell (v : pyval) : bool :=
  match v with PBool _ | NpBool _ => true | _ => false end.
Definition one_kind (vals : list pyval) : bool :=
  forallb int64_cell vals || forallb float_cell vals
  || forallb str_cell vals || forallb bool_cell vals.

(** the metric names [summary] defines *)
Definition metric_names : list string :=
  ["Total Return"; "Ann. Return"; "Ann. Vol"; "Sharpe"; "Max Drawdown";
   "Win Rate"; "Profit Factor"; "Expectancy"]%string.

(** a stand-in for the minimizer in worked cases: it evaluates the objective
    at the lower corner of the box and returns that corner *)
Definition lower_corner (f : list float -> result float)
    (bounds : list (pyval * pyval)) : result (list float) :=
  let x := map (fun b => num_val (fst b)) bounds in
  _ <- f x ;; Ok x.

(** a finite cell above zero *)
Definition is_positive (x : float) : bool :=
  match x with
  | Fin q => match qsign q with Gt => true | _ => false end
  | _ => false
  end.

(** a signal of a long-only strategy without leverage: missing, or a
    fraction of the capital between 0 and 1 *)
Definition long_only (s : float) : bool :=
  isnan s || (fleb f0 s && fleb s f1).

(** ** DataManager._save_split *)

Section SaveSplit.
(** the rows of the frame *)
Variable Row : Type.

(** the number of rows per file: [max(int(max_file_size / avg), 1)], where
    [avg = mem / (n or 1)] and [mem], the sum of [memory_usage], is a numpy
    integer, so that both divisions are numpy's *)
Definition save_split_chunk (max_file_size mem : Z) (n : nat) : result Z :=
  let avg := (FZ mem / FZ (match n with O => 1 | _ => Z.of_nat n end))%flt in
  c <- py_int_of_float (FZ max_file_size / avg)%flt ;;
  Ok (Z.max c 1).

(** [df.iloc[i:i + chunk]] *)
Definition iloc_slice (df : list Row) (i chunk : Z) : list Row :=
  firstn (Z.to_nat chunk) (skipn (Z.to_nat i) df).

(** the files written, in order: the part number in the file name and the
    rows of the part *)
Definition _save_split (max_file_size mem : Z) (df : list Row)
    : result (list (Z * list Row)) :=
  let n := length df in
  chunk <- save_split_chunk max_file_size mem n ;;
  starts <- py_range 0 (Z.of_nat n) chunk ;;
  Ok (map (fun i => ((i / chunk + 1)%Z, iloc_slice df i chunk)) starts).
End SaveSplit.

(** ** StrategyManager *)

(** [s.replace(old, new)] for one-character [old] and [new] *)
Fixpoint replace_char (old new : Ascii.ascii) (s : string) : string :=
  match s with
  | EmptyString => EmptyString
  | String c r =>
      String (if Ascii.eqb c old then new else c) (replace_char old new r)
  end.

Definition space : Ascii.ascii := Ascii.ascii_of_nat 32.
Definition slash : Ascii.ascii := Ascii.ascii_of_nat 47.
Definition underscore : Ascii.ascii := Ascii.ascii_of_nat 95.

Record StrategyManager : Type := { sm_directory : string }.

(** the pickle files: path to the object stored there; pickling and
    unpickling give the object back *)
Definition file_system : Type := dict TradingStrategy.

(** [f"{name.replace(' ', '_').replace('/', '_')}.pkl"] *)
Definition strategy_file (strategy_name : string) : string :=
  (replace_char slash underscore (replace_char space underscore strategy_name)
   ++ ".pkl")%string.

(** [self.directory / fname] *)
Definition strategy_path (self : StrategyManager) (strategy_name : string)
    : string :=
  (sm_directory self ++ "/" ++ strategy_file strategy_name)%string.

(** [StrategyManager.save] *)
Definition StrategyManager_save (self : StrategyManager) (fs : file_system)
    (strategy : TradingStrategy) : file_system :=
  dict_set fs (strategy_path self (name strategy)) strategy.

(** [StrategyManager.load]; [FileNotFoundError] when the file is missing *)
Definition StrategyManager_load (self : StrategyManager) (fs : file_system)
    (strategy_name : string) : result TradingStrategy :=
  match lookup fs (strategy_path self strategy_name) with
  | Some strat => Ok strat
  | None => Raise (OtherError "No existe estrategia guardada")
  end.

(** ** StrategyCollection *)

Record StrategyCollection : Type := {
  sc_strategies : dict TradingStrategy;
  sc_strategy_cls : option StrategyClass;
  sc_param_grid : option (dict (list pyval))
}.

(** the strategies stored under their own names, each name once *)
Definition keyed_by_name (d : dict TradingStrategy) : Prop :=
  NoDup (map fst d) /\ Forall (fun kv => name (snd kv) = fst kv) d.

(** one step of the loops that fill [self.strategies]: a strategy whose
    name is taken is skipped *)
Definition add_strategy (strategies : dict TradingStrategy)
    (strat : TradingStrategy) : dict TradingStrategy :=
  if dict_mem strategies (name strat) then strategies
  else dict_set strategies (name strat) strat.

(** [StrategyCollection._build_grid_from_config] *)
Definition config_values (spec : param_spec) : result (list pyval) :=
  match spec with
  | Choices vals => Ok vals
  | IntSpec low high step =>
      zs <- py_range low (high + 1) (default 1%Z step) ;;
      Ok (map PInt zs)
  | FloatSpec low high n _ | OtherSpec low high n =>
      xs <- np_linspace low high (default 10%Z n) ;;
      Ok (map NpFloat xs)
  end.
Fixpoint build_grid_from_config_loop (config : dict param_spec)
    (grid : dict (list pyval)) : result (dict (list pyval)) :=
  match config with
  | [] => Ok grid
  | (param, spec) :: rest =>
      vals <- config_values spec ;;
      build_grid_from_config_loop rest (dict_set grid param vals)
  end.
Definition _build_grid_from_config (config : dict param_spec)
    : result (dict (list pyval)) :=
  build_grid_from_config_loop config [].

(** [StrategyCollection._generate_strategies]: a candidate whose
    constructor raises is skipped *)
Definition _generate_strategies (cls : StrategyClass)
    (grid : dict (list pyval)) (strategies : dict TradingStrategy)
    : dict TradingStrategy :=
  fold_left
    (fun acc params =>
       match construct cls params with
       | Ok strat => add_strategy acc strat
       | Raise _ => acc
       end)
    (grid_candidates grid) strategies.

(** [StrategyCollection.__init__] *)
Definition StrategyCollection_init (strategy_cls : option StrategyClass)
    (param_grid : option (dict (list pyval)))
    (strategies : option (list TradingStrategy))
    : result StrategyCollection :=
  match strategies with
  | Some strats =>
      Ok {| sc_strategies := fold_left add_strategy strats [];
            sc_strategy_cls := None;
            sc_param_grid := None |}
  | None =>
      match strategy_cls with
      | None =>
          Raise (ValueError "Must provide either `strategies` or `strategy_cls`")
      | Some cls =>
          grid <- match param_grid with
                  | Some grid => Ok grid
                  | None =>
                      match cls_param_config cls with
                      | None => Raise (ValueError "has no `.param_config`")
                      | Some config => _build_grid_from_config config
                      end
                  end ;;
          Ok {| sc_strategies := _generate_strategies cls grid [];
                sc_strategy_cls := Some cls;
                sc_param_grid := Some grid |}
      end
  end.

(** [names()], [__len__] and [__iter__] *)
Definition names (self : StrategyCollection) : list string :=
  map fst (sc_strategies self).
Definition len (self : StrategyCollection) : nat :=
  length (sc_strategies self).
Definition iter (self : StrategyCollection) : list TradingStrategy :=
  map snd (sc_strategies self).

(** [StrategyCollection.save_all]: the manager after the call (its
    directory is replaced when one is given) and the files *)
Definition save_all (self : StrategyCollection)
    (strategy_manager : StrategyManager) (directory : option string)
    (fs : file_system) : StrategyManager * file_system :=
  let mgr := match directory with
             | Some d => {| sm_directory := d |}
             | None => strategy_manager
             end in
  (mgr, fold_left (StrategyManager_save mgr) (iter self) fs).

(** [StrategyCollection.load_all] *)
Definition load_all (strategy_names : list string)
    (strategy_manager : StrategyManager) (fs : file_system)
    : result StrategyCollection :=
  strats <- mapM (StrategyManager_load strategy_manager fs) strategy_names ;;
  StrategyCollection_init None None (Some strats).

(** the characters that [strategy_file] does not tell apart *)
Definition is_separator (c : Ascii.ascii) : bool :=
  Ascii.eqb c space || Ascii.eqb c slash || Ascii.eqb c underscore.

(** two names of the same length that agree at every position, up to the
    choice among space, slash and underscore *)
Definition same_file_name (n1 n2 : string) : Prop :=
  Forall2 (fun c1 c2 =>
             c1 = c2 \/ (is_separator c1 = true /\ is_separator c2 = true))
          (list_ascii_of_string n1) (list_ascii_of_string n2).

(** a strategy with the given name whose signal is always flat *)
Definition named_strategy (strategy_name : string) : TradingStrategy :=
  {| name := strategy_name;
     price_col := "close"%string;
     generate_signals := fun _ data =>
       price <- getcol data "close" ;; Ok (map (fun _ => f0) price);
     positions := None;
     returns := None;
     equity_curve := None |}.

(** ** Optimizer.find_best_strategy *)

(** the keyword arguments handed on to the routine, among those the routines
    name: [n_trials] (a count) and [seed] for [optimize_bayesian], [maxiter]
    and [popsize] for [optimize_de] *)
Record method_kwargs : Type := {
  kw_n_trials : option nat;
  kw_seed : option Z;
  kw_maxiter : option Z;
  kw_popsize : option Z
}.

(** the three results that are returned: the performance records (strategy
    name and metrics), and the equity curve and the strategy object stored
    under each name.  The local [rec_map] is written and never read. *)
Record best_state : Type := {
  perf_records : list (string * row);
  equity_map : dict Series;
  strategy_obj_map : dict TradingStrategy
}.

Definition no_strategy : best_state :=
  {| perf_records := []; equity_map := []; strategy_obj_map := [] |}.

Definition no_valid_strategies : exn :=
  ValueError "No valid strategies found during optimization.".

Section FindBestStrategy.
Variable pad : bool.
Variable sqrt : float -> float.
Variable pow : float -> float -> float.
Variable argsort : list float -> list nat.
Variable suggest_categorical : Trial -> string -> list pyval -> result pyval.
Variable suggest_int : Trial -> string -> Z -> Z -> Z -> result Z.
Variable suggest_float :
  Trial -> string -> float -> float -> option float -> result float.
Variable differential_evolution :
  (list float -> result float) -> list (pyval * pyval) -> result (list float).
(** Optuna's [study.best_trial] *)
Variable best_trial : direction -> list (Trial * float) -> result Trial.

(** step 1, the best parameters by the chosen routine; [None] for an
    unknown method.  A keyword argument that the routine does not name, or
    a missing [n_trials] or [seed], is a [TypeError] of the call;
    [best.params] holds what the sampler suggested to the best trial *)
Definition best_of_method (method : string) (kw : method_kwargs)
    (opt : Optimizer) (data : DataFrame) (metric : string)
    : result (option kwargs) :=
  if String.eqb method "bayes" then
    match kw_maxiter kw, kw_popsize kw with
    | None, None =>
        match kw_n_trials kw, kw_seed kw with
        | Some n_trials, Some _ =>
            study <- optimize_bayesian pad sqrt pow suggest_categorical
                       suggest_int suggest_float opt data metric n_trials ;;
            best <- best_trial (fst study) (snd study) ;;
            params <- sample_params suggest_categorical suggest_int
                        suggest_float opt
                        {| trial_number := trial_number best;
                           user_attrs := [] |} ;;
            Ok (Some params)
        | _, _ => Raise (TypeError "missing required positional argument")
        end
    | _, _ => Raise (TypeError "got an unexpected keyword argument")
    end
  else if String.eqb method "de" then
    match kw_n_trials kw, kw_seed kw with
    | None, None =>
        best <- optimize_de pad sqrt pow differential_evolution opt data
                  metric ;;
        Ok (Some (fst best))
    | _, _ => Raise (TypeError "got an unexpected keyword argument")
    end
  else if String.eqb method "grid" then
    df <- optimize_grid pad sqrt pow argsort opt data metric ;;
    params <- best_params opt df 0 ;;
    Ok (Some params)
  else Ok None.

(** steps 2 to 5 for one class; an exception leaves the loop body where it
    is raised, after the writes already made *)
Definition evaluate_best (cls : StrategyClass) (data : DataFrame)
    (params : kwargs) (st : best_state) : best_state :=
  match construct cls params with
  | Raise _ => st
  | Ok strat0 =>
      match backtest pad strat0 data (FZ 10000) f0 with
      | Raise _ => st
      | Ok (eq, strat) =>
          let equity_map' := dict_set (equity_map st) (name strat) eq in
          let strategy_obj_map' :=
            dict_set (strategy_obj_map st) (name strat) strat in
          let stored :=
            {| perf_records := perf_records st;
               equity_map := equity_map';
               strategy_obj_map := strategy_obj_map' |} in
          match returns strat with
          | None => stored
          | Some rets =>
              match summary sqrt pow (PerformanceAnalyzer_init eq rets) with
              | Raise _ => stored
              | Ok s =>
                  {| perf_records :=
                       perf_records st ++ [(name strat, to_dict s)];
                     equity_map := equity_map';
                     strategy_obj_map := strategy_obj_map' |}
              end
          end
      end
  end.

(** the body of the loop over the classes, with its [try] *)
Definition find_step (method : string) (kw : method_kwargs)
    (data : DataFrame) (metric : string) (st : best_state)
    (cls : StrategyClass) : best_state :=
  match Optimizer_init cls with
  | Raise _ => st
  | Ok opt =>
      match best_of_method method kw opt data metric with
      | Raise _ | Ok None => st
      | Ok (Some params) => evaluate_best cls data params st
      end
  end.

(** [DataFrame(perf_records).set_index('strategy')
     .sort_values(by=metric, ascending=False)]; sorting by the index level
    [strategy] itself is not modelled *)
Definition sort_perf (metric : string) (records : list (string * row))
    : result (list (string * row)) :=
  keys <- mapM (fun r => sort_key metric (snd r)) records ;;
  Ok (map (fun i => nth i records (EmptyString, []))
          (nargsort_desc argsort keys)).

Definition find_best_strategy (strategies : list StrategyClass)
    (data : DataFrame) (method metric : string) (kw : method_kwargs)
    : result (list (string * row) * dict Series * dict TradingStrategy) :=
  let st := fold_left (find_step method kw data metric) strategies
              no_strategy in
  match perf_records st with
  | [] => Raise no_valid_strategies
  | _ :: _ =>
      perf_df <- sort_perf metric (perf_records st) ;;
      Ok (perf_df, equity_map st, strategy_obj_map st)
  end.
End FindBestStrategy.

(** a stand-in for [study.best_trial] in worked cases: the first trial *)
Definition first_trial (_ : direction) (history : list (Trial * float))
    : result Trial :=
  match history with
  | (t, _) :: _ => Ok t
  | [] => Raise (ValueError "No trials are completed yet.")
  end.

Definition no_kwargs : method_kwargs :=
  {| kw_n_trials := None; kw_seed := None;
     kw_maxiter := None; kw_popsize := None |}.

(** ** The cache key of DataManager.load_data *)

(** [sep.join(parts)] *)
Fixpoint join (sep : string) (parts : list string) : string :=
  match parts with
  | [] => EmptyString
  | [a] => a
  | a :: rest => (a ++ sep ++ join sep rest)%string
  end.

(** [value or ''] *)
Definition or_empty (value : option string) : string :=
  match value with Some s => s | None => EmptyString end.

(** the truth value of a string: false exactly for the empty one *)
Definition nonempty (s : string) : bool :=
  match s with EmptyString => false | String _ _ => true end.

(** the list of symbols of a call: one symbol, or a list *)
Definition sym_list_of (symbols : string + list string) : list string :=
  match symbols with inl s => [s] | inr l => l end.

(** [basename]: the non-empty values among the joined symbols, [start],
    [end], [period] and [interval], joined with underscores *)
Definition basename (symbols : string + list string)
    (start end_ period interval : option string) : string :=
  join "_"
    (filter nonempty
       [join "-" (sym_list_of symbols); or_empty start; or_empty end_;
        or_empty period; or_empty interval]).

(** ** TradingSystem and the backtests of a collection *)

(** a trading system: its symbol, its strategy and the data loaded so far.
    The risk manager and the stop loss are handed to [backtest], which does
    not read them *)
Record TradingSystem : Type := {
  ts_symbol : string;
  ts_strategy : TradingStrategy;
  ts_data : option DataFrame
}.

(** pandas' [nargsort] for [ascending=True], [na_position='last'] *)
Definition nargsort_asc (argsort : list float -> list nat)
    (keys : list float) : list nat :=
  let idx := seq 0 (length keys) in
  let non_nan_idx := filter (fun i => negb (isnan (nth i keys NaN))) idx in
  let nan_idx := filter (fun i => isnan (nth i keys NaN)) idx in
  let non_nans := map (fun i => nth i keys NaN) non_nan_idx in
  map (fun j => nth j non_nan_idx O) (argsort non_nans) ++ nan_idx.

(** a summary as a table row: the cells of a frame are numpy floats *)
Definition summary_cells (s : Summary) : row :=
  map (fun kv => (fst kv, NpFloat (num_val (snd kv)))) (to_dict s).

Section CollectionBacktests.
Variable pad : bool.
Variable sqrt : float -> float.
Variable pow : float -> float -> float.
Variable argsort : list float -> list nat.
(** [DataManager.load_data]: the cache files and the download *)
Variable load_data :
  string + list string -> option string -> option string ->
  option string -> option string -> result DataFrame.

(** [TradingSystem.load] *)
Definition TradingSystem_load (self : TradingSystem)
    (start end_ period interval : option string)
    : result (DataFrame * TradingSystem) :=
  data <- load_data (inl (ts_symbol self)) start end_ period interval ;;
  Ok (data, {| ts_symbol := ts_symbol self;
               ts_strategy := ts_strategy self;
               ts_data := Some data |}).

(** [TradingSystem.run_backtest]: the equity curve and the system after the
    call; [ReportManager.summarize] computes the summary of the run, its
    printing and its report file are not modelled *)
Definition run_backtest (self : TradingSystem)
    (initial_capital transaction_cost : float)
    : result (Series * TradingSystem) :=
  match ts_data self with
  | None => Raise (OtherError "Datos no cargados. Llama a load() primero.")
  | Some data =>
      r <- backtest pad (ts_strategy self) data initial_capital
             transaction_cost ;;
      rets <- match returns (snd r) with
              | Some rets => Ok rets
              | None => Raise (OtherError "returns is None")
              end ;;
      _ <- summary sqrt pow (PerformanceAnalyzer_init (fst r) rets) ;;
      Ok (fst r, {| ts_symbol := ts_symbol self;
                    ts_strategy := snd r;
                    ts_data := Some data |})
  end.

(** the loop of [backtest_all] over [self.strategies.items()]: the equity
    curves so far, and the strategies as the runs leave them (a backtest
    writes into the strategy object, which the collection shares) *)
Fixpoint backtest_all_loop (symbol : string)
    (period interval : option string)
    (initial_capital transaction_cost : float)
    (items : dict TradingStrategy) (equity_dict : dict Series)
    : result (dict Series * dict TradingStrategy) :=
  match items with
  | [] => Ok (equity_dict, [])
  | (strategy_name, strat) :: rest =>
      let ts := {| ts_symbol := symbol; ts_strategy := strat;
                   ts_data := None |} in
      loaded <- TradingSystem_load ts None None period interval ;;
      run <- run_backtest (snd loaded) initial_capital transaction_cost ;;
      after <- backtest_all_loop symbol period interval initial_capital
                 transaction_cost rest
                 (dict_set equity_dict strategy_name (fst run)) ;;
      Ok (fst after, (strategy_name, ts_strategy (snd run)) :: snd after)
  end.

(** [StrategyCollection.backtest_all] *)
Definition backtest_all (self : StrategyCollection) (symbol : string)
    (period interval : option string)
    (initial_capital transaction_cost : float)
    : result (dict Series * StrategyCollection) :=
  r <- backtest_all_loop symbol period interval initial_capital
         transaction_cost (sc_strategies self) [] ;;
  Ok (fst r, {| sc_strategies := snd r;
                sc_strategy_cls := sc_strategy_cls self;
                sc_param_grid := sc_param_grid self |}).

(** the summaries of step 2, one per entry of [equity_dict] *)
Definition performance_record (strategies : dict TradingStrategy)
    (entry : string * Series) : result (string * row) :=
  strat <- getitem strategies (fst entry) ;;
  rets <- match returns strat with
          | Some rets => Ok rets
          | None => Raise (OtherError "returns is None")
          end ;;
  s <- summary sqrt pow (PerformanceAnalyzer_init (snd entry) rets) ;;
  Ok (fst entry, summary_cells s).

(** [DataFrame(records).sort_values(by=sort_by, ascending=ascending)]; a
    frame made of no record has no column to sort by *)
Definition sort_records (sort_by : string) (ascending : bool)
    (records : list (string * row)) : result (list (string * row)) :=
  match records with
  | [] => Raise (KeyError sort_by)
  | _ :: _ =>
      keys <- mapM (fun r => sort_key sort_by (snd r)) records ;;
      Ok (map (fun i => nth i records (EmptyString, []))
              (if ascending then nargsort_asc argsort keys
               else nargsort_desc argsort keys))
  end.

(** [StrategyCollection.backtest_and_performance_all] *)
Definition backtest_and_performance_all (self : StrategyCollection)
    (symbol : string) (period interval : option string)
    (initial_capital transaction_cost : float)
    (sort_by : string) (ascending : bool)
    : result (list (string * row) * dict Series * StrategyCollection) :=
  r <- backtest_all self symbol period interval initial_capital
         transaction_cost ;;
  records <- mapM (performance_record (sc_strategies (snd r))) (fst r) ;;
  perf_df <- sort_records sort_by ascending records ;;
  Ok (perf_df, fst r, snd r).
End CollectionBacktests.

(** a stand-in for [load_data] in worked cases: the example frame, whatever
    is asked *)
Definition cached_example (_ : string + list string)
    (_ _ _ _ : option string) : result DataFrame :=
  Ok example_data.

(** the collection of the strategies named [sma] and [ema] *)
Definition sma_ema_collection : StrategyCollection :=
  {| sc_strategies :=
       [("sma"%string, named_strategy "sma");
        ("ema"%string, named_strategy "ema")];
     sc_strategy_cls := None;
     sc_param_grid := None |}.

(** * Properties *)

(** *** Facts about the float model *)

Lemma fsame_eq (x y : float) : fsame x y = true <-> x = y.
Proof.
  destruct x as [a| | |], y as [b| | |]; simpl; split;
    try discriminate; try reflexivity.
  - destruct (a ?= b)%Qc eqn:E; try discriminate.
    intros _. f_equal. apply Qc_is_canon. now apply Qeq_alt.
  - intros [= ->]. unfold Qccompare. now rewrite (proj1 (Qeq_alt b b)).
Qed.


Lemma fmul_1_l (x : float) : (f1 * x)%flt = x.
Proof.
  destruct x as [a| | |]; simpl; try reflexivity.
  f_equal. apply Qcmult_1_l.
Qed.

Lemma fmul_0_l (x : float) : isfinite x = true -> (f0 * x)%flt = f0.
Proof.
  destruct x as [a| | |]; simpl; try discriminate.
  intros _. unfold f0, FZ. f_equal. apply Qcmult_0_l.
Qed.


Lemma fmul_comm (x y : float) : (x * y)%flt = (y * x)%flt.
Proof.
  destruct x as [a| | |], y as [b| | |]; simpl; try reflexivity.
  f_equal. apply Qcmult_comm.
Qed.

Lemma fsub_0_r (x : float) : (x - f0)%flt = x.
Proof.
  destruct x as [a| | |]; simpl; try reflexivity.
  f_equal. change (- Q2Qc (inject_Z 0))%Qc with (Q2Qc 0).
  apply Qcplus_0_r.
Qed.


(** *** Cell-wise description of the Series operations *)


Lemma length_removelast_cons (x : float) (r : Series) :
  length (removelast (x :: r)) = length r.
Proof.
  revert x. induction r as [|y r IH]; intros x; [reflexivity|].
  change (removelast (x :: y :: r)) with (x :: removelast (y :: r)).
  cbn [length]. now rewrite IH.
Qed.

Lemma length_shift1 (s : Series) : length (shift1 s) = length s.
Proof.
  destruct s as [|x r]; [reflexivity|].
  unfold shift1. cbn [length]. now rewrite length_removelast_cons.
Qed.

Lemma cell_shift1_0 (s : Series) : cell (shift1 s) 0 = NaN.
Proof. destruct s; reflexivity. Qed.

Lemma nth_removelast_lt (s : Series) (t : nat) :
  S t < length s -> nth t (removelast s) NaN = nth t s NaN.
Proof.
  revert t. induction s as [|x r IH]; intros t H; [cbn in H; lia|].
  destruct r as [|y r']; [cbn in H; lia|].
  cbn [removelast]. destruct t as [|t]; [reflexivity|].
  cbn [nth]. apply IH. cbn [length] in *. lia.
Qed.

Lemma cell_shift1_S (s : Series) (t : nat) :
  S t < length s -> cell (shift1 s) (S t) = cell s t.
Proof.
  intros H. destruct s as [|x r]; [cbn in H; lia|].
  unfold cell, shift1. cbn [nth]. now apply nth_removelast_lt.
Qed.

Lemma cell_map (f : float -> float) (s : Series) (t : nat) :
  t < length s -> cell (map f s) t = f (cell s t).
Proof.
  intros H. unfold cell.
  rewrite (nth_indep (map f s) NaN (f NaN)) by now rewrite length_map.
  apply map_nth.
Qed.

Lemma length_fillna (v : float) (s : Series) : length (fillna v s) = length s.
Proof. apply length_map. Qed.

Lemma cell_fillna (v : float) (s : Series) (t : nat) :
  t < length s ->
  cell (fillna v s) t = if isnan (cell s t) then v else cell s t.
Proof. intros H. unfold fillna. now rewrite cell_map. Qed.

Lemma length_align op (a b : Series) :
  length a = length b -> length (align op a b) = length a.
Proof.
  revert b. induction a as [|x a IH]; intros [|y b] H; cbn in *;
    try lia. now rewrite IH by lia.
Qed.

Lemma cell_align op (a b : Series) (t : nat) :
  length a = length b -> t < length a ->
  cell (align op a b) t = op (cell a t) (cell b t).
Proof.
  revert b t. induction a as [|x a IH]; intros [|y b] t H Ht; cbn in *;
    try lia.
  destruct t as [|t]; [reflexivity|]. apply IH; lia.
Qed.

Lemma length_diff (s : Series) : length (diff s) = length s.
Proof. unfold diff. apply length_align. now rewrite length_shift1. Qed.

Lemma ffill_from_nonan (last : float) (s : Series) :
  Forall (fun x => isnan x = false) s -> ffill_from last s = s.
Proof.
  intros H. revert last. induction H as [|x r Hx _ IH]; intros last.
  - reflexivity.
  - cbn. rewrite Hx. now rewrite IH.
Qed.

Lemma length_ffill_from (last : float) (s : Series) :
  length (ffill_from last s) = length s.
Proof.
  revert last. induction s as [|x r IH]; intros last; [reflexivity|].
  cbn. destruct (isnan x); cbn; now rewrite IH.
Qed.

Lemma length_pct_change pad (s : Series) :
  length (pct_change pad s) = length s.
Proof.
  unfold pct_change, ffill. rewrite length_map, length_align.
  - destruct pad; [apply length_ffill_from|reflexivity].
  - now rewrite length_shift1.
Qed.



Lemma cell_pct_change pad (s : Series) (t : nat) :
  Forall (fun x => isnan x = false) s -> t < length s ->
  cell (pct_change pad s) t = (cell s t / cell (shift1 s) t - f1)%flt.
Proof.
  intros H Ht. unfold pct_change, ffill.
  assert (E : (if pad then ffill_from NaN s else s) = s)
    by (destruct pad; [now apply ffill_from_nonan|reflexivity]).
  rewrite E, cell_map.
  - now rewrite cell_align by (now rewrite ?length_shift1).
  - rewrite length_align; [assumption|now rewrite length_shift1].
Qed.


Lemma prod_from_shift (acc : float) (f : nat -> float) (t : nat) :
  prod_from (acc * f O)%flt (fun k => f (S k)) t = prod_from acc f (S t).
Proof.
  induction t as [|t IH]; [reflexivity|].
  cbn [prod_from] in *. now rewrite IH.
Qed.

Lemma prod_from_upto (f : nat -> float) (t : nat) :
  prod_from (f O) (fun k => f (S k)) t = prod_upto f (S t).
Proof.
  induction t as [|t IH]; [reflexivity|].
  cbn [prod_from prod_upto] in *. now rewrite IH.
Qed.

Lemma length_np_cumprod_from acc (v : Series) :
  length (np_cumprod_from acc v) = length v.
Proof.
  revert acc. induction v as [|x r IH]; intros acc; cbn; [reflexivity|].
  now rewrite IH.
Qed.

Lemma length_np_cumprod (v : Series) : length (np_cumprod v) = length v.
Proof.
  destruct v; cbn; [reflexivity|]. now rewrite length_np_cumprod_from.
Qed.

Lemma cell_np_cumprod_from acc (v : Series) (t : nat) :
  t < length v ->
  cell (np_cumprod_from acc v) t = prod_from acc (cell v) t.
Proof.
  revert acc t. induction v as [|x r IH]; intros acc t H;
    [cbn in H; lia|].
  destruct t as [|t]; [reflexivity|].
  cbn [np_cumprod_from]. unfold cell at 1. cbn [nth].
  change (nth t (np_cumprod_from (acc * x)%flt r) NaN)
    with (cell (np_cumprod_from (acc * x)%flt r) t).
  rewrite IH by (cbn in H; lia).
  apply (prod_from_shift acc (cell (x :: r)) t).
Qed.

Lemma cell_np_cumprod (v : Series) (t : nat) :
  t < length v -> cell (np_cumprod v) t = prod_upto (cell v) t.
Proof.
  destruct v as [|x r]; intros H; [cbn in H; lia|].
  destruct t as [|t]; [reflexivity|].
  unfold np_cumprod, cell at 1. cbn [nth].
  change (nth t (np_cumprod_from x r) NaN)
    with (cell (np_cumprod_from x r) t).
  rewrite cell_np_cumprod_from by (cbn in H; lia).
  apply (prod_from_upto (cell (x :: r)) t).
Qed.

Lemma length_cumprod (s : Series) : length (cumprod s) = length s.
Proof.
  unfold cumprod. rewrite length_map, length_combine, length_np_cumprod,
    length_map. lia.
Qed.

Lemma cumprod_nonan (s : Series) :
  Forall (fun x => isnan x = false) s -> cumprod s = np_cumprod s.
Proof.
  intros H. unfold cumprod.
  assert (E : map (fun x => if isnan x then f1 else x) s = s).
  { induction H as [|x r Hx _ IH]; cbn; [reflexivity|].
    now rewrite Hx, IH. }
  rewrite E. clear E.
  assert (G : forall v, length v = length s ->
            map (fun p : float * float =>
                   if isnan (fst p) then NaN else snd p) (combine s v) = v).
  { induction H as [|x r Hx _ IH]; intros [|y v] L; cbn in *;
      try reflexivity; try lia.
    rewrite Hx, IH by lia. reflexivity. }
  apply G, length_np_cumprod.
Qed.

Lemma cell_cumprod (s : Series) (t : nat) :
  Forall (fun x => isnan x = false) s -> t < length s ->
  cell (cumprod s) t = prod_upto (cell s) t.
Proof.
  intros H Ht. rewrite (cumprod_nonan H). now apply cell_np_cumprod.
Qed.

Lemma prod_upto_ext (f g : nat -> float) (t : nat) :
  (forall k, k <= t -> f k = g k) -> prod_upto f t = prod_upto g t.
Proof.
  induction t as [|t IH]; intros H; cbn.
  - apply H; lia.
  - rewrite IH by (intros; apply H; lia). now rewrite (H (S t)) by lia.
Qed.

(** *** Dictionaries *)

Lemma lookup_dict_set_same {V} (d : dict V) (k : string) (v : V) :
  lookup (dict_set d k v) k = Some v.
Proof.
  induction d as [|[k' v'] d IH]; cbn.
  - now rewrite String.eqb_refl.
  - destruct (String.eqb k' k) eqn:E; cbn; rewrite E; [reflexivity|exact IH].
Qed.

Lemma lookup_dict_set_other {V} (d : dict V) (k k' : string) (v : V) :
  k <> k' -> lookup (dict_set d k v) k' = lookup d k'.
Proof.
  intros N. induction d as [|[k0 v0] d IH]; cbn.
  - apply String.eqb_neq in N. now rewrite N.
  - destruct (String.eqb k0 k) eqn:E; cbn.
    + apply String.eqb_eq in E. subst k0.
      apply String.eqb_neq in N. now rewrite N.
    + now rewrite IH.
Qed.

Lemma lookup_notin {V} (d : dict V) (k : string) :
  ~ In k (map fst d) -> lookup d k = None.
Proof.
  induction d as [|[k0 v0] d IH]; intros N; [reflexivity|].
  cbn in *. destruct (String.eqb k0 k) eqn:E.
  - apply String.eqb_eq in E. tauto.
  - apply IH. tauto.
Qed.

Lemma lookup_in {V} (d : dict V) (k : string) :
  In k (map fst d) -> exists v, lookup d k = Some v.
Proof.
  induction d as [|[k0 v0] d IH]; intros H; [contradiction|].
  cbn in *. destruct (String.eqb k0 k) eqn:E.
  - now exists v0.
  - apply IH. destruct H as [H|H]; [|assumption].
    apply String.eqb_neq in E. contradiction.
Qed.

Lemma dict_set_new {V} (d : dict V) (k : string) (v : V) :
  ~ In k (map fst d) -> dict_set d k v = d ++ [(k, v)].
Proof.
  induction d as [|[k0 v0] d IH]; intros N; [reflexivity|].
  cbn in *. destruct (String.eqb k0 k) eqn:E.
  - apply String.eqb_eq in E. tauto.
  - rewrite IH by tauto. reflexivity.
Qed.


Lemma lookup_Some_in {V} (d : dict V) (k : string) (v : V) :
  lookup d k = Some v -> In (k, v) d.
Proof.
  induction d as [|[k0 v0] d IH]; intros H; [discriminate|].
  cbn in *. destruct (String.eqb k0 k) eqn:E.
  - apply String.eqb_eq in E. injection H as ->. subst. now left.
  - right. now apply IH.
Qed.

(** *** The order of floats *)

Lemma fltb_Fin (a b : Qc) : fltb (Fin a) (Fin b) = true <-> (a < b)%Qc.
Proof.
  cbn. rewrite Qclt_alt. destruct (a ?= b)%Qc; split; congruence.
Qed.

Lemma feqb_Fin (a b : Qc) : feqb (Fin a) (Fin b) = true <-> a = b.
Proof.
  cbn. rewrite Qceq_alt. destruct (a ?= b)%Qc; split; congruence.
Qed.

Lemma fleb_Fin (a b : Qc) : fleb (Fin a) (Fin b) = true <-> (a <= b)%Qc.
Proof.
  unfold fleb. rewrite orb_true_iff, fltb_Fin, feqb_Fin. split.
  - intros [H| ->]; [now apply Qclt_le_weak|apply Qcle_refl].
  - intros H. apply Qcle_lt_or_eq in H. tauto.
Qed.

Lemma fleb_trans (a b c : float) :
  fleb a b = true -> fleb b c = true -> fleb a c = true.
Proof.
  destruct a as [p| | |], b as [q| | |], c as [r| | |];
    try discriminate; try reflexivity.
  rewrite !fleb_Fin. apply Qcle_trans.
Qed.

Lemma fltb_false_fleb (a b : float) :
  isnan a = false -> isnan b = false ->
  fltb a b = false -> fleb b a = true.
Proof.
  destruct a as [p| | |], b as [q| | |];
    try discriminate; try reflexivity.
  intros _ _ H. apply fleb_Fin, Qcnot_lt_le.
  intros L. apply fltb_Fin in L. congruence.
Qed.

Lemma fleb_false_fltb (a b : float) :
  isnan a = false -> isnan b = false ->
  fleb a b = false -> fltb b a = true.
Proof.
  destruct a as [p| | |], b as [q| | |];
    try discriminate; try reflexivity.
  intros _ _ H. apply fltb_Fin, Qcnot_le_lt.
  intros L. apply fleb_Fin in L. congruence.
Qed.

Lemma fltb_fleb (a b : float) : fltb a b = true -> fleb a b = true.
Proof. intros H. unfold fleb. now rewrite H. Qed.

Lemma fltb_trans (a b c : float) :
  fltb a b = true -> fltb b c = true -> fltb a c = true.
Proof.
  destruct a as [p| | |], b as [q| | |], c as [r| | |];
    try discriminate; try reflexivity.
  rewrite !fltb_Fin. apply Qclt_trans.
Qed.

Lemma fltb_feqb_trans (a b c : float) :
  fltb a b = true -> feqb b c = true -> fltb a c = true.
Proof.
  destruct a as [p| | |], b as [q| | |], c as [r| | |];
    try discriminate; try reflexivity.
  rewrite !fltb_Fin, feqb_Fin. now intros H <-.
Qed.

Lemma feqb_fltb_trans (a b c : float) :
  feqb a b = true -> fltb b c = true -> fltb a c = true.
Proof.
  destruct a as [p| | |], b as [q| | |], c as [r| | |];
    try discriminate; try reflexivity.
  rewrite !fltb_Fin, feqb_Fin. now intros ->.
Qed.

Lemma feqb_trans (a b c : float) :
  feqb a b = true -> feqb b c = true -> feqb a c = true.
Proof.
  destruct a as [p| | |], b as [q| | |], c as [r| | |];
    try discriminate; try reflexivity.
  rewrite !feqb_Fin. congruence.
Qed.

(** *** Strongly sorted lists *)

Lemma SS_weaken {A} (R R' : A -> A -> Prop) (l : list A) :
  (forall a b, In a l -> In b l -> R a b -> R' a b) ->
  StronglySorted R l -> StronglySorted R' l.
Proof.
  intros H S. induction S as [|a l S IH F]; constructor.
  - apply IH. intros x y Hx Hy. apply H; now right.
  - rewrite Forall_forall in *. intros x Hx.
    apply H; [now left|now right|now apply F].
Qed.

Lemma SS_map {A B} (R : B -> B -> Prop) (f : A -> B) (l : list A) :
  StronglySorted (fun a b => R (f a) (f b)) l ->
  StronglySorted R (map f l).
Proof.
  intros S. induction S as [|a l S IH F]; cbn; constructor.
  - assumption.
  - rewrite Forall_forall in *. intros y Hy.
    apply in_map_iff in Hy. destruct Hy as (x & <- & Hx). now apply F.
Qed.

Lemma SS_app {A} (R : A -> A -> Prop) (l1 l2 : list A) :
  StronglySorted R l1 -> StronglySorted R l2 ->
  (forall a b, In a l1 -> In b l2 -> R a b) ->
  StronglySorted R (l1 ++ l2).
Proof.
  intros S1 S2 H. induction S1 as [|a l S IH F]; cbn; [assumption|].
  constructor.
  - apply IH. intros x y Hx Hy. apply H; [now right|assumption].
  - apply Forall_app. split; [assumption|].
    apply Forall_forall. intros y Hy. apply H; [now left|assumption].
Qed.

Lemma SS_rev {A} (R : A -> A -> Prop) (l : list A) :
  StronglySorted R l -> StronglySorted (fun a b => R b a) (rev l).
Proof.
  intros S. induction S as [|a l S IH F]; cbn; [constructor|].
  apply SS_app; [assumption|repeat constructor|].
  intros x y Hx [<-|[]]. apply in_rev in Hx.
  rewrite Forall_forall in F. now apply F.
Qed.

Lemma SS_filter {A} (R : A -> A -> Prop) (p : A -> bool) (l : list A) :
  StronglySorted R l -> StronglySorted R (filter p l).
Proof.
  intros S. induction S as [|a l S IH F]; cbn; [constructor|].
  destruct (p a); [|assumption]. constructor; [assumption|].
  rewrite Forall_forall in *. intros x Hx. apply filter_In in Hx.
  now apply F.
Qed.

Lemma SS_seq (start len : nat) : StronglySorted lt (seq start len).
Proof.
  revert start. induction len as [|len IH]; intros start; cbn; constructor.
  - apply IH.
  - apply Forall_forall. intros x Hx. apply in_seq in Hx. lia.
Qed.

Lemma SS_nth {A} (R : A -> A -> Prop) (l : list A) (d : A) (i j : nat) :
  StronglySorted R l -> i < j -> j < length l ->
  R (nth i l d) (nth j l d).
Proof.
  intros S. revert i j. induction S as [|a l S IH F]; intros i j Hij Hj.
  - cbn in Hj. lia.
  - destruct j as [|j]; [lia|]. cbn in Hj. destruct i as [|i]; cbn.
    + rewrite Forall_forall in F. apply F, nth_In. lia.
    + apply IH; lia.
Qed.

Lemma filter_partition_perm {A} (p : A -> bool) (l : list A) :
  Permutation (filter p l ++ filter (fun x => negb (p x)) l) l.
Proof.
  induction l as [|a l IH]; cbn; [constructor|].
  destruct (p a); cbn.
  - now constructor.
  - apply Permutation_sym, Permutation_cons_app, Permutation_sym, IH.
Qed.

Lemma map_nth_seq {A} (l : list A) (d : A) :
  map (fun i => nth i l d) (seq 0 (length l)) = l.
Proof.
  induction l as [|a l IH]; [reflexivity|].
  cbn [length seq map nth]. f_equal.
  rewrite <- seq_shift, map_map. exact IH.
Qed.

(** ** TradingStrategy.backtest *)

Lemma isfinite_fadd (x y : float) :
  isfinite x = true -> isfinite y = true -> isfinite (x + y)%flt = true.
Proof. destruct x, y; simpl; congruence. Qed.

Lemma isfinite_fneg (x : float) :
  isfinite x = true -> isfinite (- x)%flt = true.
Proof. destruct x; simpl; congruence. Qed.

Lemma isfinite_fsub (x y : float) :
  isfinite x = true -> isfinite y = true -> isfinite (x - y)%flt = true.
Proof. intros. apply isfinite_fadd; [|apply isfinite_fneg]; assumption. Qed.

Lemma isfinite_fmul (x y : float) :
  isfinite x = true -> isfinite y = true -> isfinite (x * y)%flt = true.
Proof. destruct x, y; simpl; congruence. Qed.

Lemma isfinite_fdiv (x y : float) :
  price_ok x = true -> price_ok y = true -> isfinite (x / y)%flt = true.
Proof.
  unfold price_ok. destruct x as [a| | |], y as [b| | |]; simpl;
    try discriminate.
  unfold qsign. intros _ H.
  change (b ?= Q2Qc (inject_Z 0))%Qc with (b ?= 0)%Qc in H.
  destruct (b ?= 0)%Qc; try reflexivity. discriminate.
Qed.

Lemma isfinite_missing_as_0 (x : float) :
  signal_ok x = true -> isfinite (missing_as_0 x) = true.
Proof. destruct x; intros H; try discriminate H; reflexivity. Qed.

Lemma isfinite_notnan (x : float) : isfinite x = true -> isnan x = false.
Proof. destruct x; simpl; congruence. Qed.

Lemma isfinite_missing_fabs (x : float) :
  signal_ok x = true -> isfinite (missing_as_0 (fabs x)) = true.
Proof. destruct x; intros H; try discriminate H; reflexivity. Qed.

Lemma signal_ok_fsub (x y : float) :
  signal_ok x = true -> signal_ok y = true -> signal_ok (x - y)%flt = true.
Proof.
  destruct x, y; intros Hx Hy; try discriminate Hx; try discriminate Hy;
    reflexivity.
Qed.

Lemma Forall_cell (P : float -> Prop) (s : Series) :
  (forall t, t < length s -> P (cell s t)) -> Forall P s.
Proof.
  intros H. apply Forall_nth. intros i d Hi.
  rewrite (nth_indep s d NaN Hi). now apply H.
Qed.

Lemma cell_Forall (P : float -> Prop) (s : Series) (t : nat) :
  Forall P s -> t < length s -> P (cell s t).
Proof.
  intros H Ht. unfold cell. rewrite Forall_forall in H.
  apply H. now apply nth_In.
Qed.

Lemma price_ok_notnan (price : Series) :
  Forall (fun p => price_ok p = true) price ->
  Forall (fun p => isnan p = false) price.
Proof.
  apply Forall_impl. intros p H. unfold price_ok in H.
  apply andb_prop in H. now apply isfinite_notnan.
Qed.

Section BacktestCells.
Variables (pad : bool) (price sig : Series) (ic tc : float).
Let l := backtest_compute pad price sig ic tc.

Lemma cell_l_pos (t : nat) :
  t < length sig -> cell (l_pos l) t = position sig t.
Proof.
  intros Ht. cbn [l l_pos backtest_compute].
  rewrite cell_fillna by now rewrite length_shift1.
  destruct t as [|t].
  - now rewrite cell_shift1_0.
  - now rewrite cell_shift1_S.
Qed.

Lemma cell_l_ret (t : nat) :
  Forall (fun p => price_ok p = true) price -> t < length price ->
  cell (l_ret l) t = priceReturn price t.
Proof.
  intros Hp Ht. cbn [l l_ret backtest_compute].
  pose proof (price_ok_notnan Hp) as Hn.
  rewrite cell_fillna by now rewrite length_pct_change.
  rewrite cell_pct_change by assumption.
  destruct t as [|t].
  - rewrite cell_shift1_0. now destruct (cell price 0).
  - rewrite cell_shift1_S by assumption. cbn [priceReturn].
    assert (F : isfinite (cell price (S t) / cell price t - f1)%flt = true).
    { apply isfinite_fsub; [|reflexivity].
      apply isfinite_fdiv; apply (cell_Forall Hp); lia. }
    now rewrite (isfinite_notnan _ F).
Qed.

Lemma length_cost :
  length (map (fun c => (c * tc)%flt) (fillna f0 (sabs (diff sig))))
  = length sig.
Proof.
  unfold sabs. now rewrite length_map, length_fillna, length_map, length_diff.
Qed.

Lemma cell_cost (t : nat) :
  t < length sig ->
  cell (map (fun c => (c * tc)%flt) (fillna f0 (sabs (diff sig)))) t
  = (tc * signalChange sig t)%flt.
Proof.
  intros Ht. unfold sabs.
  rewrite cell_map by now rewrite length_fillna, length_map, length_diff.
  rewrite cell_fillna by now rewrite length_map, length_diff.
  rewrite cell_map by now rewrite length_diff.
  unfold diff. rewrite cell_align by now rewrite ?length_shift1.
  rewrite fmul_comm. f_equal.
  destruct t as [|t].
  - rewrite cell_shift1_0. now destruct (cell sig 0).
  - now rewrite cell_shift1_S.
Qed.

Lemma length_l_strat_ret :
  length sig = length price -> length (l_strat_ret l) = length price.
Proof.
  intros L. cbn [l l_strat_ret backtest_compute].
  rewrite !length_align;
    rewrite ?length_fillna, ?length_shift1, ?length_pct_change, ?length_cost;
    auto.
  rewrite length_align;
    rewrite ?length_fillna, ?length_shift1, ?length_pct_change; auto.
Qed.

Lemma cell_l_strat_ret (t : nat) :
  Forall (fun p => price_ok p = true) price ->
  length sig = length price -> t < length price ->
  cell (l_strat_ret l) t = periodReturn price sig tc (signalChange sig) t.
Proof.
  intros Hp L Ht. pose proof (price_ok_notnan Hp) as Hn.
  pose proof (cell_l_pos (t := t)) as Ep.
  pose proof (@cell_l_ret t Hp Ht) as Er.
  cbn [l l_pos l_ret l_strat_ret backtest_compute] in *.
  assert (Lpr : length (fillna f0 (shift1 sig))
                = length (fillna f0 (pct_change pad price)))
    by now rewrite !length_fillna, length_shift1, length_pct_change.
  assert (Lp : length (fillna f0 (shift1 sig)) = length sig)
    by now rewrite length_fillna, length_shift1.
  rewrite cell_align.
  - rewrite cell_align by (rewrite ?Lp; lia).
    rewrite Ep, Er, cell_cost by lia. reflexivity.
  - rewrite length_align, length_cost by assumption. assumption.
  - rewrite length_align by assumption. lia.
Qed.

Lemma isfinite_periodReturn (t : nat) :
  Forall (fun p => price_ok p = true) price ->
  Forall (fun s => signal_ok s = true) sig ->
  isfinite tc = true ->
  length sig = length price -> t < length price ->
  isfinite (periodReturn price sig tc (signalChange sig) t) = true.
Proof.
  intros Hp Hs Htc L Ht. unfold periodReturn.
  apply isfinite_fsub; apply isfinite_fmul; try assumption.
  - destruct t as [|t]; [reflexivity|]. cbn [position].
    apply isfinite_missing_as_0, (cell_Forall Hs). lia.
  - destruct t as [|t]; [reflexivity|]. cbn [priceReturn].
    apply isfinite_fsub; [|reflexivity].
    apply isfinite_fdiv; apply (cell_Forall Hp); lia.
  - destruct t as [|t]; [reflexivity|]. cbn [signalChange].
    apply isfinite_missing_fabs, signal_ok_fsub;
      apply (cell_Forall Hs); lia.
Qed.

Lemma length_l_equity :
  length sig = length price -> length (l_equity l) = length price.
Proof.
  intros L. pose proof (length_l_strat_ret L) as E.
  cbn [l l_strat_ret l_equity backtest_compute] in *.
  now rewrite length_map, length_cumprod, length_map.
Qed.

Lemma cell_l_equity (t : nat) :
  Forall (fun p => price_ok p = true) price ->
  Forall (fun s => signal_ok s = true) sig ->
  isfinite tc = true ->
  length sig = length price -> t < length price ->
  cell (l_equity l) t = equityAt price sig ic tc (signalChange sig) t.
Proof.
  intros Hp Hs Htc L Ht.
  pose proof (length_l_strat_ret L) as Ls.
  assert (Es : forall k, k < length price ->
             cell (map (fun r => (f1 + r)%flt) (l_strat_ret l)) k
             = (f1 + periodReturn price sig tc (signalChange sig) k)%flt).
  { intros k Hk. rewrite cell_map by lia. now rewrite cell_l_strat_ret. }
  assert (Hn : Forall (fun x => isnan x = false)
                 (map (fun r => (f1 + r)%flt) (l_strat_ret l))).
  { apply Forall_cell. intros k Hk. rewrite length_map, Ls in Hk.
    rewrite Es by assumption. apply isfinite_notnan, isfinite_fadd;
      [reflexivity|now apply isfinite_periodReturn]. }
  change (l_equity l)
    with (map (fun c => (ic * c)%flt)
              (cumprod (map (fun r => (f1 + r)%flt) (l_strat_ret l)))).
  rewrite cell_map by (rewrite length_cumprod, length_map; lia).
  rewrite cell_cumprod by (rewrite ?length_map; auto; lia).
  unfold equityAt. f_equal. apply prod_upto_ext.
  intros k Hk. apply Es. lia.
Qed.


End BacktestCells.






(** C2 (the code at the specification's example).  With transaction cost 0,
    prices [100, 110, 121] and signal [1, 1, 1], [backtest] uses the lagged
    positions [0, 1, 1] for the returns, and the [positions] it stores are
    the signal [1, 1, 1] itself, not [0, 1, 1]. *)
Theorem backtest_example_stored_positions :
  exists equity self',
    backtest true (fixed_signal_strategy [FZ 1; FZ 1; FZ 1])
      (close_prices prices_100_110_121) (FZ 100) f0 = Ok (equity, self') /\
    l_pos (backtest_compute true prices_100_110_121 [FZ 1; FZ 1; FZ 1]
             (FZ 100) f0) = [f0; FZ 1; FZ 1] /\
    positions self' = Some [FZ 1; FZ 1; FZ 1] /\
    positions self' <> Some [f0; FZ 1; FZ 1].
Proof.
  eexists. eexists. split; [reflexivity|]. split; [reflexivity|].
  split; [reflexivity|]. cbn [positions].
  intros E. injection E as E. discriminate E.
Qed.




(** ** PerformanceAnalyzer *)

Lemma dropna_idem (s : Series) : dropna (dropna s) = dropna s.
Proof.
  unfold dropna. induction s as [|x r IH]; [reflexivity|].
  cbn. destruct (isnan x) eqn:E; cbn; [assumption|].
  rewrite E. cbn. now rewrite IH.
Qed.

Lemma dropna_nonan (s : Series) : Forall (fun x => isnan x = false) (dropna s).
Proof.
  unfold dropna. apply Forall_forall. intros x Hx.
  apply filter_In in Hx. destruct Hx as [_ Hx].
  now destruct (isnan x).
Qed.

Lemma dropna_id (s : Series) :
  Forall (fun x => isnan x = false) s -> dropna s = s.
Proof.
  intros H. unfold dropna. induction H as [|x r Hx _ IH]; [reflexivity|].
  cbn. rewrite Hx. cbn. now rewrite IH.
Qed.

Lemma dropna_filter (p : float -> bool) (s : Series) :
  Forall (fun x => isnan x = false) s -> dropna (filter p s) = filter p s.
Proof.
  intros H. apply dropna_id. apply Forall_forall. intros x Hx.
  apply filter_In in Hx. rewrite Forall_forall in H. now apply H.
Qed.

Lemma length_filter_map (p : float -> bool) (l : list float) :
  length (filter (fun c : bool => c) (map p l)) = length (filter p l).
Proof.
  induction l as [|y l IH]; [reflexivity|].
  cbn. destruct (p y); cbn; now rewrite IH.
Qed.

Lemma bool_mean_map (p : float -> bool) (r : list float) :
  bool_mean (map p r)
  = match r with
    | [] => NaN
    | _ :: _ => (count (filter p r) / count r)%flt
    end.
Proof.
  destruct r as [|x r]; [reflexivity|].
  unfold count. rewrite <- length_filter_map, <- (length_map p (x :: r)).
  reflexivity.
Qed.

Lemma qsign_pos (m : Z) : (0 < m)%Z -> qsign (Q2Qc (inject_Z m)) = Gt.
Proof.
  intros H. unfold qsign. apply Qcgt_alt. unfold Qclt.
  cbn [this Q2Qc]. rewrite !Qred_correct. rewrite <- (Zlt_Qlt 0). exact H.
Qed.

Lemma valid_entries_dropna (s : Series) (kept : list float) :
  valid_entries s kept <-> kept = dropna s.
Proof.
  split.
  - induction 1 as [|x s kept Hx _ IH|x s kept Hx _ IH]; [reflexivity| |];
      unfold dropna; cbn [filter]; rewrite Hx; cbn [negb];
      fold (dropna s); now rewrite IH.
  - intros ->. induction s as [|x s IH]; [constructor|].
    unfold dropna. cbn [filter]. destruct (isnan x) eqn:Hx; cbn [negb];
      fold (dropna s); now constructor.
Qed.

Section PerformanceProps.
Variable sqrt : float -> float.
Variable pow : float -> float -> float.

Lemma summary_ok (equity returns : Series) :
  equity <> [] ->
  exists s, summary sqrt pow (PerformanceAnalyzer_init equity returns) = Ok s.
Proof.
  intros H. destruct equity as [|e r]; [congruence|].
  unfold summary. cbn [pa_equity iloc_last iloc_first bind]. eexists.
  reflexivity.
Qed.

Lemma summary_fields (self : PerformanceAnalyzer) (s : Summary) :
  summary sqrt pow self = Ok s ->
  let r := pa_returns self in
  ann_return s
  = match length r with
    | O => NaN
    | S _ => (pow (f1 + total_return s) (FZ 252 / FZ (Z.of_nat (length r)))
              - f1)%flt
    end /\
  ann_vol s = (series_std sqrt r * sqrt (FZ 252))%flt /\
  sharpe s
  = (if truthy (series_std sqrt r)
     then (series_mean r / series_std sqrt r * sqrt (FZ 252))%flt
     else NaN) /\
  win_rate s = bool_mean (map gt0 r) /\
  profit_factor s
  = (if existsb lt0 r
     then (series_sum (filter gt0 r) / - series_sum (filter lt0 r))%flt
     else NaN) /\
  expectancy s
  = (bool_mean (map gt0 r)
     * (if existsb gt0 r then series_mean (filter gt0 r) else f0)
     - (f1 - bool_mean (map gt0 r))
       * (if existsb lt0 r then - series_mean (filter lt0 r) else f0))%flt.
Proof.
  unfold summary. destruct (pa_equity self) as [|e q].
  - discriminate.
  - cbn [iloc_last iloc_first bind]. intros [= <-]. cbn.
    repeat split; reflexivity.
Qed.

(** C9.  The analyzer keeps exactly the non-NaN entries of the returns, in
    their order, and every return-based metric of the summary is the plain
    formula over the kept entries: the observation count of the annualized
    return, the means, the sums and the win-rate denominator range over the
    non-NaN returns only.  A NaN period does not propagate: two series with
    the same non-NaN entries have the same summary, and the win rate is a
    number as soon as one return is valid. *)
Theorem summary_over_valid_returns (equity returns kept : Series) :
  valid_entries returns kept ->
  pa_returns (PerformanceAnalyzer_init equity returns) = kept /\
  (forall other,
     valid_entries other kept ->
     summary sqrt pow (PerformanceAnalyzer_init equity other)
     = summary sqrt pow (PerformanceAnalyzer_init equity returns)) /\
  (equity <> [] ->
   exists s,
     summary sqrt pow (PerformanceAnalyzer_init equity returns) = Ok s) /\
  forall s,
    summary sqrt pow (PerformanceAnalyzer_init equity returns) = Ok s ->
    ann_return s = ann_return_over pow (total_return s) kept /\
    ann_vol s = ann_vol_over sqrt kept /\
    sharpe s = sharpe_over sqrt kept /\
    win_rate s = win_rate_over kept /\
    profit_factor s = profit_factor_over kept /\
    expectancy s = expectancy_over kept /\
    (kept <> [] -> isnan (win_rate s) = false).
Proof.
  intros Hk. apply valid_entries_dropna in Hk. subst kept.
  split; [reflexivity|]. split.
  { intros other Ho. apply valid_entries_dropna in Ho.
    unfold PerformanceAnalyzer_init. now rewrite Ho. }
  split; [apply summary_ok|].
  intros s Hs. pose proof (dropna_nonan returns) as Hn.
  destruct (summary_fields _ Hs) as (Ha & Hv & Hsr & Hw & Hpf & He).
  cbn [PerformanceAnalyzer_init pa_returns] in *.
  unfold series_std, series_mean, series_sum in *.
  rewrite ?dropna_idem, ?(dropna_filter _ Hn), ?bool_mean_map in *.
  unfold ann_return_over, ann_vol_over, sharpe_over, win_rate_over,
    profit_factor_over, expectancy_over.
  repeat split; try assumption.
  intros Hne. rewrite Hw. destruct (dropna returns) as [|x r]; [congruence|].
  unfold count, FZ. cbn [fdiv]. rewrite qsign_pos by (cbn [length]; lia).
  reflexivity.
Qed.
End PerformanceProps.

Lemma summary_over_valid_returns_witness :
  valid_entries [FQ 1 100; NaN; FQ (-2) 100; NaN; f0]
    [FQ 1 100; FQ (-2) 100; f0] /\
  exists s,
    summary sqrt_approx pow_approx
      (PerformanceAnalyzer_init [FZ 100; FZ 101; FZ 99]
         [FQ 1 100; NaN; FQ (-2) 100; NaN; f0]) = Ok s /\
    pa_returns
      (PerformanceAnalyzer_init [FZ 100; FZ 101; FZ 99]
         [FQ 1 100; NaN; FQ (-2) 100; NaN; f0])
    = [FQ 1 100; FQ (-2) 100; f0] /\
    win_rate s = FQ 1 3 /\
    profit_factor s = FQ 1 2 /\
    expectancy s = FQ (-1) 100 /\
    sharpe s
    = (FQ (-1) 300 / sqrt_approx (FQ 7 30000) * sqrt_approx (FZ 252))%flt.
Proof.
  assert (V : valid_entries [FQ 1 100; NaN; FQ (-2) 100; NaN; f0]
                [FQ 1 100; FQ (-2) 100; f0]).
  { apply valid_entries_keep; [reflexivity|].
    apply valid_entries_skip; [reflexivity|].
    apply valid_entries_keep; [reflexivity|].
    apply valid_entries_skip; [reflexivity|].
    apply valid_entries_keep; [reflexivity|]. apply valid_entries_nil. }
  split; [exact V|].
  destruct (@summary_over_valid_returns sqrt_approx pow_approx
              [FZ 100; FZ 101; FZ 99] [FQ 1 100; NaN; FQ (-2) 100; NaN; f0]
              [FQ 1 100; FQ (-2) 100; f0] V) as (Hr & _ & _ & H).
  eexists. split; [reflexivity|]. split; [exact Hr|].
  destruct (H _ eq_refl) as (_ & _ & Hsr & Hw & Hp & He & _).
  rewrite Hsr, Hw, Hp, He.
  repeat split; apply fsame_eq; reflexivity.
Defined.

(** ** The objectives of optimize_de and optimize_bayesian *)

Section ObjectiveProps.
Variable pad : bool.
Variable sqrt : float -> float.
Variable pow : float -> float -> float.

(** C3 (amended).  For every input vector with at least one NaN component
    the objective of [optimize_de] returns the penalty [1e6], makes no
    constructor call (no evaluation) and raises nothing. *)
Theorem de_objective_rejects_nan (self : Optimizer) (enc : de_encoding)
    (data : DataFrame) (metric : string) (x : list float) :
  existsb isnan x = true ->
  _func pad sqrt pow self enc data metric x = ([], Ok penalty).
Proof.
  intros H. unfold _func. now rewrite H.
Qed.

Variable suggest_categorical : Trial -> string -> list pyval -> result pyval.
Variable suggest_int : Trial -> string -> Z -> Z -> Z -> result Z.
Variable suggest_float :
  Trial -> string -> float -> float -> option float -> result float.

Let obj :=
  objective pad sqrt pow suggest_categorical suggest_int suggest_float.



End ObjectiveProps.

Lemma de_objective_rejects_nan_witness :
  existsb isnan [FQ 1 2; NaN] = true /\
  _func true sqrt_approx pow_approx two_k_optimizer de_empty example_data
    "Sharpe" [FQ 1 2; NaN] = ([], Ok penalty).
Proof.
  split; [reflexivity|].
  apply (@de_objective_rejects_nan true sqrt_approx pow_approx
           two_k_optimizer de_empty example_data "Sharpe"%string
           [FQ 1 2; NaN]).
  reflexivity.
Defined.

(** C3 (as stated, refuted).  The vector [[inf]] has a non-finite component
    and no NaN.  With one real parameter the objective calls the constructor
    with [th = inf] (an evaluation is attempted); with one integer parameter
    rounding the component raises [OverflowError] out of the objective. *)
Lemma de_objective_infinity_counterexample :
  existsb (fun v => negb (isfinite v)) [PosInf] = true /\
  (exists self enc,
     Optimizer_init (example_cls real_config) = Ok self /\
     de_encode (param_grid self) = Ok enc /\
     fst (_func true sqrt_approx pow_approx self enc example_data "Sharpe"
            [PosInf])
     = [[("th"%string, PFloat PosInf)]]) /\
  (exists self enc,
     Optimizer_init (example_cls int_config) = Ok self /\
     de_encode (param_grid self) = Ok enc /\
     _func true sqrt_approx pow_approx self enc example_data "Sharpe"
       [PosInf]
     = ([], Raise (OverflowError "cannot convert float infinity to integer"))).
Proof.
  split; [reflexivity|]. split.
  - eexists. eexists. split; [reflexivity|]. split; reflexivity.
  - eexists. eexists. split; [reflexivity|]. split; reflexivity.
Qed.



(** ** best_params *)







(** ** The encoding of optimize_de *)

Lemma mapM_nth_error {A B} (f : A -> result B) (l : list A) (bs : list B)
    (i : nat) (a : A) :
  mapM f l = Ok bs -> nth_error l i = Some a ->
  exists b, f a = Ok b /\ nth_error bs i = Some b.
Proof.
  revert bs i. induction l as [|a0 l IH]; intros bs i H Hi.
  - destruct i; discriminate.
  - cbn in H. destruct (f a0) as [b0|] eqn:E0; [|discriminate].
    cbn in H. destruct (mapM f l) as [bs0|] eqn:E1; [|discriminate].
    cbn in H. injection H as <-.
    destruct i as [|i]; cbn in *.
    + injection Hi as <-. now exists b0.
    + now apply IH.
Qed.

Lemma mapM_length {A B} (f : A -> result B) (l : list A) (bs : list B) :
  mapM f l = Ok bs -> length bs = length l.
Proof.
  revert bs. induction l as [|a0 l IH]; intros bs H; cbn in H.
  - now injection H as <-.
  - destruct (f a0) as [b0|]; [|discriminate]. cbn in H.
    destruct (mapM f l) as [bs0|]; [|discriminate]. cbn in H.
    injection H as <-. cbn. now rewrite (IH bs0).
Qed.

Lemma de_encode_loop_spec (grid : dict (list pyval)) (enc enc' : de_encoding) :
  de_encode_loop grid enc = Ok enc' ->
  de_keys enc' = de_keys enc ++ map fst grid /\
  (exists bs,
     mapM (fun kv => entry_bounds (snd kv)) grid = Ok bs /\
     de_bounds enc' = de_bounds enc ++ bs) /\
  de_int_flags enc'
  = de_int_flags enc ++ map (fun kv => entry_flag (snd kv)) grid /\
  de_cat_map enc' = cat_map_of grid (de_cat_map enc).
Proof.
  revert enc. induction grid as [|[k vals] grid IH]; intros enc H.
  - cbn in H. injection H as <-. cbn. rewrite !app_nil_r.
    repeat split. exists []. split; [reflexivity|now rewrite app_nil_r].
  - cbn [de_encode_loop] in H. cbn [mapM map cat_map_of fold_left fst snd].
    unfold entry_bounds at 1, entry_flag at 1.
    destruct (forallb isinstance_number vals) eqn:Hn.
    + destruct (py_min vals) as [low|] eqn:El; [|discriminate].
      destruct (py_max vals) as [high|] eqn:Eh; [|discriminate].
      cbn [bind] in *. apply IH in H.
      cbn [de_keys de_bounds de_int_flags de_cat_map] in H.
      destruct H as (Hk & (bs & Hb & Hbs) & Hf & Hc).
      rewrite Hk, Hbs, Hf, Hc, <- !app_assoc. cbn [app].
      repeat split. exists ((low, high) :: bs). rewrite Hb. now cbn.
    + cbn [bind] in *. apply IH in H.
      cbn [de_keys de_bounds de_int_flags de_cat_map] in H.
      destruct H as (Hk & (bs & Hb & Hbs) & Hf & Hc).
      rewrite Hk, Hbs, Hf, Hc, <- !app_assoc. cbn [app].
      repeat split.
      exists ((PInt 0, PInt (Z.of_nat (length vals) - 1)) :: bs).
      rewrite Hb. now cbn.
Qed.

Lemma cat_map_of_notin (grid : dict (list pyval)) (m : dict (list pyval))
    (k : string) :
  ~ In k (map fst grid) -> lookup (cat_map_of grid m) k = lookup m k.
Proof.
  revert m. induction grid as [|[k0 v0] grid IH]; intros m N; [reflexivity|].
  cbn in *. unfold cat_map_of in IH. rewrite IH by tauto.
  destruct (forallb isinstance_number v0); [reflexivity|].
  apply lookup_dict_set_other. tauto.
Qed.

Lemma cat_map_of_in (grid : dict (list pyval)) (m : dict (list pyval))
    (k : string) (vals : list pyval) :
  NoDup (map fst grid) -> In (k, vals) grid ->
  lookup (cat_map_of grid m) k
  = if forallb isinstance_number vals then lookup m k else Some vals.
Proof.
  revert m. induction grid as [|[k0 v0] grid IH]; intros m N I;
    [contradiction|].
  cbn [map fst] in N. inversion_clear N as [|? ? Nk Nr].
  change (cat_map_of ((k0, v0) :: grid) m)
    with (cat_map_of grid
            (if forallb isinstance_number v0 then m else dict_set m k0 v0)).
  destruct I as [[= -> ->]|I].
  - rewrite cat_map_of_notin by assumption.
    destruct (forallb isinstance_number vals); [reflexivity|].
    apply lookup_dict_set_same.
  - rewrite (IH _ Nr I).
    destruct (forallb isinstance_number vals); [|reflexivity].
    destruct (forallb isinstance_number v0); [reflexivity|].
    apply lookup_dict_set_other. intros ->. apply Nk.
    change k with (fst (k, vals)). now apply in_map.
Qed.

Lemma forallb_false_nonempty {A} (p : A -> bool) (l : list A) :
  forallb p l = false -> 0 < length l.
Proof. destruct l; cbn; [discriminate|lia]. Qed.

Lemma decode_cell_choice (cat_map : dict (list pyval)) (k : string)
    (vals : list pyval) (q : Qc) (flag : bool) :
  lookup cat_map k = Some vals -> 0 < length vals ->
  exists v,
    decode_cell cat_map (Fin q) k flag = Ok v /\
    nth_error vals (clipped_index q (length vals)) = Some v /\
    clipped_index q (length vals) < length vals /\
    In v vals.
Proof.
  intros Hl Hn. unfold decode_cell. rewrite Hl. cbn [py_round bind].
  fold (clipped_index q (length vals)).
  assert (Hlt : clipped_index q (length vals) < length vals)
    by (unfold clipped_index; lia).
  destruct (nth_error vals (clipped_index q (length vals))) as [v|] eqn:E.
  - exists v. repeat split; try assumption. now apply nth_error_In in E.
  - apply nth_error_None in E. lia.
Qed.

Lemma decode_loop_keeps (cat_map : dict (list pyval)) (x : list float)
    (keys : list string) (flags : list bool) (kw kw' : kwargs)
    (k0 : string) :
  decode_loop cat_map x keys flags kw = Ok kw' ->
  ~ In k0 keys -> lookup kw' k0 = lookup kw k0.
Proof.
  revert keys flags kw.
  induction x as [|xi x IH]; intros keys flags kw H N.
  - cbn in H. now injection H as <-.
  - destruct keys as [|k keys]; [cbn in H; now injection H as <-|].
    destruct flags as [|f flags]; [cbn in H; now injection H as <-|].
    cbn [decode_loop] in H.
    destruct (decode_cell cat_map xi k f) as [v|]; [|discriminate].
    cbn [bind] in H. apply IH in H; [|cbn in N; tauto].
    rewrite H. apply lookup_dict_set_other. cbn in N. tauto.
Qed.

Lemma decode_loop_component (cat_map : dict (list pyval)) (x : list float)
    (keys : list string) (flags : list bool) (kw kw' : kwargs)
    (i : nat) (xi : float) (k : string) (f : bool) :
  NoDup keys ->
  decode_loop cat_map x keys flags kw = Ok kw' ->
  nth_error x i = Some xi -> nth_error keys i = Some k ->
  nth_error flags i = Some f ->
  exists v, decode_cell cat_map xi k f = Ok v /\ lookup kw' k = Some v.
Proof.
  revert keys flags kw i.
  induction x as [|x0 x IH]; intros keys flags kw i N H Hx Hk Hf.
  - destruct i; discriminate.
  - destruct keys as [|k0 keys]; [destruct i; discriminate|].
    destruct flags as [|f0 flags]; [destruct i; discriminate|].
    cbn [decode_loop] in H. inversion_clear N as [|? ? Nk Nr].
    destruct (decode_cell cat_map x0 k0 f0) as [v0|] eqn:E; [|discriminate].
    cbn [bind] in H. destruct i as [|i]; cbn in Hx, Hk, Hf.
    + injection Hx as <-. injection Hk as <-. injection Hf as <-.
      exists v0. split; [assumption|].
      rewrite (@decode_loop_keeps _ _ _ _ _ _ k0 H Nk).
      apply lookup_dict_set_same.
    + now apply (IH keys flags (dict_set kw k0 v0) i).
Qed.

Lemma nth_error_map_fst {A B} (l : list (A * B)) (i : nat) (a : A) (b : B) :
  nth_error l i = Some (a, b) -> nth_error (map fst l) i = Some a.
Proof. intros H. rewrite nth_error_map, H. reflexivity. Qed.

(** what [optimize_de] does with one grid entry *)
Lemma de_encode_entry (grid : dict (list pyval)) (enc : de_encoding)
    (i : nat) (k : string) (vals : list pyval) :
  NoDup (map fst grid) ->
  de_encode grid = Ok enc ->
  nth_error grid i = Some (k, vals) ->
  de_keys enc = map fst grid /\
  (forallb isinstance_number vals = false ->
   nth_error (de_bounds enc) i
   = Some (PInt 0, PInt (Z.of_nat (length vals) - 1)) /\
   nth_error (de_int_flags enc) i = Some true /\
   forall q flag, exists v,
     decode_cell (de_cat_map enc) (Fin q) k flag = Ok v /\
     nth_error vals (clipped_index q (length vals)) = Some v /\
     In v vals) /\
  (forallb isinstance_number vals = true ->
   (exists low high,
      py_min vals = Ok low /\ py_max vals = Ok high /\
      nth_error (de_bounds enc) i = Some (low, high)) /\
   nth_error (de_int_flags enc) i = Some (forallb isinstance_int vals) /\
   forall xi,
     decode_cell (de_cat_map enc) xi k (forallb isinstance_int vals)
     = if forallb isinstance_int vals
       then r <- py_round xi ;; Ok (PInt r)
       else Ok (PFloat xi)) /\
  (forall x kw xi,
     decode enc x = Ok kw -> nth_error x i = Some xi ->
     exists v flag,
       nth_error (de_int_flags enc) i = Some flag /\
       decode_cell (de_cat_map enc) xi k flag = Ok v /\
       lookup kw k = Some v).
Proof.
  intros N H Hi. unfold de_encode in H.
  apply de_encode_loop_spec in H. cbn [de_empty de_keys de_bounds
    de_int_flags de_cat_map app] in H.
  destruct H as (Hk & (bs & Hb & Hbs) & Hf & Hc).
  destruct (@mapM_nth_error _ _ _ _ _ _ _ Hb Hi) as (b & Eb & Hnb).
  cbn [snd] in Eb. rewrite <- Hbs in Hnb.
  assert (Hfl : nth_error (de_int_flags enc) i = Some (entry_flag vals)).
  { rewrite Hf, nth_error_map, Hi. reflexivity. }
  assert (Hin : In (k, vals) grid) by (now apply nth_error_In in Hi).
  pose proof (@cat_map_of_in grid [] k vals N Hin) as Hcat. rewrite <- Hc in Hcat.
  split; [assumption|]. split; [|split].
  - intros Hn. unfold entry_bounds, entry_flag in *. rewrite Hn in *.
    injection Eb as <-. repeat split; try assumption.
    intros q flag.
    destruct (@decode_cell_choice _ k vals q flag Hcat
                (@forallb_false_nonempty _ _ _ Hn)) as (v & E1 & E2 & _ & E3).
    now exists v.
  - intros Hn. unfold entry_bounds, entry_flag in *. rewrite Hn in *.
    destruct (py_min vals) as [low|]; [|discriminate].
    destruct (py_max vals) as [high|]; [|discriminate].
    cbn [bind] in Eb. injection Eb as <-. repeat split.
    + now exists low, high.
    + assumption.
    + intros xi. unfold decode_cell. cbn [lookup] in Hcat. now rewrite Hcat.
  - intros x kw xi Hd Hx. unfold decode in Hd.
    assert (Nk : NoDup (de_keys enc)) by now rewrite Hk.
    assert (Hki : nth_error (de_keys enc) i = Some k).
    { rewrite Hk. now apply nth_error_map_fst with (b := vals). }
    destruct (@decode_loop_component _ _ _ _ _ _ _ _ _ _ Nk Hd Hx Hki Hfl)
      as (v & E1 & E2).
    now exists v, (entry_flag vals).
Qed.

Lemma nth_error_combine {A B} (la : list A) (lb : list B) (i : nat)
    (a : A) (b : B) :
  nth_error la i = Some a -> nth_error lb i = Some b ->
  nth_error (combine la lb) i = Some (a, b).
Proof.
  revert lb i. induction la as [|a0 la IH]; intros [|b0 lb] [|i] Ha Hb;
    try discriminate; cbn in *.
  - now injection Ha as <-; injection Hb as <-.
  - now apply IH.
Qed.

Lemma map_fst_combine {A B} (la : list A) (lb : list B) :
  length la = length lb -> map fst (combine la lb) = la.
Proof.
  revert lb. induction la as [|a la IH]; intros [|b lb] H; cbn in *;
    try reflexivity; try discriminate.
  f_equal. apply IH. lia.
Qed.

Lemma build_grid_spec (config : dict param_spec)
    (grid0 grid : dict (list pyval)) :
  NoDup (map fst grid0 ++ map fst config) ->
  build_grid config grid0 = Ok grid ->
  exists vs,
    mapM (fun ns => spec_grid (snd ns)) config = Ok vs /\
    grid = grid0 ++ combine (map fst config) vs.
Proof.
  revert grid0. induction config as [|[name spec] config IH];
    intros grid0 N H.
  - cbn in H. injection H as <-. exists []. cbn. now rewrite app_nil_r.
  - cbn [build_grid] in H. cbn [mapM snd map fst].
    destruct (spec_grid spec) as [vals|]; [|discriminate].
    cbn [bind] in *.
    assert (Nk : ~ In name (map fst grid0)).
    { intros I. cbn in N. apply NoDup_remove_2 in N. apply N.
      apply in_or_app. now left. }
    rewrite (@dict_set_new _ grid0 name vals Nk) in H.
    apply IH in H.
    + destruct H as (vs & Hm & ->). exists (vals :: vs). rewrite Hm.
      cbn. now rewrite <- app_assoc.
    + rewrite map_app, <- app_assoc. exact N.
Qed.

Lemma forallb_map {A B} (p : B -> bool) (f : A -> B) (l : list A) :
  (forall a, p (f a) = true) -> forallb p (map f l) = true.
Proof.
  intros H. induction l as [|a l IH]; [reflexivity|].
  cbn. now rewrite H, IH.
Qed.

Lemma spec_grid_numeric (spec : param_spec) (vals : list pyval) :
  spec_grid spec = Ok vals ->
  (forall choices, spec <> Choices choices) ->
  forallb isinstance_number vals = true.
Proof.
  destruct spec as [c|low high step|low high n step|low high n]; cbn;
    intros H N.
  - now destruct (N c).
  - destruct (py_range low (high + 1) (default 1%Z step)); [|discriminate].
    cbn in H. injection H as <-. now apply forallb_map.
  - destruct (np_linspace low high (default 10%Z n)); [|discriminate].
    cbn in H. injection H as <-. now apply forallb_map.
  - destruct (np_linspace low high (default 10%Z n)); [|discriminate].
    cbn in H. injection H as <-. now apply forallb_map.
Qed.

(** C7 (amended).  [optimize_de] encodes the parameters in the order of the
    configuration.  A parameter whose grid values are not all numbers (a
    choices list with a non-number) gets the bounds [(0, len(choices)-1)],
    and its component of a vector decodes to the choice at the nearest index
    clipped into that range, a member of the choices list.  A parameter
    whose grid values are all numbers (an integer or real spec, and also a
    choices list of numbers) gets the bounds [(min, max)] of its grid
    values, and its component decodes to the rounded integer when all grid
    values are ints and to the component itself otherwise. *)
Theorem de_encoding_of_param_config (cls : StrategyClass)
    (config : dict param_spec) (self : Optimizer) (enc : de_encoding) :
  cls_param_config cls = Some config ->
  NoDup (map fst config) ->
  Optimizer_init cls = Ok self ->
  de_encode (param_grid self) = Ok enc ->
  de_keys enc = map fst config /\
  forall i name spec,
    nth_error config i = Some (name, spec) ->
    exists vals,
      spec_grid spec = Ok vals /\
      nth_error (param_grid self) i = Some (name, vals) /\
      ((forall choices, spec <> Choices choices) ->
       forallb isinstance_number vals = true) /\
      (forallb isinstance_number vals = false ->
       nth_error (de_bounds enc) i
       = Some (PInt 0, PInt (Z.of_nat (length vals) - 1)) /\
       nth_error (de_int_flags enc) i = Some true /\
       forall q flag, exists v,
         decode_cell (de_cat_map enc) (Fin q) name flag = Ok v /\
         nth_error vals (clipped_index q (length vals)) = Some v /\
         In v vals) /\
      (forallb isinstance_number vals = true ->
       (exists low high,
          py_min vals = Ok low /\ py_max vals = Ok high /\
          nth_error (de_bounds enc) i = Some (low, high)) /\
       nth_error (de_int_flags enc) i
       = Some (forallb isinstance_int vals) /\
       forall xi,
         decode_cell (de_cat_map enc) xi name (forallb isinstance_int vals)
         = if forallb isinstance_int vals
           then r <- py_round xi ;; Ok (PInt r)
           else Ok (PFloat xi)) /\
      (forall x kw xi,
         decode enc x = Ok kw -> nth_error x i = Some xi ->
         exists v flag,
           nth_error (de_int_flags enc) i = Some flag /\
           decode_cell (de_cat_map enc) xi name flag = Ok v /\
           lookup kw name = Some v).
Proof.
  intros Hc N Hinit Henc. unfold Optimizer_init in Hinit. rewrite Hc in Hinit.
  destruct (build_grid config []) as [grid|] eqn:Hg; [|discriminate].
  cbn [bind] in Hinit. injection Hinit as <-. cbn [param_grid] in *.
  destruct (@build_grid_spec config [] grid N Hg) as (vs & Hm & ->).
  cbn [app] in *.
  pose proof (mapM_length _ _ Hm) as Lv.
  assert (Hkeys : map fst (combine (map fst config) vs) = map fst config).
  { apply map_fst_combine. now rewrite length_map. }
  assert (Ng : NoDup (map fst (combine (map fst config) vs)))
    by now rewrite Hkeys.
  split.
  - destruct config as [|[n0 s0] config'].
    + cbn in Hm. injection Hm as <-. cbn in Henc. now injection Henc as <-.
    + destruct vs as [|v0 vs']; [cbn in Lv; lia|].
      destruct (@de_encode_entry _ enc 0 n0 v0 Ng Henc eq_refl) as [E _].
      now rewrite E.
  - intros i name spec Hi.
    destruct (@mapM_nth_error _ _ _ _ _ _ _ Hm Hi) as (vals & Ev & Hv).
    cbn [snd] in Ev. exists vals.
    assert (Hgi : nth_error (combine (map fst config) vs) i
                  = Some (name, vals)).
    { apply nth_error_combine; [|assumption].
      now apply nth_error_map_fst with (b := spec). }
    destruct (@de_encode_entry _ enc i name vals Ng Henc Hgi)
      as (_ & H1 & H2 & H3).
    split; [assumption|]. split; [assumption|].
    split; [now apply spec_grid_numeric|].
    split; [assumption|]. split; assumption.
Qed.

Lemma de_encoding_of_param_config_witness :
  NoDup (map fst mixed_config) /\
  exists self enc,
    Optimizer_init (example_cls mixed_config) = Ok self /\
    de_encode (param_grid self) = Ok enc /\
    de_keys enc = map fst mixed_config.
Proof.
  assert (N : NoDup (map fst mixed_config)).
  { cbn. repeat constructor; cbn; intuition discriminate. }
  split; [exact N|]. eexists. eexists.
  split; [reflexivity|]. split; [reflexivity|].
  exact (proj1 (@de_encoding_of_param_config (example_cls mixed_config)
                  mixed_config _ _ eq_refl N eq_refl eq_refl)).
Defined.

(** C7 (as stated, refuted).  A categorical spec with the choices
    [5, 10, 20] is encoded with the bounds [(5, 20)], not [(0, 2)], and the
    component 7 decodes to 7, which is not one of the choices; an integer
    spec with bounds [(1, 10)] and step 4 is encoded with the bounds
    [(1, 9)] of its grid [1, 5, 9]. *)
Lemma de_numeric_choices_counterexample :
  (exists self enc,
     Optimizer_init (example_cls window_config) = Ok self /\
     de_encode (param_grid self) = Ok enc /\
     de_bounds enc = [(PInt 5, PInt 20)] /\
     de_bounds enc <> [(PInt 0, PInt 2)] /\
     decode enc [FZ 7] = Ok [("window"%string, PInt 7)] /\
     ~ In (PInt 7) [PInt 5; PInt 10; PInt 20]) /\
  (exists self enc,
     Optimizer_init (example_cls stepped_config) = Ok self /\
     de_encode (param_grid self) = Ok enc /\
     de_bounds enc = [(PInt 1, PInt 9)] /\
     de_bounds enc <> [(PInt 1, PInt 10)]).
Proof.
  split.
  - eexists. eexists. split; [reflexivity|]. split; [reflexivity|].
    split; [reflexivity|]. split; [discriminate|].
    split; [reflexivity|]. cbn. intuition discriminate.
  - eexists. eexists. split; [reflexivity|]. split; [reflexivity|].
    split; [reflexivity|]. discriminate.
Qed.

(** ** Sorting *)

Section InsertionArgsort.
Variable before_equal : bool.
Variable ks : list float.
Hypothesis ks_valid : Forall (fun k => isnan k = false) ks.

Let key (i : nat) : float := nth i ks NaN.
Let n : nat := length ks.

Lemma key_valid (i : nat) : i < n -> isnan (key i) = false.
Proof.
  intros H. unfold key. rewrite Forall_forall in ks_valid.
  apply ks_valid. now apply nth_In.
Qed.

Lemma insert_idx_perm (i : nat) (l : list nat) :
  Permutation (insert_idx before_equal ks i l) (i :: l).
Proof.
  induction l as [|j r IH]; cbn; [reflexivity|].
  destruct (if before_equal then _ else _); [reflexivity|].
  rewrite IH. apply perm_swap.
Qed.

Lemma insert_idx_in (i x : nat) (l : list nat) :
  In x (insert_idx before_equal ks i l) -> x = i \/ In x l.
Proof.
  intros H. apply (Permutation_in _ (insert_idx_perm i l)) in H.
  destruct H as [H|H]; auto.
Qed.

Lemma insert_idx_sorted (i : nat) (l : list nat) :
  i < n -> Forall (fun j => j < n) l ->
  StronglySorted (fun a b => fleb (key a) (key b) = true) l ->
  StronglySorted (fun a b => fleb (key a) (key b) = true)
    (insert_idx before_equal ks i l).
Proof.
  intros Hi Hl S. induction S as [|j r S IH F]; cbn.
  - repeat constructor.
  - inversion_clear Hl as [|? ? Hj Hr]. fold (key i) (key j).
    destruct (if before_equal then fleb (key i) (key j)
              else fltb (key i) (key j)) eqn:C.
    + assert (Lij : fleb (key i) (key j) = true)
        by (destruct before_equal; [assumption|now apply fltb_fleb]).
      constructor; [now constructor|].
      constructor; [assumption|].
      rewrite Forall_forall in *. intros x Hx.
      apply (fleb_trans _ _ _ Lij). now apply F.
    + assert (Lji : fleb (key j) (key i) = true).
      { destruct before_equal.
        - apply fltb_fleb, fleb_false_fltb; auto using key_valid.
        - apply fltb_false_fleb; auto using key_valid. }
      constructor; [now apply IH|].
      rewrite Forall_forall in *. intros x Hx.
      apply insert_idx_in in Hx. destruct Hx as [->|Hx]; [assumption|].
      now apply F.
Qed.

Lemma insertion_fold_perm (l : list nat) :
  Permutation (fold_right (insert_idx before_equal ks) [] l) l.
Proof.
  induction l as [|i l IH]; cbn; [reflexivity|].
  rewrite insert_idx_perm. now constructor.
Qed.

Lemma insertion_fold_sorted (l : list nat) :
  Forall (fun j => j < n) l ->
  StronglySorted (fun a b => fleb (key a) (key b) = true)
    (fold_right (insert_idx before_equal ks) [] l).
Proof.
  intros H. induction H as [|i l Hi Hl IH]; cbn; [constructor|].
  apply insert_idx_sorted; [assumption| |assumption].
  rewrite Forall_forall in *. intros x Hx.
  apply Hl. apply (Permutation_in _ (insertion_fold_perm l)). exact Hx.
Qed.
End InsertionArgsort.

Lemma seq_below (len : nat) : Forall (fun j => j < len) (seq 0 len).
Proof. apply Forall_forall. intros x Hx. apply in_seq in Hx. lia. Qed.

Lemma insertion_argsort_sorts (before_equal : bool) :
  argsort_sorts (insertion_argsort before_equal).
Proof.
  intros ks Hk. unfold insertion_argsort. split.
  - apply insertion_fold_perm.
  - apply insertion_fold_sorted; [assumption|apply seq_below].
Qed.

Section StableInsertion.
Variable ks : list float.
Hypothesis ks_valid : Forall (fun k => isnan k = false) ks.

Let key (i : nat) : float := nth i ks NaN.
Let n : nat := length ks.
Let before (i j : nat) : Prop :=
  fltb (key i) (key j) = true \/ (feqb (key i) (key j) = true /\ i < j).

Lemma before_trans_le (i j x : nat) :
  fleb (key i) (key j) = true -> i < x -> before j x -> before i x.
Proof.
  unfold before, fleb. rewrite orb_true_iff.
  intros [L|E] Hix [L'|[E' _]].
  - left. eapply fltb_trans; eassumption.
  - left. eapply fltb_feqb_trans; eassumption.
  - left. eapply feqb_fltb_trans; eassumption.
  - right. split; [eapply feqb_trans; eassumption|assumption].
Qed.

Lemma insert_idx_stable (i : nat) (l : list nat) :
  i < n -> Forall (fun j => i < j /\ j < n) l ->
  StronglySorted before l ->
  StronglySorted before (insert_idx true ks i l).
Proof.
  intros Hi Hl S. induction S as [|j r S IH F]; cbn.
  - repeat constructor.
  - inversion_clear Hl as [|? ? [Hij Hj] Hr]. fold (key i) (key j).
    destruct (fleb (key i) (key j)) eqn:C.
    + constructor; [now constructor|].
      rewrite Forall_forall in F, Hr |- *. intros y [<-|Hy].
      * unfold before, fleb in *. apply orb_true_iff in C.
        destruct C as [C|C]; auto.
      * apply (@before_trans_le i j y C); [apply Hr, Hy|now apply F].
    + constructor; [now apply IH|].
      rewrite Forall_forall in F |- *. intros y Hy.
      apply insert_idx_in in Hy. destruct Hy as [->|Hy]; [|now apply F].
      left. apply fleb_false_fltb;
        [exact (key_valid ks_valid Hi)|exact (key_valid ks_valid Hj)
        |exact C].
Qed.

Lemma insertion_fold_stable (start len : nat) :
  start + len <= n ->
  StronglySorted before
    (fold_right (insert_idx true ks) [] (seq start len)).
Proof.
  revert start. induction len as [|len IH]; intros start H; cbn;
    [constructor|].
  apply insert_idx_stable; [lia| |apply IH; lia].
  apply Forall_forall. intros x Hx.
  apply (Permutation_in _ (insertion_fold_perm true ks _)) in Hx.
  apply in_seq in Hx. lia.
Qed.
End StableInsertion.

Lemma insertion_argsort_stable : argsort_stable (insertion_argsort true).
Proof.
  intros ks Hk. unfold insertion_argsort.
  apply insertion_fold_stable; [assumption|lia].
Qed.

(** ** optimize_grid *)

Lemma mapM_ok {A B} (f : A -> result B) (l : list A) :
  Forall (fun a => exists b, f a = Ok b) l -> exists bs, mapM f l = Ok bs.
Proof.
  intros H. induction H as [|a l [b Hb] _ [bs IH]]; cbn.
  - now exists [].
  - rewrite Hb, IH. cbn. now exists (b :: bs).
Qed.

Section Nargsort.
Variable argsort : list float -> list nat.
Hypothesis argsort_ok : argsort_sorts argsort.
Variable keys : list float.

Let key (i : nat) : float := nth i keys NaN.
Let n : nat := length keys.
Let valid_idx : list nat :=
  filter (fun i => negb (isnan (nth i keys NaN))) (seq 0 n).
Let nan_idx : list nat :=
  filter (fun i => isnan (nth i keys NaN)) (seq 0 n).
Let vals_r : list float := rev (map (fun i => nth i keys NaN) valid_idx).
Let pick (j : nat) : nat := nth j (rev valid_idx) O.

Lemma vals_r_valid : Forall (fun k => isnan k = false) vals_r.
Proof.
  apply Forall_forall. intros k Hk. unfold vals_r in Hk.
  apply in_rev, in_map_iff in Hk. destruct Hk as (i & <- & Hi).
  apply filter_In in Hi. destruct Hi as [_ Hi].
  now destruct (isnan (nth i keys NaN)).
Qed.

Lemma length_vals_r : length vals_r = length valid_idx.
Proof. unfold vals_r. now rewrite length_rev, length_map. Qed.

Lemma vals_r_pick (j : nat) :
  j < length valid_idx -> nth j vals_r NaN = key (pick j).
Proof.
  intros H. unfold vals_r, pick, key. rewrite <- map_rev.
  rewrite (nth_indep _ NaN (nth O keys NaN))
    by now rewrite length_map, length_rev.
  apply (map_nth (fun i => nth i keys NaN)).
Qed.

Lemma argsort_below (j : nat) :
  In j (argsort vals_r) -> j < length valid_idx.
Proof.
  intros H. destruct (argsort_ok vals_r_valid) as [P _].
  apply (Permutation_in _ P) in H. apply in_seq in H.
  rewrite length_vals_r in H. lia.
Qed.

Lemma indexer_perm :
  Permutation (rev (map pick (argsort vals_r))) valid_idx.
Proof.
  destruct (argsort_ok vals_r_valid) as [P _].
  rewrite <- Permutation_rev. rewrite (Permutation_map pick P).
  rewrite length_vals_r, <- (length_rev valid_idx).
  unfold pick. rewrite map_nth_seq. apply Permutation_sym, Permutation_rev.
Qed.

Lemma nargsort_desc_perm :
  Permutation (nargsort_desc argsort keys) (seq 0 (length keys)).
Proof.
  unfold nargsort_desc. fold n valid_idx nan_idx vals_r.
  change (map (fun j => nth j (rev valid_idx) O) (argsort vals_r))
    with (map pick (argsort vals_r)).
  rewrite indexer_perm. unfold valid_idx, nan_idx.
  rewrite (filter_ext (fun i => isnan (nth i keys NaN))
             (fun i => negb (negb (isnan (nth i keys NaN)))))
    by (intros; now rewrite negb_involutive).
  apply (filter_partition_perm
           (fun i => negb (isnan (nth i keys NaN))) (seq 0 n)).
Qed.

Lemma valid_idx_increasing : StronglySorted lt valid_idx.
Proof. apply SS_filter, SS_seq. Qed.

Lemma pick_decreasing (a b : nat) :
  a < b -> b < length valid_idx -> pick b < pick a.
Proof.
  intros Hab Hb. unfold pick.
  apply (@SS_nth _ (fun x y => y < x) (rev valid_idx) O a b);
    [apply SS_rev, valid_idx_increasing|assumption|].
  now rewrite length_rev.
Qed.

(** the outcome of [nargsort]: the positions of the valid keys in descending
    order of the keys, then the positions of the NaN keys in their own
    order; with a stable [argsort], equal keys keep the order of their
    positions *)
Lemma nargsort_desc_spec :
  exists valid missing,
    nargsort_desc argsort keys = valid ++ missing /\
    Forall (fun i => isnan (key i) = false) valid /\
    StronglySorted (fun i j => fleb (key j) (key i) = true) valid /\
    Forall (fun i => isnan (key i) = true) missing /\
    StronglySorted lt missing /\
    (argsort_stable argsort ->
     StronglySorted
       (fun i j =>
          fltb (key j) (key i) = true \/
          (feqb (key j) (key i) = true /\ i < j)) valid).
Proof.
  exists (rev (map pick (argsort vals_r))), nan_idx.
  destruct (argsort_ok vals_r_valid) as [P S].
  split; [reflexivity|]. split; [|split; [|split; [|split]]].
  - apply Forall_forall. intros i Hi.
    apply (Permutation_in _ indexer_perm) in Hi.
    apply filter_In in Hi. destruct Hi as [_ Hi]. unfold key.
    now destruct (isnan (nth i keys NaN)).
  - apply (@SS_rev _ (fun i j => fleb (key i) (key j) = true)).
    apply SS_map. revert S. apply SS_weaken.
    intros a b Ha Hb. apply argsort_below in Ha, Hb.
    now rewrite !vals_r_pick.
  - apply Forall_forall. intros i Hi. apply filter_In in Hi. apply Hi.
  - apply SS_filter, SS_seq.
  - intros St. specialize (St vals_r vals_r_valid).
    apply (@SS_rev _ (fun i j =>
             fltb (key i) (key j) = true \/
             (feqb (key i) (key j) = true /\ j < i))).
    apply SS_map. revert St. apply SS_weaken.
    intros a b Ha Hb. apply argsort_below in Ha, Hb.
    rewrite !vals_r_pick by assumption.
    intros [L|[E Lt]]; [now left|right].
    split; [assumption|now apply pick_decreasing].
Qed.
End Nargsort.

Section OptimizeGrid.
Variable pad : bool.
Variable sqrt : float -> float.
Variable pow : float -> float -> float.
Variable argsort : list float -> list nat.

(** C4 (amended).  When [argsort] sorts, and at least one candidate
    succeeds and the metric is a numeric column, [optimize_grid] returns the
    records of the successful candidates (taken in enumeration order)
    rearranged: first the rows whose metric is not NaN, in descending order
    of the metric, then the rows whose metric is NaN, in enumeration order.
    Rows with equal metric keep their enumeration order when [argsort] is
    stable; the default sort kind does not promise it. *)
Theorem optimize_grid_sorted_descending (self : Optimizer)
    (data : DataFrame) (metric : string) :
  argsort_sorts argsort ->
  grid_records pad sqrt pow self data <> [] ->
  Forall (fun r => exists x, sort_key metric r = Ok x)
    (grid_records pad sqrt pow self data) ->
  exists table keys valid missing,
    optimize_grid pad sqrt pow argsort self data metric = Ok table /\
    mapM (sort_key metric) (grid_records pad sqrt pow self data) = Ok keys /\
    table
    = map (fun i => nth i (grid_records pad sqrt pow self data) [])
          (valid ++ missing) /\
    Permutation table (grid_records pad sqrt pow self data) /\
    Forall (fun i => isnan (nth i keys NaN) = false) valid /\
    StronglySorted
      (fun i j => fleb (nth j keys NaN) (nth i keys NaN) = true) valid /\
    Forall (fun i => isnan (nth i keys NaN) = true) missing /\
    StronglySorted lt missing /\
    (argsort_stable argsort ->
     StronglySorted
       (fun i j =>
          fltb (nth j keys NaN) (nth i keys NaN) = true \/
          (feqb (nth j keys NaN) (nth i keys NaN) = true /\ i < j))
       valid).
Proof.
  intros Hsort Hne Hkeys.
  destruct (mapM_ok _ Hkeys) as [keys Hm].
  destruct (nargsort_desc_spec Hsort keys)
    as (valid & missing & E & Hv & Sv & Hn & Sn & St).
  exists (map (fun i => nth i (grid_records pad sqrt pow self data) [])
            (valid ++ missing)), keys, valid, missing.
  split; [|split; [assumption|split; [reflexivity|split]]].
  - unfold optimize_grid.
    destruct (grid_records pad sqrt pow self data) as [|r0 rs] eqn:R;
      [congruence|].
    unfold sort_values_desc. rewrite Hm. cbn [bind]. now rewrite E.
  - rewrite <- E.
    rewrite (Permutation_map _ (nargsort_desc_perm Hsort keys)).
    rewrite (mapM_length _ _ Hm). now rewrite map_nth_seq.
  - repeat split; assumption.
Qed.
End OptimizeGrid.

Lemma optimize_grid_sorted_descending_witness :
  argsort_sorts (insertion_argsort true) /\
  exists table keys valid missing,
    optimize_grid true sqrt_approx pow_approx (insertion_argsort true)
      two_k_optimizer example_data "Total Return" = Ok table /\
    mapM (sort_key "Total Return")
      (grid_records true sqrt_approx pow_approx two_k_optimizer
         example_data) = Ok keys /\
    table
    = map (fun i =>
             nth i (grid_records true sqrt_approx pow_approx
                      two_k_optimizer example_data) [])
          (valid ++ missing) /\
    Permutation table
      (grid_records true sqrt_approx pow_approx two_k_optimizer
         example_data) /\
    Forall (fun i => isnan (nth i keys NaN) = false) valid /\
    StronglySorted
      (fun i j => fleb (nth j keys NaN) (nth i keys NaN) = true) valid /\
    Forall (fun i => isnan (nth i keys NaN) = true) missing /\
    StronglySorted lt missing /\
    (argsort_stable (insertion_argsort true) ->
     StronglySorted
       (fun i j =>
          fltb (nth j keys NaN) (nth i keys NaN) = true \/
          (feqb (nth j keys NaN) (nth i keys NaN) = true /\ i < j))
       valid).
Proof.
  split; [apply insertion_argsort_sorts|].
  apply (@optimize_grid_sorted_descending true sqrt_approx pow_approx
           (insertion_argsort true) two_k_optimizer example_data
           "Total Return"%string (insertion_argsort_sorts true)).
  - intros E. vm_compute in E. discriminate E.
  - constructor; [eexists; reflexivity|].
    constructor; [eexists; reflexivity|]. constructor.
Defined.

(** C4 (as stated, refuted).  Eight candidates, [k = 1] to [k = 8], in
    that enumeration order: the candidates 5 to 8 tie on the best total
    return, 0.21, and the candidates 1 to 4 tie on the total return 0, so
    the claim prescribes the table order 5, 6, 7, 8, 1, 2, 3, 4.  Sorted by
    numpy's vector argsort the tied candidates do not keep their
    enumeration order: the table is another one (the network exchanges the
    two halves of the register lane by lane and leaves both groups
    reversed). *)
Lemma optimize_grid_eight_rows_counterexample :
  Optimizer_init threshold_cls = Ok eight_k_optimizer /\
  map (fun r => lookup r "k")
    (grid_records true sqrt_approx pow_approx eight_k_optimizer
       example_data)
  = [Some (PInt 1); Some (PInt 2); Some (PInt 3); Some (PInt 4);
     Some (PInt 5); Some (PInt 6); Some (PInt 7); Some (PInt 8)] /\
  map (sort_key "Total Return")
    (grid_records true sqrt_approx pow_approx eight_k_optimizer
       example_data)
  = [Ok f0; Ok f0; Ok f0; Ok f0;
     Ok (FQ 21 100); Ok (FQ 21 100); Ok (FQ 21 100); Ok (FQ 21 100)] /\
  exists table,
    optimize_grid true sqrt_approx pow_approx avx512_argsort
      eight_k_optimizer example_data "Total Return" = Ok table /\
    map (sort_key "Total Return") table
    = [Ok (FQ 21 100); Ok (FQ 21 100); Ok (FQ 21 100); Ok (FQ 21 100);
       Ok f0; Ok f0; Ok f0; Ok f0] /\
    map (fun r => lookup r "k") table
    <> [Some (PInt 5); Some (PInt 6); Some (PInt 7); Some (PInt 8);
        Some (PInt 1); Some (PInt 2); Some (PInt 3); Some (PInt 4)].
Proof.
  split; [reflexivity|]. split; [reflexivity|].
  split; [vm_compute; repeat f_equal; apply Qc_is_canon; reflexivity|].
  eexists. split; [reflexivity|].
  split; [vm_compute; repeat f_equal; apply Qc_is_canon; reflexivity|].
  vm_compute. intros E. discriminate E.
Qed.

(** ** The Sharpe ratio over binary64 *)

Section SharpeBinary64.
Variable sum64 : list f64 -> f64.
Variable mean64 : list f64 -> f64.
Variable std64 : list f64 -> f64.
Variable pow64 : f64 -> f64 -> f64.

Lemma summary64_ok (equity returns : list f64) :
  equity <> [] ->
  exists s,
    summary64 sum64 mean64 std64 pow64
      (PerformanceAnalyzer64_init equity returns) = Ok s.
Proof.
  intros H. destruct equity as [|e r]; [congruence|].
  unfold summary64. cbn [pa64_equity PerformanceAnalyzer64_init iloc_last64
                         iloc_first64 bind].
  eexists. reflexivity.
Qed.

(** C6 (amended).  On a non-empty equity curve [summary] returns normally
    for every returns series.  Its Sharpe metric is NaN when the standard
    deviation that [returns.std()] computes over the non-NaN returns is
    exactly zero, and [mean(returns) / stdev(returns) * sqrt(252)] with the
    computed mean and standard deviation in every other case (a computed
    standard deviation of NaN included, as below two valid returns). *)
Theorem sharpe_nan_on_zero_computed_std (equity returns : list f64) :
  equity <> [] ->
  exists s,
    summary64 sum64 mean64 std64 pow64
      (PerformanceAnalyzer64_init equity returns) = Ok s /\
    (PrimFloat.eqb (std64 (dropna64 returns)) PrimFloat.zero = true ->
     sharpe64 s = PrimFloat.nan) /\
    (PrimFloat.eqb (std64 (dropna64 returns)) PrimFloat.zero = false ->
     sharpe64 s
     = PrimFloat.mul
         (PrimFloat.div (mean64 (dropna64 returns))
            (std64 (dropna64 returns)))
         (PrimFloat.sqrt (of_nat64 252))).
Proof.
  intros Hne. destruct equity as [|e r]; [congruence|].
  unfold summary64. cbn [pa64_equity pa64_returns PerformanceAnalyzer64_init
                         iloc_last64 iloc_first64 bind].
  eexists. split; [reflexivity|]. cbn [sharpe64]. unfold truthy64.
  split; intros Hz; rewrite Hz; reflexivity.
Qed.
End SharpeBinary64.

Lemma sharpe_nan_on_zero_computed_std_witness :
  [of_Z64 100; of_Z64 100; of_Z64 100] <> [] /\
  PrimFloat.eqb (pandas_std64 (dropna64 [half64; PrimFloat.nan; half64; half64]))
    PrimFloat.zero = true /\
  exists s,
    summary64 np_sum64 pandas_mean64 pandas_std64 pow64_approx
      (PerformanceAnalyzer64_init [of_Z64 100; of_Z64 100; of_Z64 100]
         [half64; PrimFloat.nan; half64; half64]) = Ok s /\
    sharpe64 s = PrimFloat.nan.
Proof.
  assert (N : [of_Z64 100; of_Z64 100; of_Z64 100] <> []) by discriminate.
  assert (Z : PrimFloat.eqb
                (pandas_std64
                   (dropna64 [half64; PrimFloat.nan; half64; half64]))
                PrimFloat.zero = true) by (vm_compute; reflexivity).
  split; [exact N|]. split; [exact Z|].
  destruct (@sharpe_nan_on_zero_computed_std np_sum64 pandas_mean64
              pandas_std64 pow64_approx
              [of_Z64 100; of_Z64 100; of_Z64 100]
              [half64; PrimFloat.nan; half64; half64] N)
    as (s & Hs & Hzero & _).
  exists s. split; [exact Hs|]. exact (Hzero Z).
Defined.

(** C6 (as stated, refuted).  The returns 0.1, 0.1, 0.1 are constant, so
    their standard deviation is zero; the sum pandas computes is
    0.30000000000000004, the mean 0.10000000000000002, and the standard
    deviation it computes from them is about 1.7e-17, not zero: the guard
    passes and the Sharpe metric is the number 9.34e16, not NaN. *)
(** C6 (as stated, refuted).  The returns 0.1, 0.1, 0.1 are constant, so
    their standard deviation is zero; the sum pandas computes is
    0.30000000000000004, the mean 0.10000000000000002, and the standard
    deviation it computes from them is about 1.7e-17, not zero: the guard
    passes and the Sharpe metric is the number 93397316462190256, about
    9.34e16, not NaN. *)
Lemma sharpe_constant_returns_counterexample :
  Forall (fun x => x = tenth64) [tenth64; tenth64; tenth64] /\
  PrimFloat.eqb (pandas_std64 (dropna64 [tenth64; tenth64; tenth64]))
    PrimFloat.zero = false /\
  PrimFloat.ltb (PrimFloat.div (of_Z64 1) (of_Z64 (10 ^ 17)))
    (pandas_std64 (dropna64 [tenth64; tenth64; tenth64])) = true /\
  PrimFloat.ltb (pandas_std64 (dropna64 [tenth64; tenth64; tenth64]))
    (PrimFloat.div (of_Z64 2) (of_Z64 (10 ^ 17))) = true /\
  exists s,
    summary64 np_sum64 pandas_mean64 pandas_std64 pow64_approx
      (PerformanceAnalyzer64_init [of_Z64 100; of_Z64 110; of_Z64 121]
         [tenth64; tenth64; tenth64]) = Ok s /\
    PrimFloat.is_nan (sharpe64 s) = false /\
    sharpe64 s = of_Z64 93397316462190256.
Proof.
  split; [repeat constructor|].
  split; [vm_compute; reflexivity|].
  split; [vm_compute; reflexivity|].
  split; [vm_compute; reflexivity|].
  eexists. split; [reflexivity|].
  split; vm_compute; reflexivity.
Qed.

(** * Further properties *)

(** ** The grids built by Optimizer.__init__ *)

Lemma py_range_pos_in (start stop step v : Z) (l : list Z) :
  (0 < step)%Z -> py_range start stop step = Ok l ->
  In v l <->
  (start <= v < stop)%Z /\ ((v - start) mod step = 0)%Z.
Proof.
  intros Hs H. unfold py_range in H.
  destruct step as [|p|p]; try lia. injection H as <-.
  rewrite in_map_iff. split.
  - intros (i & <- & Hi). apply in_seq in Hi.
    destruct (start <? stop)%Z eqn:E; [|cbn in Hi; lia].
    apply Z.ltb_lt in E.
    assert (Hd : (0 <= (stop - start - 1) / Z.pos p)%Z)
      by (apply Z.div_pos; lia).
    assert (Hm : (Z.pos p * ((stop - start - 1) / Z.pos p)
                  <= stop - start - 1)%Z)
      by (apply Z.mul_div_le; lia).
    split; [nia|].
    replace (start + Z.of_nat i * Z.pos p - start)%Z
      with (Z.of_nat i * Z.pos p)%Z by lia.
    apply Z.mod_mul. lia.
  - intros [[Hlo Hhi] Hmod].
    assert (E : (start <? stop)%Z = true) by (apply Z.ltb_lt; lia).
    rewrite E.
    apply Z.mod_divide in Hmod; [|lia]. destruct Hmod as [k Hk].
    assert (Hk0 : (0 <= k)%Z) by nia.
    exists (Z.to_nat k). split; [rewrite Z2Nat.id by lia; lia|].
    apply in_seq. split; [lia|]. cbn [plus].
    assert (Hle : (k <= (stop - start - 1) / Z.pos p)%Z)
      by (apply Z.div_le_lower_bound; lia).
    lia.
Qed.

Lemma py_range_pos_sorted (start stop step : Z) (l : list Z) :
  (0 < step)%Z -> py_range start stop step = Ok l ->
  StronglySorted Z.lt l.
Proof.
  intros Hs H. unfold py_range in H.
  destruct step as [|p|p]; try lia. injection H as <-.
  apply SS_map. generalize (SS_seq 0
    (Z.to_nat (if (start <? stop)%Z
               then ((stop - start - 1) / Z.pos p + 1)%Z else 0%Z))).
  apply SS_weaken. intros a b _ _ Hab. nia.
Qed.

(** X1.  An integer entry with bounds [(low, high)] and a positive step
    (1 when none is given) has for grid exactly the integers [low],
    [low + step], ... that do not exceed [high], each once and in
    increasing order. *)
Theorem int_grid_values (low high : Z) (step : option Z)
    (vals : list pyval) :
  (0 < default 1%Z step)%Z ->
  spec_grid (IntSpec low high step) = Ok vals ->
  exists zs,
    vals = map PInt zs /\
    StronglySorted Z.lt zs /\
    forall v,
      In v zs <->
      (low <= v <= high)%Z /\ ((v - low) mod default 1%Z step = 0)%Z.
Proof.
  intros Hs H. cbn [spec_grid] in H.
  destruct (py_range low (high + 1) (default 1%Z step)) as [zs|] eqn:E;
    [|discriminate].
  cbn [bind] in H. injection H as <-. exists zs.
  split; [reflexivity|]. split; [now apply (@py_range_pos_sorted _ _ _ _ Hs E)|].
  intros v. rewrite (@py_range_pos_in _ _ _ v _ Hs E). lia.
Qed.

Lemma int_grid_values_witness :
  (0 < default 1%Z (Some 4%Z))%Z /\
  exists zs,
    [PInt 1; PInt 5; PInt 9] = map PInt zs /\
    StronglySorted Z.lt zs /\
    forall v,
      In v zs <->
      (1 <= v <= 10)%Z /\ ((v - 1) mod default 1%Z (Some 4%Z) = 0)%Z.
Proof.
  split; [reflexivity|].
  apply (@int_grid_values 1 10 (Some 4%Z) [PInt 1; PInt 5; PInt 9]);
    reflexivity.
Defined.

Lemma np_linspace_ok_iff (low high : float) (n : Z) :
  (exists xs, np_linspace low high n = Ok xs) <-> (0 <= n)%Z.
Proof.
  unfold np_linspace. destruct n as [|p|p].
  - split; [lia|eauto].
  - split; [lia|]. intros _. destruct (Z.pos p =? 1)%Z; eauto.
  - split; [|lia]. intros [xs H]. discriminate.
Qed.

Lemma py_range_ok_iff (start stop step : Z) :
  (exists zs, py_range start stop step = Ok zs) <-> step <> 0%Z.
Proof.
  unfold py_range. destruct step as [|p|p].
  - split; [|congruence]. intros [zs H]. discriminate.
  - split; [discriminate|eauto].
  - split; [discriminate|eauto].
Qed.

Lemma bind_ok_iff {A B} (r : result A) (f : A -> B) :
  (exists b, (a <- r ;; Ok (f a)) = Ok b) <-> (exists a, r = Ok a).
Proof.
  destruct r as [a|e]; cbn; split; eauto.
  - intros [b H]. discriminate.
  - intros [a H]. discriminate.
Qed.

Lemma spec_grid_ok_iff (spec : param_spec) :
  (exists vals, spec_grid spec = Ok vals) <-> spec_builds spec.
Proof.
  destruct spec as [c|low high step|low high n st|low high n];
    cbn [spec_grid spec_builds].
  - split; [trivial|]. intros _. now exists c.
  - rewrite bind_ok_iff. apply py_range_ok_iff.
  - rewrite bind_ok_iff. apply np_linspace_ok_iff.
  - rewrite bind_ok_iff. apply np_linspace_ok_iff.
Qed.

Lemma build_grid_ok_iff (config : dict param_spec)
    (grid0 : dict (list pyval)) :
  (exists grid, build_grid config grid0 = Ok grid) <->
  Forall (fun ns => spec_builds (snd ns)) config.
Proof.
  revert grid0. induction config as [|[name spec] config IH]; intros grid0.
  - cbn. split; [constructor|]. intros _. now exists grid0.
  - cbn [build_grid]. split.
    + intros [grid H].
      destruct (spec_grid spec) as [vals|] eqn:E; [|discriminate].
      cbn [bind] in H. constructor.
      * apply spec_grid_ok_iff. now exists vals.
      * apply (IH (dict_set grid0 name vals)). now exists grid.
    + intros H. inversion_clear H as [|? ? Hs Hr]. cbn [snd] in Hs.
      apply spec_grid_ok_iff in Hs. destruct Hs as [vals ->].
      cbn [bind]. now apply IH.
Qed.

(** X2.  For a [param_config] made of choice lists and typed entries with
    bounds, [Optimizer.__init__] succeeds exactly when no integer entry has
    step 0 and no other entry has a negative sample count; the grid then has
    one entry per parameter, in the order of the configuration. *)
Theorem Optimizer_init_succeeds_iff (cls : StrategyClass) :
  ((exists self, Optimizer_init cls = Ok self) <->
   exists config,
     cls_param_config cls = Some config /\
     Forall (fun ns => spec_builds (snd ns)) config) /\
  (forall self config,
     Optimizer_init cls = Ok self ->
     cls_param_config cls = Some config ->
     NoDup (map fst config) ->
     strategy_cls self = cls /\
     map fst (param_grid self) = map fst config).
Proof.
  unfold Optimizer_init. split.
  - destruct (cls_param_config cls) as [config|]; split.
    + intros [self H]. exists config. split; [reflexivity|].
      apply (build_grid_ok_iff config []).
      destruct (build_grid config []) as [g|]; [|discriminate]. now exists g.
    + intros (c & [= <-] & F).
      apply (build_grid_ok_iff config []) in F. destruct F as [g ->].
      cbn [bind]. eauto.
    + intros [self H]. discriminate.
    + intros (c & H & _). discriminate.
  - intros self config H Hc N. rewrite Hc in H.
    destruct (build_grid config []) as [g|] eqn:E; [|discriminate].
    cbn [bind] in H. injection H as <-. cbn [strategy_cls param_grid].
    split; [reflexivity|].
    destruct (@build_grid_spec config [] g N E) as (vs & Hm & ->).
    cbn [app]. apply map_fst_combine.
    rewrite length_map. symmetry. apply (mapM_length _ _ Hm).
Qed.

Lemma Ok_inj {A} (a b : A) : Ok a = Ok b -> a = b.
Proof. now intros [= ->]. Qed.

Lemma Qc_interpolate (l h : Qc) (i m : Z) :
  (l <= h)%Qc -> (0 <= i <= m)%Z -> (0 < m)%Z ->
  (l <= Q2Qc (inject_Z i) * ((h - l) / Q2Qc (inject_Z m)) + l)%Qc /\
  (Q2Qc (inject_Z i) * ((h - l) / Q2Qc (inject_Z m)) + l <= h)%Qc.
Proof.
  intros Hlh Hi Hm.
  unfold Qcle, Qcplus, Qcmult, Qcdiv, Qcminus, Qcinv, Qcopp, Qcplus,
    Qcmult in *.
  cbn [this Q2Qc] in *. rewrite !Qred_correct.
  set (L := this l) in *. set (U := this h) in *.
  assert (Hi1 : (0 <= inject_Z i)%Q) by (rewrite <- (Zle_Qle 0); lia).
  assert (Hi2 : (inject_Z i <= inject_Z m)%Q) by (rewrite <- Zle_Qle; lia).
  assert (Hm1 : (0 < inject_Z m)%Q) by (rewrite <- (Zlt_Qlt 0); lia).
  set (I := inject_Z i) in *. set (M := inject_Z m) in *.
  assert (E : (M * ((U + - L) * / M) == U + - L)%Q).
  { field. intros C. rewrite C in Hm1. now apply Qlt_irrefl in Hm1. }
  set (e := ((U + - L) * / M)%Q) in *.
  split; nra.
Qed.

(** the [i]-th sample of [np.linspace(l, h, m + 1)] before the last *)
Lemma linspace_sample (l h : Qc) (i m : Z) :
  (0 < m)%Z ->
  (FZ i * ((Fin h - Fin l) / FZ m) + Fin l)%flt
  = Fin (Q2Qc (inject_Z i) * ((h - l) / Q2Qc (inject_Z m)) + l)%Qc.
Proof.
  intros Hm. unfold FZ. cbn [fsub fneg fadd fdiv].
  rewrite (qsign_pos Hm). reflexivity.
Qed.

(** X3.  A real entry with finite bounds [(low, high)] and a sample count
    [n] of at least 2 (10 when none is given) has a grid of exactly [n]
    numpy floats that starts at [low] and ends at [high]; when
    [low <= high] every grid value lies between the bounds. *)
Theorem float_grid_values (low high : Qc) (n : option Z)
    (step : option float) (vals : list pyval) :
  (2 <= default 10%Z n)%Z ->
  spec_grid (FloatSpec (Fin low) (Fin high) n step) = Ok vals ->
  length vals = Z.to_nat (default 10%Z n) /\
  nth_error vals 0 = Some (NpFloat (Fin low)) /\
  last vals PNone = NpFloat (Fin high) /\
  Forall (fun v => exists x,
            v = NpFloat (Fin x) /\
            ((low <= high)%Qc -> (low <= x)%Qc /\ (x <= high)%Qc)) vals.
Proof.
  intros Hn H. cbn [spec_grid] in H. unfold np_linspace in H.
  destruct (default 10%Z n) as [|p|p] eqn:En; try lia.
  destruct (Z.pos p =? 1)%Z eqn:E1; [apply Z.eqb_eq in E1; lia|].
  remember (Z.pos p - 1)%Z as m eqn:Em in H.
  cbn [bind] in H. apply Ok_inj in H. subst vals.
  assert (Hm : (0 < m)%Z) by lia.
  split; [|split; [|split]].
  - rewrite length_map, length_app, length_map, length_seq.
    cbn [length]. lia.
  - destruct (Z.to_nat m) as [|k] eqn:Ek; [lia|].
    cbn [seq map app nth_error].
    change (Z.of_nat 0) with 0%Z. rewrite (linspace_sample low high 0 Hm).
    do 3 f_equal. change (Q2Qc (inject_Z 0)) with 0%Qc.
    rewrite Qcmult_0_l. apply Qcplus_0_l.
  - rewrite map_app. cbn [map]. apply last_last.
  - rewrite map_app. apply Forall_app. split.
    + apply Forall_forall. intros v Hv. rewrite map_map in Hv.
      apply in_map_iff in Hv. destruct Hv as (i & <- & Hi).
      apply in_seq in Hi. rewrite (linspace_sample low high _ Hm).
      eexists. split; [reflexivity|]. intros Hlh.
      apply Qc_interpolate; [assumption|lia|lia].
    + constructor; [|constructor]. exists high. split; [reflexivity|].
      intros Hlh. split; [assumption|apply Qcle_refl].
Qed.

Lemma float_grid_values_witness :
  (2 <= default 10%Z (Some 3%Z))%Z /\
  exists vals,
    spec_grid (FloatSpec (Fin 0%Qc) (Fin 1%Qc) (Some 3%Z) None) = Ok vals /\
    length vals = Z.to_nat (default 10%Z (Some 3%Z)) /\
    nth_error vals 0 = Some (NpFloat (Fin 0%Qc)) /\
    last vals PNone = NpFloat (Fin 1%Qc).
Proof.
  split; [cbn; lia|]. eexists. split; [reflexivity|].
  destruct (@float_grid_values 0%Qc 1%Qc (Some 3%Z) None _
              ltac:(cbn; lia) eq_refl) as (H1 & H2 & H3 & _).
  repeat split; assumption.
Defined.

(** ** Grid search *)

Lemma length_flat_map_const {A B} (f : A -> list B) (l : list A) (n : nat) :
  (forall a, In a l -> length (f a) = n) ->
  length (flat_map f l) = length l * n.
Proof.
  induction l as [|a l IH]; intros H; [reflexivity|].
  cbn [flat_map]. rewrite length_app.
  rewrite (H a) by (now left). rewrite IH by (intros; apply H; now right).
  reflexivity.
Qed.

Lemma length_product {A} (ls : list (list A)) :
  length (product ls) = fold_right (fun l acc => length l * acc) 1 ls.
Proof.
  induction ls as [|l ls IH]; [reflexivity|].
  cbn [product fold_right]. rewrite <- IH.
  apply length_flat_map_const. intros a _. apply length_map.
Qed.

Lemma product_In {A} (ls : list (list A)) (c : list A) :
  In c (product ls) -> Forall2 (fun v l => In v l) c ls.
Proof.
  revert c. induction ls as [|l ls IH]; intros c H; cbn in H.
  - destruct H as [<-|[]]. constructor.
  - apply in_flat_map in H. destruct H as (x & Hx & H).
    apply in_map_iff in H. destruct H as (c' & <- & Hc').
    constructor; [assumption|now apply IH].
Qed.

Lemma product_nil_in {A} (ls : list (list A)) :
  In [] ls -> product ls = [].
Proof.
  induction ls as [|l ls IH]; intros H; [contradiction|].
  cbn [product]. destruct H as [->|H]; [reflexivity|].
  rewrite (IH H). induction l; cbn; auto.
Qed.

Lemma lookup_dict_update {V} (d e : dict V) (k : string) :
  NoDup (map fst e) ->
  lookup (dict_update d e) k
  = match lookup e k with Some v => Some v | None => lookup d k end.
Proof.
  unfold dict_update. revert d.
  induction e as [|[k0 v0] e IH]; intros d N; [reflexivity|].
  cbn [map fst] in N. inversion_clear N as [|? ? Nk Nr].
  cbn [fold_left fst snd lookup]. rewrite (IH _ Nr).
  destruct (String.eqb k0 k) eqn:E.
  - apply String.eqb_eq in E. subst k0.
    rewrite (lookup_notin _ _ Nk). apply lookup_dict_set_same.
  - destruct (lookup e k); [reflexivity|].
    apply lookup_dict_set_other. now apply String.eqb_neq.
Qed.

Lemma dict_update_new {V} (d e : dict V) :
  NoDup (map fst d ++ map fst e) -> dict_update d e = d ++ e.
Proof.
  unfold dict_update. revert d.
  induction e as [|[k0 v0] e IH]; intros d N; cbn.
  - now rewrite app_nil_r.
  - assert (Nk : ~ In k0 (map fst d)).
    { intros I. cbn in N. apply NoDup_remove_2 in N. apply N.
      apply in_or_app. now left. }
    rewrite (@dict_set_new _ d k0 v0 Nk), IH.
    + now rewrite <- app_assoc.
    + rewrite map_app, <- app_assoc. exact N.
Qed.

Lemma NoDup_map_fst_combine {A B} (la : list A) (lb : list B) :
  NoDup la -> NoDup (map fst (combine la lb)).
Proof.
  intros N. revert lb. induction N as [|a la Na N IH]; intros lb;
    [constructor|].
  destruct lb as [|b lb]; [constructor|]. cbn. constructor; [|apply IH].
  intros H. apply Na. apply in_map_iff in H.
  destruct H as ([a' b'] & E & H). cbn in E. subst a'.
  now apply in_combine_l in H.
Qed.

Lemma lookup_candidate (grid : dict (list pyval)) (c : list pyval)
    (k : string) (vals : list pyval) :
  NoDup (map fst grid) ->
  Forall2 (fun v l => In v l) c (map snd grid) ->
  In (k, vals) grid ->
  exists v, lookup (combine (map fst grid) c) k = Some v /\ In v vals.
Proof.
  revert c. induction grid as [|[k0 v0] grid IH]; intros c N F I;
    [contradiction|].
  cbn [map fst snd] in *. inversion_clear N as [|? ? Nk Nr].
  inversion F as [|v ? c' ? Hv F']; subst. cbn [combine lookup].
  destruct I as [[= -> ->]|I].
  - rewrite String.eqb_refl. now exists v.
  - destruct (String.eqb k0 k) eqn:E.
    + apply String.eqb_eq in E. subst k0. exfalso. apply Nk.
      change k with (fst (k, vals)). now apply in_map.
    + now apply IH.
Qed.

Lemma mapM_raise {A B} (f : A -> result B) (l : list A) (e : exn) :
  mapM f l = Raise e -> exists a, In a l /\ f a = Raise e.
Proof.
  induction l as [|a l IH]; cbn; [discriminate|].
  destruct (f a) as [b|e0] eqn:E; cbn.
  - destruct (mapM f l) as [bs|e1]; cbn; [discriminate|].
    intros [= <-]. destruct (IH eq_refl) as (a' & I & H).
    exists a'. split; [now right|assumption].
  - intros [= <-]. exists a. split; [now left|assumption].
Qed.

Lemma fleb_refl (x : float) : isnan x = false -> fleb x x = true.
Proof.
  destruct x as [q| | |]; try discriminate; try reflexivity.
  intros _. apply fleb_Fin, Qcle_refl.
Qed.

Section GridSearch.
Variable pad : bool.
Variable sqrt : float -> float.
Variable pow : float -> float -> float.
Variable argsort : list float -> list nat.

Let records (self : Optimizer) (data : DataFrame) : list row :=
  grid_records pad sqrt pow self data.

Lemma length_grid_candidates (grid : dict (list pyval)) :
  length (grid_candidates grid) = grid_size grid.
Proof.
  unfold grid_candidates, grid_size. rewrite length_map, length_product.
  induction grid as [|kv grid IH]; [reflexivity|].
  cbn. now rewrite IH.
Qed.

Lemma length_grid_records (self : Optimizer) (data : DataFrame) :
  length (records self data) <= grid_size (param_grid self) /\
  ((forall params, In params (grid_candidates (param_grid self)) ->
      exists s, run_summary pad sqrt pow self data params = Ok s) ->
   length (records self data) = grid_size (param_grid self)).
Proof.
  unfold records, grid_records. rewrite <- length_grid_candidates.
  generalize (grid_candidates (param_grid self)). intros l. split.
  - induction l as [|c l IH]; [cbn; lia|].
    cbn [flat_map]. rewrite length_app. unfold grid_record at 1.
    destruct (run_summary pad sqrt pow self data c); cbn; lia.
  - intros H. rewrite (@length_flat_map_const _ _ _ l 1); [lia|].
    intros c Hc. unfold grid_record. destruct (H c Hc) as [s ->].
    reflexivity.
Qed.

Lemma grid_record_values (self : Optimizer) (data : DataFrame) (r : row)
    (k : string) (vals : list pyval) :
  NoDup (map fst (param_grid self)) ->
  In r (records self data) ->
  In (k, vals) (param_grid self) ->
  exists v, lookup r k = Some v /\ In v vals.
Proof.
  intros N Hr Hk. unfold records, grid_records in Hr.
  apply in_flat_map in Hr. destruct Hr as (params & Hp & Hr).
  unfold grid_candidates in Hp. apply in_map_iff in Hp.
  destruct Hp as (c & <- & Hc). apply product_In in Hc.
  unfold grid_record in Hr.
  destruct (run_summary pad sqrt pow self data _) as [s|]; [|contradiction].
  destruct Hr as [<-|[]].
  assert (Nc : NoDup (map fst (combine (map fst (param_grid self)) c)))
    by now apply NoDup_map_fst_combine.
  assert (Ez : dict_zip (map fst (param_grid self)) c
               = combine (map fst (param_grid self)) c)
    by (unfold dict_zip; now rewrite dict_update_new).
  rewrite Ez, (@lookup_dict_update _ _ _ _ Nc).
  destruct (@lookup_candidate _ _ _ _ N Hc Hk) as (v & -> & Hv). now exists v.
Qed.

Lemma optimize_grid_ok (self : Optimizer) (data : DataFrame)
    (metric : string) (table : list row) :
  optimize_grid pad sqrt pow argsort self data metric = Ok table ->
  records self data <> [] /\
  exists keys,
    mapM (sort_key metric) (records self data) = Ok keys /\
    table = map (fun i => nth i (records self data) [])
                (nargsort_desc argsort keys).
Proof.
  unfold optimize_grid, records.
  destruct (grid_records pad sqrt pow self data) as [|r0 rs] eqn:R;
    [discriminate|].
  unfold sort_values_desc.
  destruct (mapM (sort_key metric) (r0 :: rs)) as [keys|]; [|discriminate].
  cbn [bind]. intros H. apply Ok_inj in H. split; [discriminate|].
  exists keys. now split.
Qed.

Lemma optimize_grid_perm (self : Optimizer) (data : DataFrame)
    (metric : string) (table : list row) :
  argsort_sorts argsort ->
  optimize_grid pad sqrt pow argsort self data metric = Ok table ->
  Permutation table (records self data).
Proof.
  intros Hs H. destruct (@optimize_grid_ok _ _ _ _ H) as (_ & keys & Hm & ->).
  rewrite (Permutation_map _ (nargsort_desc_perm Hs keys)).
  rewrite (mapM_length _ _ Hm). now rewrite map_nth_seq.
Qed.

(** X4.  The table of [optimize_grid] has one row per successful candidate:
    never more rows than the product of the grid sizes, exactly that many
    when every candidate evaluates; every row has a cell in each parameter
    column, and for a parameter whose grid values are of one kind (all
    64-bit integers, all floats, all strings or all booleans) that cell
    holds a value of the parameter's grid.  (In a column of mixed values
    pandas converts cells, [None] next to a number becomes NaN, so nothing
    is said of the cell there.) *)
Theorem optimize_grid_rows (self : Optimizer) (data : DataFrame)
    (metric : string) (table : list row) :
  argsort_sorts argsort ->
  NoDup (map fst (param_grid self)) ->
  optimize_grid pad sqrt pow argsort self data metric = Ok table ->
  length table <= grid_size (param_grid self) /\
  ((forall params, In params (grid_candidates (param_grid self)) ->
      exists s, run_summary pad sqrt pow self data params = Ok s) ->
   length table = grid_size (param_grid self)) /\
  forall r k vals,
    In r table -> In (k, vals) (param_grid self) ->
    exists v, lookup r k = Some v /\ (one_kind vals = true -> In v vals).
Proof.
  intros Hs N H. pose proof (@optimize_grid_perm _ _ _ _ Hs H) as P.
  destruct (length_grid_records self data) as [L1 L2].
  rewrite (Permutation_length P). split; [assumption|].
  split; [assumption|]. intros r k vals Hr Hk.
  destruct (@grid_record_values self data r k vals N) as (v & Hv & Hin);
    [now apply (Permutation_in _ P)|assumption|].
  exists v. split; [assumption|]. intros _. exact Hin.
Qed.

(** X5.  [optimize_grid] raises its "No valid grid combinations" error
    exactly when no candidate succeeds; this is always so when some
    parameter has an empty grid, whereas a grid without parameters has the
    single candidate with no arguments. *)
Theorem optimize_grid_no_valid (self : Optimizer) (data : DataFrame)
    (metric : string) :
  (optimize_grid pad sqrt pow argsort self data metric
   = Raise (ValueError "No valid grid combinations") <->
   records self data = []) /\
  (forall k, In (k, []) (param_grid self) -> records self data = []) /\
  (param_grid self = [] -> grid_candidates (param_grid self) = [[]]).
Proof.
  split; [|split].
  - unfold optimize_grid, records.
    destruct (grid_records pad sqrt pow self data) as [|r0 rs];
      [split; reflexivity|].
    split; [|discriminate]. unfold sort_values_desc. intros H.
    destruct (mapM (sort_key metric) (r0 :: rs)) as [keys|e] eqn:E;
      [discriminate|].
    cbn [bind] in H. injection H as ->.
    apply mapM_raise in E. destruct E as (a & _ & E).
    unfold sort_key in E. destruct (lookup a metric) as [[]|]; discriminate.
  - intros k Hk. unfold records, grid_records, grid_candidates.
    rewrite product_nil_in; [reflexivity|].
    change (@nil pyval) with (snd (k, @nil pyval)). now apply in_map.
  - intros ->. reflexivity.
Qed.

(** X6.  The first row of the table of [optimize_grid] is a best one: its
    metric is at least the metric of every successful candidate whose metric
    is not NaN. *)
Theorem optimize_grid_top_row (self : Optimizer) (data : DataFrame)
    (metric : string) (table : list row) :
  argsort_sorts argsort ->
  optimize_grid pad sqrt pow argsort self data metric = Ok table ->
  exists top rest,
    table = top :: rest /\
    forall r x,
      In r (records self data) -> sort_key metric r = Ok x ->
      isnan x = false ->
      exists x0, sort_key metric top = Ok x0 /\ fleb x x0 = true.
Proof.
  intros Hs H. destruct (@optimize_grid_ok _ _ _ _ H) as (Hne & keys & Hm & ->).
  pose proof (nargsort_desc_perm Hs keys) as P.
  destruct (nargsort_desc_spec Hs keys)
    as (valid & missing & E & Hv & Sv & Hn & _ & _).
  pose proof (mapM_length _ _ Hm) as L.
  assert (Hkey : forall j r, nth_error (records self data) j = Some r ->
            sort_key metric r = Ok (nth j keys NaN)).
  { intros j r Hj.
    destruct (@mapM_nth_error _ _ _ _ _ _ _ Hm Hj) as (b & Eb & Hb).
    rewrite Eb. f_equal. symmetry. now apply nth_error_nth. }
  assert (Hin : forall j, In j (nargsort_desc argsort keys) ->
            j < length (records self data)).
  { intros j Hj. apply (Permutation_in _ P) in Hj. apply in_seq in Hj. lia. }
  destruct (nargsort_desc argsort keys) as [|i0 order] eqn:Eo.
  { exfalso. apply Permutation_length in P. cbn in P.
    rewrite length_seq in P.
    destruct (records self data); [congruence|cbn in L; lia]. }
  assert (Hi0 : i0 < length (records self data)) by (apply Hin; now left).
  exists (nth i0 (records self data) []),
    (map (fun i => nth i (records self data) []) order).
  split; [reflexivity|]. intros r x Hr Hx Hnan.
  exists (nth i0 keys NaN). split.
  { apply Hkey. now apply nth_error_nth'. }
  apply In_nth_error in Hr. destruct Hr as [j Hj].
  pose proof (Hkey _ _ Hj) as Hxj. rewrite Hx in Hxj. apply Ok_inj in Hxj.
  subst x.
  assert (Hjlt : j < length (records self data))
    by (apply nth_error_Some; congruence).
  assert (Hjo : In j (i0 :: order)).
  { apply (Permutation_in _ (Permutation_sym P)). apply in_seq. lia. }
  assert (Hjv : In j valid).
  { rewrite E in Hjo. apply in_app_or in Hjo. destruct Hjo as [?|Hjm];
      [assumption|].
    rewrite Forall_forall in Hn. apply Hn in Hjm. congruence. }
  destruct valid as [|v0 valid']; [contradiction|].
  cbn [app] in E. injection E as <- _.
  destruct Hjv as [<-|Hjv]; [now apply fleb_refl|].
  inversion_clear Sv as [|? ? _ F]. rewrite Forall_forall in F.
  now apply F.
Qed.
End GridSearch.

Lemma optimize_grid_rows_witness :
  argsort_sorts (insertion_argsort true) /\
  NoDup (map fst (param_grid two_k_optimizer)) /\
  forallb (fun kv => one_kind (snd kv)) (param_grid two_k_optimizer) = true /\
  exists table,
    optimize_grid true sqrt_approx pow_approx (insertion_argsort true)
      two_k_optimizer example_data "Total Return" = Ok table /\
    length table <= grid_size (param_grid two_k_optimizer) /\
    ((forall params,
        In params (grid_candidates (param_grid two_k_optimizer)) ->
        exists s,
          run_summary true sqrt_approx pow_approx two_k_optimizer
            example_data params = Ok s) ->
     length table = grid_size (param_grid two_k_optimizer)) /\
    forall r k vals,
      In r table -> In (k, vals) (param_grid two_k_optimizer) ->
      exists v, lookup r k = Some v /\ (one_kind vals = true -> In v vals).
Proof.
  assert (N : NoDup (map fst (param_grid two_k_optimizer))).
  { constructor; [intros []|constructor]. }
  split; [apply insertion_argsort_sorts|]. split; [exact N|].
  split; [reflexivity|].
  destruct (optimize_grid true sqrt_approx pow_approx (insertion_argsort true)
              two_k_optimizer example_data "Total Return")
    as [table|e] eqn:E; [|vm_compute in E; discriminate E].
  exists table. split; [reflexivity|].
  exact (@optimize_grid_rows true sqrt_approx pow_approx
           (insertion_argsort true) two_k_optimizer example_data
           "Total Return"%string table (insertion_argsort_sorts true) N E).
Defined.

Lemma optimize_grid_top_row_witness :
  argsort_sorts (insertion_argsort true) /\
  exists table top rest,
    optimize_grid true sqrt_approx pow_approx (insertion_argsort true)
      two_k_optimizer example_data "Total Return" = Ok table /\
    table = top :: rest /\
    forall r x,
      In r (grid_records true sqrt_approx pow_approx two_k_optimizer
              example_data) ->
      sort_key "Total Return" r = Ok x ->
      isnan x = false ->
      exists x0, sort_key "Total Return" top = Ok x0 /\ fleb x x0 = true.
Proof.
  split; [apply insertion_argsort_sorts|].
  destruct (optimize_grid true sqrt_approx pow_approx (insertion_argsort true)
              two_k_optimizer example_data "Total Return")
    as [table|e] eqn:E; [|vm_compute in E; discriminate E].
  destruct (@optimize_grid_top_row true sqrt_approx pow_approx
              (insertion_argsort true) two_k_optimizer example_data
              "Total Return"%string table (insertion_argsort_sorts true) E)
    as (top & rest & Ht & H).
  exists table, top, rest. split; [reflexivity|]. split; assumption.
Defined.

(** ** Metric names across the three searches *)

Lemma get_metric_known (metric : string) (s : Summary) :
  In metric metric_names -> exists x, get_metric metric s = Ok x.
Proof.
  intros H. cbn in H.
  repeat (destruct H as [<-|H]; [eexists; reflexivity|]). contradiction.
Qed.

Lemma get_metric_unknown (metric : string) (s : Summary) :
  ~ In metric metric_names -> get_metric metric s = Raise (KeyError metric).
Proof.
  intros H. unfold get_metric.
  repeat (match goal with
          | |- context [String.eqb metric ?n] =>
              let E := fresh "E" in
              destruct (String.eqb metric n) eqn:E;
              [apply String.eqb_eq in E; exfalso; apply H; subst metric;
               cbn; tauto|]
          end).
  reflexivity.
Qed.

Lemma get_metric_ok_known (metric : string) (s : Summary) (x : float) :
  get_metric metric s = Ok x -> In metric metric_names.
Proof.
  intros H. unfold get_metric in H. cbn.
  repeat (match type of H with
          | context [String.eqb metric ?n] =>
              let E := fresh "E" in
              destruct (String.eqb metric n) eqn:E;
              [apply String.eqb_eq in E; subst metric; tauto|]
          end).
  discriminate.
Qed.

Lemma lookup_dict_update_notin {V} (d e : dict V) (k : string) :
  ~ In k (map fst e) -> lookup (dict_update d e) k = lookup d k.
Proof.
  unfold dict_update. revert d.
  induction e as [|[k0 v0] e IH]; intros d N; [reflexivity|].
  cbn in *. rewrite IH by tauto. apply lookup_dict_set_other. tauto.
Qed.

Lemma lookup_none_notin {V} (d : dict V) (k : string) :
  lookup d k = None -> ~ In k (map fst d).
Proof.
  intros H I. apply lookup_in in I. destruct I as [v I]. congruence.
Qed.

Lemma in_fst_combine {A B} (la : list A) (lb : list B) (a : A) :
  In a (map fst (combine la lb)) -> In a la.
Proof.
  intros H. apply in_map_iff in H. destruct H as ([a' b] & E & H).
  cbn in E. subst a'. now apply in_combine_l in H.
Qed.

Section UnknownMetric.
Variable pad : bool.
Variable sqrt : float -> float.
Variable pow : float -> float -> float.
Variable argsort : list float -> list nat.
Variable suggest_categorical : Trial -> string -> list pyval -> result pyval.
Variable suggest_int : Trial -> string -> Z -> Z -> Z -> result Z.
Variable suggest_float :
  Trial -> string -> float -> float -> option float -> result float.
Variable differential_evolution :
  (list float -> result float) -> list (pyval * pyval) -> result (list float).

Lemma run_metric_unknown (self : Optimizer) (data : DataFrame)
    (metric : string) (params : kwargs) :
  ~ In metric metric_names ->
  exists e, run_metric pad sqrt pow self data metric params = Raise e.
Proof.
  intros H. unfold run_metric.
  destruct (run_summary pad sqrt pow self data params) as [s|e];
    cbn [bind]; [|now exists e].
  rewrite (get_metric_unknown s H). eauto.
Qed.

(** X7.  With a metric name that [summary] does not define, the sampled and
    the continuous searches absorb the error: once its parameters are
    sampled, every trial of [optimize_bayesian] is scored [-inf] with the
    error recorded on the trial, and the objective of [optimize_de] returns
    the penalty for every vector it can decode. *)
Theorem unknown_metric_is_absorbed (self : Optimizer) (data : DataFrame)
    (metric : string) :
  ~ In metric metric_names ->
  (forall trial params,
     sample_params suggest_categorical suggest_int suggest_float self trial
     = Ok params ->
     exists trial' msg,
       objective pad sqrt pow suggest_categorical suggest_int suggest_float
         self data metric trial = (trial', Ok NegInf) /\
       lookup (user_attrs trial') "error" = Some msg) /\
  (forall enc x kw,
     existsb isnan x = false -> decode enc x = Ok kw ->
     _func pad sqrt pow self enc data metric x = ([kw], Ok penalty)).
Proof.
  intros H. split.
  - intros trial params Hs. unfold objective. rewrite Hs.
    destruct (run_metric_unknown self data params H) as [e ->].
    eexists. eexists. split; [reflexivity|].
    cbn [set_user_attr user_attrs]. apply lookup_dict_set_same.
  - intros enc x kw Hx Hd. unfold _func. rewrite Hx, Hd.
    destruct (run_metric_unknown self data kw H) as [e ->]. reflexivity.
Qed.

(** X8.  With a metric name that [summary] does not define, [optimize_de]
    never returns a result, whatever the minimizer does, and
    [optimize_grid] raises [KeyError] as soon as one candidate succeeds and
    no parameter bears that name. *)
Theorem unknown_metric_is_fatal (self : Optimizer) (data : DataFrame)
    (metric : string) :
  ~ In metric metric_names ->
  (forall r,
     optimize_de pad sqrt pow differential_evolution self data metric
     <> Ok r) /\
  (grid_records pad sqrt pow self data <> [] ->
   ~ In metric (map fst (param_grid self)) ->
   optimize_grid pad sqrt pow argsort self data metric
   = Raise (KeyError metric)).
Proof.
  intros H. split.
  - intros r. unfold optimize_de.
    destruct (de_encode (param_grid self)) as [enc|]; [|discriminate].
    cbn [bind]. destruct (de_bounds enc).
    + destruct (run_metric_unknown self data [] H) as [e ->]. discriminate.
    + destruct (differential_evolution _ _) as [bx|]; [|discriminate].
      cbn [bind]. destruct (decode enc bx) as [kw|]; [|discriminate].
      cbn [bind].
      destruct (run_metric_unknown self data kw H) as [e ->]. discriminate.
  - intros Hne Hk. unfold optimize_grid.
    destruct (grid_records pad sqrt pow self data) as [|r0 rs] eqn:R;
      [congruence|].
    assert (Hr0 : In r0 (grid_records pad sqrt pow self data))
      by (rewrite R; now left).
    unfold grid_records in Hr0. apply in_flat_map in Hr0.
    destruct Hr0 as (params & Hp & Hr0).
    unfold grid_candidates in Hp. apply in_map_iff in Hp.
    destruct Hp as (c & <- & _). unfold grid_record in Hr0.
    destruct (run_summary pad sqrt pow self data _) as [s|]; [|contradiction].
    destruct Hr0 as [<-|[]].
    assert (Hz : ~ In metric
                   (map fst (dict_zip (map fst (param_grid self)) c))).
    { apply lookup_none_notin. unfold dict_zip.
      rewrite lookup_dict_update_notin; [reflexivity|].
      intros I. apply Hk. now apply in_fst_combine in I. }
    unfold sort_values_desc. cbn [mapM]. unfold sort_key at 1.
    rewrite (@lookup_dict_update_notin _ _ _ _ Hz).
    assert (Hd : lookup (to_dict s) metric = None).
    { apply lookup_notin. intros I. apply H. exact I. }
    rewrite Hd. reflexivity.
Qed.
End UnknownMetric.

Lemma sharpe_lowercase_unknown : ~ In "sharpe"%string metric_names.
Proof.
  intros H. repeat (destruct H as [H|H]; [discriminate H|]). exact H.
Qed.

Lemma unknown_metric_is_absorbed_witness :
  ~ In "sharpe"%string metric_names /\
  (forall trial params,
     sample_params first_choice lowest_int lowest_float two_k_optimizer trial
     = Ok params ->
     exists trial' msg,
       objective true sqrt_approx pow_approx first_choice lowest_int
         lowest_float two_k_optimizer example_data "sharpe" trial
       = (trial', Ok NegInf) /\
       lookup (user_attrs trial') "error" = Some msg) /\
  (forall enc x kw,
     existsb isnan x = false -> decode enc x = Ok kw ->
     _func true sqrt_approx pow_approx two_k_optimizer enc example_data
       "sharpe" x = ([kw], Ok penalty)).
Proof.
  split; [exact sharpe_lowercase_unknown|].
  exact (@unknown_metric_is_absorbed true sqrt_approx pow_approx first_choice
           lowest_int lowest_float two_k_optimizer example_data
           "sharpe"%string sharpe_lowercase_unknown).
Defined.

Lemma unknown_metric_is_fatal_witness :
  ~ In "sharpe"%string metric_names /\
  grid_records true sqrt_approx pow_approx two_k_optimizer example_data
  <> [] /\
  ~ In "sharpe"%string (map fst (param_grid two_k_optimizer)) /\
  (forall r,
     optimize_de true sqrt_approx pow_approx lower_corner two_k_optimizer
       example_data "sharpe" <> Ok r) /\
  optimize_grid true sqrt_approx pow_approx (insertion_argsort true)
    two_k_optimizer example_data "sharpe" = Raise (KeyError "sharpe").
Proof.
  assert (R : grid_records true sqrt_approx pow_approx two_k_optimizer
                example_data <> []).
  { intros E. vm_compute in E. discriminate E. }
  assert (K : ~ In "sharpe"%string (map fst (param_grid two_k_optimizer))).
  { intros [H|[]]. discriminate H. }
  split; [exact sharpe_lowercase_unknown|]. split; [exact R|].
  split; [exact K|].
  destruct (@unknown_metric_is_fatal true sqrt_approx pow_approx
              (insertion_argsort true) lower_corner two_k_optimizer
              example_data "sharpe"%string sharpe_lowercase_unknown)
    as [H1 H2].
  split; [exact H1|exact (H2 R K)].
Defined.

(** ** The continuous search *)

Lemma py_min_ok_iff (vals : list pyval) :
  (exists v, py_min vals = Ok v) <-> vals <> [].
Proof.
  destruct vals; cbn; split; try congruence; eauto.
  intros [v H]. discriminate.
Qed.

Lemma de_encode_loop_raise (grid : dict (list pyval)) (enc : de_encoding)
    (e : exn) :
  de_encode_loop grid enc = Raise e ->
  e = ValueError "min() arg is an empty sequence" /\
  exists k, In (k, []) grid.
Proof.
  revert enc. induction grid as [|[k vals] grid IH]; intros enc H;
    [discriminate|].
  cbn [de_encode_loop] in H.
  destruct (forallb isinstance_number vals) eqn:Hn.
  - destruct vals as [|v vals].
    + cbn in H. injection H as <-. split; [reflexivity|].
      exists k. now left.
    + cbn [py_min py_max bind] in H. apply IH in H.
      destruct H as [He [k' Hk']]. split; [assumption|].
      exists k'. now right.
  - apply IH in H. destruct H as [He [k' Hk']]. split; [assumption|].
    exists k'. now right.
Qed.

Lemma de_encode_loop_empty_entry (grid : dict (list pyval))
    (enc : de_encoding) (k : string) :
  In (k, []) grid ->
  de_encode_loop grid enc
  = Raise (ValueError "min() arg is an empty sequence").
Proof.
  revert enc. induction grid as [|[k0 vals] grid IH]; intros enc H;
    [contradiction|].
  cbn [de_encode_loop]. destruct H as [[= -> ->]|H]; [reflexivity|].
  destruct (forallb isinstance_number vals) eqn:Hn.
  - destruct vals as [|v vals]; [reflexivity|].
    cbn [py_min py_max bind]. now apply IH.
  - now apply IH.
Qed.

Lemma cat_map_of_lookup (grid : dict (list pyval)) (m : dict (list pyval))
    (k : string) (vals : list pyval) :
  lookup (cat_map_of grid m) k = Some vals ->
  lookup m k = Some vals \/
  (In (k, vals) grid /\ forallb isinstance_number vals = false).
Proof.
  revert m. induction grid as [|[k0 v0] grid IH]; intros m H;
    [now left|].
  change (cat_map_of ((k0, v0) :: grid) m)
    with (cat_map_of grid
            (if forallb isinstance_number v0 then m else dict_set m k0 v0))
    in H.
  apply IH in H. destruct H as [H|[H1 H2]]; [|right; split; auto; now right].
  destruct (forallb isinstance_number v0) eqn:Hn; [now left|].
  destruct (String.eqb k0 k) eqn:E.
  - apply String.eqb_eq in E. subst k0.
    rewrite lookup_dict_set_same in H. injection H as ->.
    right. split; [now left|assumption].
  - rewrite lookup_dict_set_other in H by now apply String.eqb_neq.
    now left.
Qed.

Lemma de_encode_lengths (grid : dict (list pyval)) (enc : de_encoding) :
  de_encode grid = Ok enc ->
  length (de_keys enc) = length grid /\
  length (de_bounds enc) = length grid /\
  length (de_int_flags enc) = length grid /\
  (forall k vals,
     lookup (de_cat_map enc) k = Some vals ->
     In (k, vals) grid /\ vals <> [] /\
     forallb isinstance_number vals = false) /\
  (de_bounds enc = [] <-> grid = []).
Proof.
  intros H. unfold de_encode in H.
  apply de_encode_loop_spec in H. cbn [de_empty de_keys de_bounds
    de_int_flags de_cat_map app] in H.
  destruct H as (Hk & (bs & Hb & Hbs) & Hf & Hc).
  pose proof (mapM_length _ _ Hb) as Lb.
  split; [now rewrite Hk, length_map|].
  split; [now rewrite Hbs|]. split; [now rewrite Hf, length_map|].
  split.
  - intros k vals Hl. rewrite Hc in Hl. apply cat_map_of_lookup in Hl.
    destruct Hl as [Hl|[Hi Hn]]; [discriminate|].
    split; [assumption|]. split; [|assumption].
    intros ->. discriminate.
  - rewrite Hbs. split; intros E.
    + rewrite E in Lb. now destruct grid.
    + rewrite E in Lb. now destruct bs.
Qed.

Section ContinuousSearch.
Variable pad : bool.
Variable sqrt : float -> float.
Variable pow : float -> float -> float.
Variable differential_evolution :
  (list float -> result float) -> list (pyval * pyval) -> result (list float).

(** X9.  The encoding of [optimize_de] keeps one key, one pair of bounds and
    one integer flag per grid entry, so zipping them loses nothing; its
    categorical map holds only non-empty lists with a non-number; and the
    minimizer is skipped exactly when the grid has no parameter, in which
    case the strategy is evaluated once with no arguments. *)
Theorem de_encoding_shape (self : Optimizer) (enc : de_encoding) :
  de_encode (param_grid self) = Ok enc ->
  length (de_keys enc) = length (param_grid self) /\
  length (de_bounds enc) = length (param_grid self) /\
  length (de_int_flags enc) = length (param_grid self) /\
  (forall k vals,
     lookup (de_cat_map enc) k = Some vals ->
     In (k, vals) (param_grid self) /\ vals <> [] /\
     forallb isinstance_number vals = false) /\
  (de_bounds enc = [] <-> param_grid self = []) /\
  (param_grid self = [] ->
   forall data metric,
     optimize_de pad sqrt pow differential_evolution self data metric
     = (perf <- run_metric pad sqrt pow self data metric [] ;;
        Ok ([], perf))).
Proof.
  intros H.
  destruct (@de_encode_lengths _ _ H) as (Lk & Lb & Lf & Hc & Hb).
  repeat (split; [assumption|]).
  intros E data metric. unfold optimize_de. rewrite H. cbn [bind].
  destruct Hb as [_ Hb]. now rewrite (Hb E).
Qed.

(** X10.  [optimize_de] fails while building its bounds exactly when some
    parameter has an empty grid (as an integer entry with [low > high] has):
    [min] of the empty list raises [ValueError], before any evaluation. *)
Theorem de_encode_fails_iff (grid : dict (list pyval)) :
  ((exists e, de_encode grid = Raise e) <-> exists k, In (k, []) grid) /\
  (forall e, de_encode grid = Raise e ->
     e = ValueError "min() arg is an empty sequence") /\
  (forall self data metric k,
     In (k, []) (param_grid self) ->
     optimize_de pad sqrt pow differential_evolution self data metric
     = Raise (ValueError "min() arg is an empty sequence")).
Proof.
  split; [|split].
  - split.
    + intros [e H]. now apply de_encode_loop_raise in H.
    + intros [k H]. eexists. unfold de_encode.
      now apply (@de_encode_loop_empty_entry _ _ _ H).
  - intros e H. now apply de_encode_loop_raise in H.
  - intros self data metric k H. unfold optimize_de, de_encode.
    now rewrite (@de_encode_loop_empty_entry _ _ _ H).
Qed.

Lemma decode_cell_finite (cat_map : dict (list pyval)) (q : Qc)
    (k : string) (flag : bool) :
  (forall vals, lookup cat_map k = Some vals -> vals <> []) ->
  exists v, decode_cell cat_map (Fin q) k flag = Ok v.
Proof.
  intros H. destruct (lookup cat_map k) as [vals|] eqn:E.
  - assert (Hn : 0 < length vals).
    { specialize (H vals eq_refl). destruct vals; [congruence|cbn; lia]. }
    destruct (@decode_cell_choice _ k vals q flag E Hn) as (v & Hv & _).
    now exists v.
  - unfold decode_cell. rewrite E. destruct flag; cbn; eauto.
Qed.

Lemma decode_loop_finite (cat_map : dict (list pyval)) (x : list float)
    (keys : list string) (flags : list bool) (kw : kwargs) :
  (forall k vals, lookup cat_map k = Some vals -> vals <> []) ->
  Forall (fun xi => isfinite xi = true) x ->
  exists kw', decode_loop cat_map x keys flags kw = Ok kw'.
Proof.
  intros Hc Hx. revert keys flags kw.
  induction Hx as [|xi x Hxi _ IH]; intros keys flags kw; cbn; [eauto|].
  destruct keys as [|k keys]; [eauto|].
  destruct flags as [|f flags]; [eauto|].
  destruct xi as [q| | |]; try discriminate.
  destruct (@decode_cell_finite cat_map q k f (Hc k)) as [v ->].
  cbn [bind]. apply IH.
Qed.

Lemma decode_loop_keys (cat_map : dict (list pyval)) (x : list float)
    (keys : list string) (flags : list bool) (kw kw' : kwargs) :
  NoDup (map fst kw ++ keys) ->
  length x = length keys -> length flags = length keys ->
  decode_loop cat_map x keys flags kw = Ok kw' ->
  map fst kw' = map fst kw ++ keys.
Proof.
  revert keys flags kw. induction x as [|xi x IH];
    intros [|k keys] [|f flags] kw N Lx Lf H; cbn in *; try lia.
  - apply Ok_inj in H. subst. now rewrite app_nil_r.
  - destruct (decode_cell cat_map xi k f) as [v|]; [|discriminate].
    cbn [bind] in H.
    assert (Nk : ~ In k (map fst kw)).
    { intros I. apply NoDup_remove_2 in N. apply N.
      apply in_or_app. now left. }
    rewrite (@dict_set_new _ kw k v Nk) in H.
    apply IH in H; try lia.
    + rewrite H, map_app, <- app_assoc. reflexivity.
    + rewrite map_app, <- app_assoc. exact N.
Qed.

(** X11.  For every vector of finite components the objective of
    [optimize_de] raises nothing: it decodes the vector and calls the
    constructor exactly once, with the decoded arguments; when that
    evaluation returns a metric the objective returns the negated metric,
    and when it raises the objective returns the penalty; with one component
    per parameter the decoded arguments name exactly the parameters of the
    grid. *)
Theorem de_objective_total_on_finite (self : Optimizer)
    (enc : de_encoding) (data : DataFrame) (metric : string)
    (x : list float) :
  de_encode (param_grid self) = Ok enc ->
  Forall (fun xi => isfinite xi = true) x ->
  exists kw v,
    decode enc x = Ok kw /\
    _func pad sqrt pow self enc data metric x = ([kw], Ok v) /\
    (forall perf,
       run_metric pad sqrt pow self data metric kw = Ok perf ->
       v = (- perf)%flt) /\
    (forall e,
       run_metric pad sqrt pow self data metric kw = Raise e ->
       v = penalty) /\
    (NoDup (map fst (param_grid self)) ->
     length x = length (param_grid self) ->
     map fst kw = map fst (param_grid self)).
Proof.
  intros He Hx.
  destruct (@de_encode_lengths _ _ He) as (Lk & _ & Lf & Hc & _).
  destruct (@decode_loop_finite (de_cat_map enc) x (de_keys enc)
              (de_int_flags enc) []) as [kw Hd]; [|assumption|].
  { intros k vals Hl. now destruct (Hc k vals Hl) as (_ & ? & _). }
  assert (Hnan : existsb isnan x = false).
  { clear -Hx. induction Hx as [|xi x Hxi _ IH]; [reflexivity|].
    cbn. rewrite IH. now destruct xi. }
  exists kw. unfold _func, decode. rewrite Hnan, Hd.
  assert (Hkeys : NoDup (map fst (param_grid self)) ->
                  length x = length (param_grid self) ->
                  map fst kw = map fst (param_grid self)).
  { intros N Lx. unfold de_encode in He. apply de_encode_loop_spec in He.
    destruct He as (Hk & _). cbn in Hk.
    apply (@decode_loop_keys (de_cat_map enc) x (de_keys enc)
             (de_int_flags enc) [] kw) in Hd; try lia.
    - now rewrite Hd, Hk.
    - cbn. now rewrite Hk. }
  destruct (run_metric pad sqrt pow self data metric kw) as [perf|] eqn:E.
  - exists (- perf)%flt. split; [reflexivity|]. split; [reflexivity|].
    split; [intros p Hp; now inversion Hp|]. split; [discriminate|assumption].
  - exists penalty. split; [reflexivity|]. split; [reflexivity|].
    split; [discriminate|]. split; [reflexivity|assumption].
Qed.
End ContinuousSearch.

Lemma de_encoding_shape_witness :
  exists enc,
    de_encode (param_grid two_k_optimizer) = Ok enc /\
    length (de_keys enc) = length (param_grid two_k_optimizer) /\
    length (de_bounds enc) = length (param_grid two_k_optimizer) /\
    length (de_int_flags enc) = length (param_grid two_k_optimizer) /\
    (forall k vals,
       lookup (de_cat_map enc) k = Some vals ->
       In (k, vals) (param_grid two_k_optimizer) /\ vals <> [] /\
       forallb isinstance_number vals = false) /\
    (de_bounds enc = [] <-> param_grid two_k_optimizer = []) /\
    (param_grid two_k_optimizer = [] ->
     forall data metric,
       optimize_de true sqrt_approx pow_approx lower_corner two_k_optimizer
         data metric
       = (perf <- run_metric true sqrt_approx pow_approx two_k_optimizer
                    data metric [] ;;
          Ok ([], perf))).
Proof.
  destruct (de_encode (param_grid two_k_optimizer)) as [enc|e] eqn:E;
    [|vm_compute in E; discriminate E].
  exists enc. split; [reflexivity|].
  exact (@de_encoding_shape true sqrt_approx pow_approx lower_corner
           two_k_optimizer enc E).
Defined.

Lemma de_objective_total_on_finite_witness :
  Forall (fun xi => isfinite xi = true) [FQ 3 2] /\
  exists enc kw v,
    de_encode (param_grid two_k_optimizer) = Ok enc /\
    decode enc [FQ 3 2] = Ok kw /\
    _func true sqrt_approx pow_approx two_k_optimizer enc example_data
      "Sharpe" [FQ 3 2] = ([kw], Ok v) /\
    (forall perf,
       run_metric true sqrt_approx pow_approx two_k_optimizer example_data
         "Sharpe" kw = Ok perf ->
       v = (- perf)%flt) /\
    (forall e,
       run_metric true sqrt_approx pow_approx two_k_optimizer example_data
         "Sharpe" kw = Raise e ->
       v = penalty) /\
    (NoDup (map fst (param_grid two_k_optimizer)) ->
     length [FQ 3 2] = length (param_grid two_k_optimizer) ->
     map fst kw = map fst (param_grid two_k_optimizer)).
Proof.
  assert (F : Forall (fun xi => isfinite xi = true) [FQ 3 2]).
  { constructor; [reflexivity|constructor]. }
  split; [exact F|].
  destruct (de_encode (param_grid two_k_optimizer)) as [enc|e] eqn:E;
    [|vm_compute in E; discriminate E].
  destruct (@de_objective_total_on_finite true sqrt_approx pow_approx
              two_k_optimizer enc example_data "Sharpe"%string [FQ 3 2] E F)
    as (kw & v & H).
  exists enc, kw, v. split; [reflexivity|exact H].
Defined.

(** ** Decoding integer components *)

Lemma fleb_FZ_l (lo : Z) (q : Qc) :
  fleb (FZ lo) (Fin q) = true <-> (lo * Zpos (Qden q) <= Qnum q)%Z.
Proof.
  unfold FZ. rewrite fleb_Fin. unfold Qcle. cbn [this Q2Qc].
  rewrite Qred_correct. unfold Qle. cbn [Qnum Qden inject_Z]. lia.
Qed.

Lemma fleb_FZ_r (q : Qc) (hi : Z) :
  fleb (Fin q) (FZ hi) = true <-> (Qnum q <= hi * Zpos (Qden q))%Z.
Proof.
  unfold FZ. rewrite fleb_Fin. unfold Qcle. cbn [this Q2Qc].
  rewrite Qred_correct. unfold Qle. cbn [Qnum Qden inject_Z]. lia.
Qed.

Lemma fleb_FZ (a b : Z) : fleb (FZ a) (FZ b) = true <-> (a <= b)%Z.
Proof.
  unfold FZ. rewrite fleb_Fin. unfold Qcle. cbn [this Q2Qc].
  rewrite !Qred_correct. unfold Qle. cbn [Qnum Qden inject_Z]. lia.
Qed.

Lemma qround_half_even_bounds (q : Qc) (lo hi : Z) :
  (lo * Zpos (Qden q) <= Qnum q)%Z -> (Qnum q <= hi * Zpos (Qden q))%Z ->
  (lo <= qround_half_even q <= hi)%Z.
Proof.
  unfold qround_half_even.
  generalize (Qnum q) (Zpos (Qden q)) (Pos2Z.is_pos (Qden q)).
  intros n d Hd Hlo Hhi.
  pose proof (Z.div_mod n d ltac:(lia)) as E.
  pose proof (Z.mod_pos_bound n d Hd) as B.
  assert (L : (lo <= n / d)%Z) by (apply Z.div_le_lower_bound; lia).
  assert (U : (n / d <= hi)%Z) by (apply Z.div_le_upper_bound; lia).
  assert (U' : (n mod d = 0 \/ n / d + 1 <= hi)%Z) by nia.
  destruct (Z.compare_spec (2 * (n mod d)) d) as [C|C|C].
  - destruct (Z.even (n / d)); [lia|]. destruct U' as [U'|U']; lia.
  - lia.
  - destruct U' as [U'|U']; lia.
Qed.

Lemma isinstance_int_num_val (v : pyval) :
  isinstance_int v = true -> exists z, num_val v = FZ z.
Proof.
  destruct v as [z|[]| | | | | |]; try discriminate; intros _; cbn; eauto.
  - now exists 1%Z.
  - now exists 0%Z.
Qed.

Lemma fold_min_spec (r : list pyval) (v : pyval) :
  Forall (fun y => isnan (num_val y) = false) (v :: r) ->
  let m := fold_left
             (fun m y => if fltb (num_val y) (num_val m) then y else m) r v in
  In m (v :: r) /\
  forall y, In y (v :: r) -> fleb (num_val m) (num_val y) = true.
Proof.
  revert v. induction r as [|a r IH]; intros v F; cbn [fold_left].
  - inversion_clear F as [|? ? Hv _]. split; [now left|].
    intros y [<-|[]]. now apply fleb_refl.
  - inversion_clear F as [|? ? Hv F']. inversion_clear F' as [|? ? Ha Fr].
    destruct (fltb (num_val a) (num_val v)) eqn:C.
    + destruct (IH a) as [I L]; [now constructor|]. split.
      * destruct I as [<-|I]; [right; now left|right; now right].
      * intros y [<-|Hy]; [|now apply L].
        eapply fleb_trans; [apply L; now left|now apply fltb_fleb].
    + destruct (IH v) as [I L]; [now constructor|]. split.
      * destruct I as [<-|I]; [now left|right; now right].
      * intros y [<-|[<-|Hy]].
        -- apply L. now left.
        -- eapply fleb_trans; [apply L; now left|].
           now apply fltb_false_fleb.
        -- apply L. now right.
Qed.

Lemma fold_max_spec (r : list pyval) (v : pyval) :
  Forall (fun y => isnan (num_val y) = false) (v :: r) ->
  let m := fold_left
             (fun m y => if fgtb (num_val y) (num_val m) then y else m) r v in
  In m (v :: r) /\
  forall y, In y (v :: r) -> fleb (num_val y) (num_val m) = true.
Proof.
  revert v. induction r as [|a r IH]; intros v F; cbn [fold_left].
  - inversion_clear F as [|? ? Hv _]. split; [now left|].
    intros y [<-|[]]. now apply fleb_refl.
  - inversion_clear F as [|? ? Hv F']. inversion_clear F' as [|? ? Ha Fr].
    change (fgtb (num_val a) (num_val v)) with (fltb (num_val v) (num_val a)).
    destruct (fltb (num_val v) (num_val a)) eqn:C.
    + destruct (IH a) as [I L]; [now constructor|]. split.
      * destruct I as [<-|I]; [right; now left|right; now right].
      * intros y [<-|Hy]; [|now apply L].
        eapply fleb_trans; [|apply L; now left]. now apply fltb_fleb.
    + destruct (IH v) as [I L]; [now constructor|]. split.
      * destruct I as [<-|I]; [now left|right; now right].
      * intros y [<-|[<-|Hy]].
        -- apply L. now left.
        -- eapply fleb_trans; [|apply L; now left].
           now apply fltb_false_fleb.
        -- apply L. now right.
Qed.

Lemma forallb_int_number (vals : list pyval) :
  forallb isinstance_int vals = true ->
  forallb isinstance_number vals = true.
Proof.
  rewrite !forallb_forall. intros H v Hv. unfold isinstance_number.
  now rewrite (H v Hv).
Qed.

(** X12.  A parameter whose grid values are all ints gets for bounds the
    smallest and the largest value of its grid, and every vector component
    within those bounds decodes to an integer within them: rounding never
    leaves the box. *)
Theorem de_integer_decode_in_bounds (grid : dict (list pyval))
    (enc : de_encoding) (i : nat) (k : string) (vals : list pyval) :
  NoDup (map fst grid) ->
  de_encode grid = Ok enc ->
  nth_error grid i = Some (k, vals) ->
  forallb isinstance_int vals = true ->
  exists low high lo hi,
    nth_error (de_bounds enc) i = Some (low, high) /\
    In low vals /\ In high vals /\
    num_val low = FZ lo /\ num_val high = FZ hi /\
    (forall v, In v vals ->
       exists z, num_val v = FZ z /\ (lo <= z <= hi)%Z) /\
    (forall q,
       fleb (FZ lo) (Fin q) = true -> fleb (Fin q) (FZ hi) = true ->
       exists r,
         decode_cell (de_cat_map enc) (Fin q) k true = Ok (PInt r) /\
         (lo <= r <= hi)%Z).
Proof.
  intros N He Hi Hint.
  destruct (@de_encode_entry grid enc i k vals N He Hi) as (_ & _ & Hnum & _).
  destruct (Hnum (forallb_int_number _ Hint))
    as ((low & high & Hmin & Hmax & Hb) & _ & Hdec).
  rewrite Hint in Hdec.
  assert (F : Forall (fun y => isnan (num_val y) = false) vals).
  { apply Forall_forall. intros v Hv.
    rewrite forallb_forall in Hint.
    destruct (isinstance_int_num_val _ (Hint v Hv)) as [z ->].
    reflexivity. }
  destruct vals as [|v0 r]; [discriminate|].
  cbn [py_min py_max] in Hmin, Hmax.
  apply Ok_inj in Hmin. apply Ok_inj in Hmax.
  destruct (fold_min_spec F) as [Ilow Llow].
  destruct (fold_max_spec F) as [Ihigh Lhigh].
  rewrite Hmin in Ilow, Llow. rewrite Hmax in Ihigh, Lhigh.
  rewrite forallb_forall in Hint.
  destruct (isinstance_int_num_val _ (Hint low Ilow)) as [lo Elo].
  destruct (isinstance_int_num_val _ (Hint high Ihigh)) as [hi Ehi].
  exists low, high, lo, hi. repeat (split; [assumption|]). split.
  - intros v Hv. destruct (isinstance_int_num_val _ (Hint v Hv)) as [z Ez].
    exists z. split; [assumption|].
    pose proof (Llow v Hv) as A. pose proof (Lhigh v Hv) as B.
    rewrite Elo, Ez in A. rewrite Ehi, Ez in B.
    apply fleb_FZ in A. apply fleb_FZ in B. lia.
  - intros q A B. rewrite Hdec. cbn [py_round bind].
    exists (qround_half_even q). split; [reflexivity|].
    apply qround_half_even_bounds; [now apply fleb_FZ_l|now apply fleb_FZ_r].
Qed.

Lemma de_integer_decode_in_bounds_witness :
  NoDup (map fst [("k"%string, [PInt 1; PInt 5; PInt 9])]) /\
  exists enc low high lo hi,
    de_encode [("k"%string, [PInt 1; PInt 5; PInt 9])] = Ok enc /\
    nth_error (de_bounds enc) 0 = Some (low, high) /\
    In low [PInt 1; PInt 5; PInt 9] /\ In high [PInt 1; PInt 5; PInt 9] /\
    num_val low = FZ lo /\ num_val high = FZ hi /\
    (forall v, In v [PInt 1; PInt 5; PInt 9] ->
       exists z, num_val v = FZ z /\ (lo <= z <= hi)%Z) /\
    (forall q,
       fleb (FZ lo) (Fin q) = true -> fleb (Fin q) (FZ hi) = true ->
       exists r,
         decode_cell (de_cat_map enc) (Fin q) "k" true = Ok (PInt r) /\
         (lo <= r <= hi)%Z).
Proof.
  assert (N : NoDup (map fst [("k"%string, [PInt 1; PInt 5; PInt 9])])).
  { constructor; [intros []|constructor]. }
  split; [exact N|].
  destruct (de_encode [("k"%string, [PInt 1; PInt 5; PInt 9])])
    as [enc|e] eqn:E; [|vm_compute in E; discriminate E].
  destruct (@de_integer_decode_in_bounds
              [("k"%string, [PInt 1; PInt 5; PInt 9])] enc 0 "k"%string
              [PInt 1; PInt 5; PInt 9] N E eq_refl eq_refl)
    as (low & high & lo & hi & H).
  exists enc, low, high, lo, hi. split; [reflexivity|exact H].
Defined.

(** ** The direction of the sampled search *)

Lemma study_optimize_history (obj : Trial -> Trial * result float)
    (n number : nat) (history h : list (Trial * float)) :
  study_optimize obj n number history = Ok h ->
  forall t v,
    In (t, v) h ->
    In (t, v) history \/
    exists m, obj {| trial_number := m; user_attrs := [] |} = (t, Ok v).
Proof.
  revert number history. induction n as [|n IH]; intros number history H t v I.
  - cbn in H. apply Ok_inj in H. subst h. now left.
  - cbn [study_optimize] in H.
    destruct (obj {| trial_number := number; user_attrs := [] |})
      as [t' [v'|e]] eqn:E; [|discriminate].
    destruct (IH _ _ H t v I) as [J|J]; [|now right].
    apply in_app_or in J. destruct J as [J|[[= <- <-]|[]]]; [now left|].
    right. now exists number.
Qed.

Section StudyDirection.
Variable pad : bool.
Variable sqrt : float -> float.
Variable pow : float -> float -> float.
Variable suggest_categorical : Trial -> string -> list pyval -> result pyval.
Variable suggest_int : Trial -> string -> Z -> Z -> Z -> result Z.
Variable suggest_float :
  Trial -> string -> float -> float -> option float -> result float.

Lemma objective_fresh_trial (self : Optimizer) (data : DataFrame)
    (metric : string) (m : nat) (t : Trial) (v : float) :
  objective pad sqrt pow suggest_categorical suggest_int suggest_float self
    data metric {| trial_number := m; user_attrs := [] |} = (t, Ok v) ->
  (isfinite v = true \/ v = NegInf) /\
  (lookup (user_attrs t) "error" <> None -> v = NegInf).
Proof.
  unfold objective.
  destruct (sample_params _ _ _ _ _) as [params|]; [|discriminate].
  destruct (run_metric pad sqrt pow self data metric params) as [score|e].
  - destruct (isfinite score) eqn:F; intros [= <- <-]; cbn; split; auto;
      congruence.
  - intros [= <- <-]. auto.
Qed.

(** X13.  [optimize_bayesian] maximizes only when the metric is, in lower
    case, [sharpe] or [total return]; of the metrics of [summary] every
    other one is minimized.  A failed trial is scored [-inf] whatever the
    direction, so in a minimizing study the value of a trial with a recorded
    error is below or equal to the value of every trial. *)
Theorem minimized_study_ranks_failures_first (self : Optimizer)
    (data : DataFrame) (metric : string) (n_trials : nat)
    (d : direction) (h : list (Trial * float)) :
  lower metric <> "sharpe"%string ->
  lower metric <> "total return"%string ->
  optimize_bayesian pad sqrt pow suggest_categorical suggest_int
    suggest_float self data metric n_trials = Ok (d, h) ->
  d = Minimize /\
  (forall t v,
     In (t, v) h -> lookup (user_attrs t) "error" <> None ->
     v = NegInf /\ forall t' v', In (t', v') h -> fleb v v' = true) /\
  Forall (fun m => study_direction m = Maximize <->
                   m = "Sharpe"%string \/ m = "Total Return"%string)
         metric_names.
Proof.
  intros H1 H2 H. unfold optimize_bayesian in H.
  destruct (study_optimize _ n_trials 0 []) as [h0|] eqn:E; [|discriminate].
  cbn [bind] in H. injection H as <- <-. split; [|split].
  - unfold study_direction. apply String.eqb_neq in H1, H2.
    now rewrite H1, H2.
  - intros t v I Herr.
    destruct (study_optimize_history _ _ _ _ E t v I) as [[]|[m Hm]].
    apply objective_fresh_trial in Hm. destruct Hm as [_ Hv].
    specialize (Hv Herr). subst v. split; [reflexivity|].
    intros t' v' I'.
    destruct (study_optimize_history _ _ _ _ E t' v' I') as [[]|[m' Hm']].
    apply objective_fresh_trial in Hm'. destruct Hm' as [[F| ->] _];
      [|reflexivity].
    now destruct v'.
  - unfold metric_names.
    repeat (apply Forall_cons;
            [split;
             [intros D; first [left; reflexivity|right; reflexivity
                              |cbv in D; discriminate D]
             |intros [D|D]; first [discriminate D|reflexivity]]|]).
    apply Forall_nil.
Qed.
End StudyDirection.

Lemma minimized_study_ranks_failures_first_witness :
  lower "Win Rate" <> "sharpe"%string /\
  lower "Win Rate" <> "total return"%string /\
  exists d h,
    optimize_bayesian true sqrt_approx pow_approx first_choice lowest_int
      lowest_float
      {| strategy_cls := failing_cls kind_config;
         param_grid := [("kind"%string, [PStr "sma"; PStr "ema"])] |}
      example_data "Win Rate" 2 = Ok (d, h) /\
    d = Minimize /\
    (forall t v,
       In (t, v) h -> lookup (user_attrs t) "error" <> None ->
       v = NegInf /\ forall t' v', In (t', v') h -> fleb v v' = true) /\
    Forall (fun m => study_direction m = Maximize <->
                     m = "Sharpe"%string \/ m = "Total Return"%string)
           metric_names.
Proof.
  assert (H1 : lower "Win Rate" <> "sharpe"%string) by discriminate.
  assert (H2 : lower "Win Rate" <> "total return"%string) by discriminate.
  split; [exact H1|]. split; [exact H2|].
  destruct (optimize_bayesian true sqrt_approx pow_approx first_choice
              lowest_int lowest_float
              {| strategy_cls := failing_cls kind_config;
                 param_grid := [("kind"%string, [PStr "sma"; PStr "ema"])] |}
              example_data "Win Rate" 2)
    as [[d h]|e] eqn:E; [|vm_compute in E; discriminate E].
  exists d, h. split; [reflexivity|].
  exact (@minimized_study_ranks_failures_first true sqrt_approx pow_approx
           first_choice lowest_int lowest_float _ example_data
           "Win Rate"%string 2 d h H1 H2 E).
Defined.

(** ** The ranges of the summary metrics *)

Lemma is_positive_Fin (x : float) :
  is_positive x = true <-> exists q, x = Fin q /\ (0 < q)%Qc.
Proof.
  destruct x as [q| | |]; cbn; split; try discriminate.
  - intros H. exists q. split; [reflexivity|]. apply Qcgt_alt.
    unfold qsign in H. now destruct (q ?= 0)%Qc.
  - intros (q' & E & H). injection E as <-. apply Qcgt_alt in H.
    unfold qsign. now rewrite H.
  - intros (q' & E & _). discriminate E.
  - intros (q' & E & _). discriminate E.
  - intros (q' & E & _). discriminate E.
Qed.

Lemma Qc_drawdown (a b : Qc) :
  (0 < a)%Qc -> (a <= b)%Qc ->
  (- (1) < (a + - b) / b)%Qc /\ ((a + - b) / b <= 0)%Qc.
Proof.
  intros Ha Hab.
  unfold Qclt, Qcle, Qcdiv, Qcmult, Qcinv, Qcplus, Qcopp in *.
  cbn [this Q2Qc] in *. rewrite !Qred_correct.
  change (Qred 0) with 0%Q in *. change (Qred 1) with 1%Q in *.
  set (A := this a) in *. set (B := this b) in *.
  assert (HB : (0 < B)%Q) by (eapply Qlt_le_trans; eassumption).
  assert (E : (B * / B == 1)%Q).
  { field. intros C. rewrite C in HB. now apply Qlt_irrefl in HB. }
  assert (I : (0 < / B)%Q) by now apply Qinv_lt_0_compat.
  set (e := (/ B)%Q) in *.
  split; nra.
Qed.

Lemma cummax_from_positive (s : Series) (m : option float) :
  Forall (fun x => is_positive x = true) s ->
  match m with None => True | Some y => is_positive y = true end ->
  Forall2 (fun e c => exists a b,
             e = Fin a /\ c = Fin b /\ (0 < a)%Qc /\ (a <= b)%Qc)
          s (cummax_from m s).
Proof.
  intros F. revert m. induction F as [|x r Hx _ IH]; intros m Hm;
    cbn [cummax_from]; [constructor|].
  pose proof Hx as Hx'. apply is_positive_Fin in Hx'.
  destruct Hx' as (a & -> & Ha). cbn [isnan].
  destruct m as [y|].
  - pose proof Hm as Hy. apply is_positive_Fin in Hy.
    destruct Hy as (b & -> & Hb).
    destruct (fltb (Fin b) (Fin a)) eqn:C.
    + constructor; [|now apply IH].
      exists a, a. repeat split; [assumption|apply Qcle_refl].
    + constructor; [|now apply IH].
      exists a, b. repeat split; [assumption|].
      apply Qcnot_lt_le. intros L. apply fltb_Fin in L. congruence.
  - constructor; [|now apply IH].
    exists a, a. repeat split; [assumption|apply Qcle_refl].
Qed.

Lemma drawdown_cells (e c : Series) :
  Forall2 (fun e c => exists a b,
             e = Fin a /\ c = Fin b /\ (0 < a)%Qc /\ (a <= b)%Qc) e c ->
  Forall (fun d => exists q, d = Fin q /\ (- (1) < q)%Qc /\ (q <= 0)%Qc)
         (align fdiv (align fsub e c) c).
Proof.
  induction 1 as [|x y e c (a & b & -> & -> & Ha & Hab) _ IH];
    cbn [align map]; constructor; [|assumption].
  cbn [fsub fneg fadd fdiv].
  assert (Hb : qsign b = Gt).
  { apply Qcgt_alt. eapply Qclt_le_trans; eassumption. }
  rewrite Hb. eexists. split; [reflexivity|]. now apply Qc_drawdown.
Qed.

Lemma fmin_list_in (l : list float) : l <> [] -> In (fmin_list l) l.
Proof.
  destruct l as [|x r]; [congruence|]. intros _. cbn [fmin_list].
  revert x. induction r as [|y r IH]; intros x; cbn [fold_left];
    [now left|].
  destruct (fltb y x).
  - right. apply IH.
  - destruct (IH x) as [<-|I]; [now left|right; now right].
Qed.

Lemma length_align_same op (a b : Series) :
  length a = length b -> length (align op a b) = length a.
Proof.
  revert b. induction a as [|x a IH]; intros [|y b] H; cbn in *;
    try discriminate; [reflexivity|]. f_equal. apply IH. lia.
Qed.

Lemma length_cummax_from (m : option float) (s : Series) :
  length (cummax_from m s) = length s.
Proof.
  revert m. induction s as [|x r IH]; intros m; cbn; [reflexivity|].
  destruct (isnan x); cbn; now rewrite IH.
Qed.

Lemma fsum_from_sign (P : Qc -> Prop) (l : list float) (acc : Qc) :
  (forall a b, P a -> P b -> P (a + b)%Qc) ->
  P acc ->
  Forall (fun x => exists q, x = Fin q /\ P q) l ->
  exists q, fold_left fadd l (Fin acc) = Fin q /\ P q.
Proof.
  intros Hadd. revert acc. induction l as [|x l IH]; intros acc Hacc F;
    cbn [fold_left]; [eauto|].
  inversion_clear F as [|? ? (q & -> & Hq) F']. cbn [fadd].
  apply IH; auto.
Qed.

Lemma Qc_nonneg_plus (a b : Qc) :
  (0 <= a)%Qc -> (0 <= b)%Qc -> (0 <= a + b)%Qc.
Proof.
  unfold Qcle, Qcplus. cbn [this Q2Qc]. intros Ha Hb.
  rewrite !Qred_correct in *. lra.
Qed.

Lemma Qc_neg_plus (a b : Qc) : (a < 0)%Qc -> (b < 0)%Qc -> (a + b < 0)%Qc.
Proof.
  unfold Qclt, Qcplus. cbn [this Q2Qc]. intros Ha Hb.
  rewrite !Qred_correct in *. lra.
Qed.

Lemma Qc_ratio_nonneg (p l : Qc) :
  (0 <= p)%Qc -> (l < 0)%Qc ->
  qsign (- l) = Gt /\ (0 <= p / - l)%Qc.
Proof.
  intros Hp Hl. split.
  - apply Qcgt_alt. revert Hl. unfold Qclt, Qcopp. cbn [this Q2Qc].
    intros Hl. rewrite !Qred_correct in *. lra.
  - revert Hp Hl. unfold Qcle, Qclt, Qcdiv, Qcmult, Qcinv, Qcopp.
    cbn [this Q2Qc]. intros Hp Hl. rewrite !Qred_correct in *.
    assert (I : (0 < / - this l)%Q) by (apply Qinv_lt_0_compat; lra).
    set (e := (/ - this l)%Q) in *. nra.
Qed.

(** the sum of a non-empty list of negative cells is negative *)
Lemma fsum_negative (l : list float) :
  l <> [] ->
  Forall (fun x => exists q, x = Fin q /\ (q < 0)%Qc) l ->
  exists q, fsum l = Fin q /\ (q < 0)%Qc.
Proof.
  destruct l as [|x l]; [congruence|]. intros _ F.
  inversion_clear F as [|? ? (q & -> & Hq) F']. unfold fsum.
  cbn [fold_left]. change f0 with (Fin 0%Qc). cbn [fadd].
  apply (@fsum_from_sign (fun q => (q < 0)%Qc)); [apply Qc_neg_plus| |exact F'].
  now rewrite Qcplus_0_l.
Qed.

Section SummaryRanges.
Variable sqrt : float -> float.
Variable pow : float -> float -> float.

(** X14.  For a non-empty equity curve of finite values above zero the
    maximum drawdown of [summary] is a finite number in [-1, 0]: a drawdown
    is never positive and never beyond a full loss.  (Over exact numbers it
    stays above -1; the bound -1 is kept in the statement because binary64
    rounding reaches it, as for the curve 1e20, 1000.) *)
Theorem max_drawdown_range (equity returns : Series) :
  equity <> [] ->
  Forall (fun x => is_positive x = true) equity ->
  exists s m,
    summary sqrt pow (PerformanceAnalyzer_init equity returns) = Ok s /\
    max_drawdown s = Fin m /\ (- (1) <= m)%Qc /\ (m <= 0)%Qc.
Proof.
  intros Hne F. destruct (summary_ok sqrt pow returns Hne) as [s Hs].
  exists s.
  assert (Hdd : max_drawdown s
                = series_min (align fdiv (align fsub equity (cummax equity))
                                (cummax equity))).
  { unfold summary in Hs. cbn [PerformanceAnalyzer_init pa_equity] in Hs.
    destruct equity as [|e q]; [congruence|].
    cbn [iloc_last iloc_first bind] in Hs. apply Ok_inj in Hs.
    now subst s. }
  pose proof (drawdown_cells (cummax_from_positive None F I)) as D.
  fold (cummax equity) in D.
  set (dd := align fdiv (align fsub equity (cummax equity))
               (cummax equity)) in *.
  assert (Hnn : Forall (fun x => isnan x = false) dd).
  { apply Forall_forall. intros d Hd. rewrite Forall_forall in D.
    destruct (D d Hd) as (q & -> & _). reflexivity. }
  assert (Hlen : length dd = length equity).
  { assert (Lc : length (cummax equity) = length equity)
      by apply length_cummax_from.
    assert (L1 : length (align fsub equity (cummax equity)) = length equity)
      by (apply length_align_same; now rewrite Lc).
    unfold dd. rewrite length_align_same; [exact L1|now rewrite L1, Lc]. }
  assert (Hd : dd <> []).
  { intros E. rewrite E in Hlen. destruct equity; [congruence|discriminate]. }
  unfold series_min in Hdd. rewrite (dropna_id Hnn) in Hdd.
  pose proof (fmin_list_in Hd) as Hin. rewrite <- Hdd in Hin.
  rewrite Forall_forall in D. destruct (D _ Hin) as (m & Hm & Hlo & Hhi).
  exists m. repeat split; try assumption. now apply Qclt_le_weak.
Qed.

(** X15.  The win rate of [summary] is NaN when no return is valid and a
    fraction in [0, 1] otherwise; the profit factor is NaN when no valid
    return is negative, and with finite returns of which one is negative it
    is a number that is not negative and not NaN.  (It may be infinite: the
    quotient of the two sums is finite over exact numbers, binary64
    overflows it to +inf for the returns 1.0, -1e-320; an overflow of the
    sums themselves is abstracted.) *)
Theorem win_rate_and_profit_factor_ranges (equity returns : Series)
    (s : Summary) :
  summary sqrt pow (PerformanceAnalyzer_init equity returns) = Ok s ->
  (dropna returns = [] -> isnan (win_rate s) = true) /\
  (dropna returns <> [] ->
   exists w, win_rate s = Fin w /\ (0 <= w)%Qc /\ (w <= 1)%Qc) /\
  (existsb lt0 (dropna returns) = false -> isnan (profit_factor s) = true) /\
  (existsb lt0 (dropna returns) = true ->
   Forall (fun x => isfinite x = true) (dropna returns) ->
   fleb f0 (profit_factor s) = true).
Proof.
  intros Hs. destruct (summary_fields _ _ _ Hs) as (_ & _ & _ & Hw & Hpf & _).
  cbn [PerformanceAnalyzer_init pa_returns] in Hw, Hpf.
  pose proof (dropna_nonan returns) as Hn.
  set (r := dropna returns) in *.
  unfold series_sum in Hpf. rewrite !(dropna_filter _ Hn) in Hpf.
  rewrite bool_mean_map in Hw.
  split; [|split; [|split]].
  - intros E. rewrite Hw, E. reflexivity.
  - intros Hne. rewrite Hw. destruct r as [|x r'] eqn:Er; [congruence|].
    rewrite <- Er. clear Hne.
    set (k := length (filter gt0 r)). set (n := length r).
    assert (Hk : k <= n) by apply filter_length_le.
    assert (Hn0 : 0 < n) by (unfold n; rewrite Er; cbn; lia).
    unfold count. fold k. fold n. unfold FZ. cbn [fdiv].
    rewrite qsign_pos by lia. eexists. split; [reflexivity|].
    unfold Qcle, Qcdiv, Qcmult, Qcinv. cbn [this Q2Qc].
    rewrite !Qred_correct. change (Qred 0) with 0%Q.
    change (Qred 1) with 1%Q.
    assert (H0 : (0 <= inject_Z (Z.of_nat k))%Q)
      by (rewrite <- (Zle_Qle 0); lia).
    assert (H1 : (inject_Z (Z.of_nat k) <= inject_Z (Z.of_nat n))%Q)
      by (rewrite <- Zle_Qle; lia).
    assert (H2 : (0 < inject_Z (Z.of_nat n))%Q)
      by (rewrite <- (Zlt_Qlt 0); lia).
    set (K := inject_Z (Z.of_nat k)) in *.
    set (N := inject_Z (Z.of_nat n)) in *.
    assert (E : (N * / N == 1)%Q).
    { field. intros C. rewrite C in H2. now apply Qlt_irrefl in H2. }
    assert (I : (0 < / N)%Q) by now apply Qinv_lt_0_compat.
    set (e := (/ N)%Q) in *. split; nra.
  - intros E. rewrite Hpf, E. reflexivity.
  - intros E Hfin. rewrite Hpf, E.
    destruct (@fsum_from_sign (fun q => (0 <= q)%Qc) (filter gt0 r) 0%Qc)
      as (p & Hp & Hp0).
    { apply Qc_nonneg_plus. }
    { apply Qcle_refl. }
    { apply Forall_forall. intros x Hx. apply filter_In in Hx.
      destruct Hx as [Hx G]. rewrite Forall_forall in Hfin.
      specialize (Hfin x Hx). destruct x as [q| | |]; try discriminate.
      exists q. split; [reflexivity|]. unfold gt0, fgtb in G.
      apply fltb_Fin in G. now apply Qclt_le_weak. }
    destruct (@fsum_negative (filter lt0 r)) as (l & Hl & Hl0).
    { apply existsb_exists in E. destruct E as (x & Hx & G).
      intros C. assert (I : In x (filter lt0 r)) by (apply filter_In; auto).
      now rewrite C in I. }
    { apply Forall_forall. intros x Hx. apply filter_In in Hx.
      destruct Hx as [Hx G]. rewrite Forall_forall in Hfin.
      specialize (Hfin x Hx). destruct x as [q| | |]; try discriminate.
      exists q. split; [reflexivity|]. unfold lt0 in G.
      now apply fltb_Fin in G. }
    change (fold_left fadd (filter gt0 r) (Fin 0%Qc))
      with (fsum (filter gt0 r)) in Hp.
    rewrite Hp, Hl. cbn [fneg fdiv].
    destruct (Qc_ratio_nonneg Hp0 Hl0) as [Hs0 Hr]. rewrite Hs0.
    change f0 with (Fin 0%Qc). now apply fleb_Fin.
Qed.
End SummaryRanges.

Lemma max_drawdown_range_witness :
  [FZ 100; FZ 110; FZ 99] <> [] /\
  Forall (fun x => is_positive x = true) [FZ 100; FZ 110; FZ 99] /\
  exists s m,
    summary sqrt_approx pow_approx
      (PerformanceAnalyzer_init [FZ 100; FZ 110; FZ 99]
         [f0; FQ 1 10; FQ (-1) 10]) = Ok s /\
    max_drawdown s = Fin m /\ (- (1) <= m)%Qc /\ (m <= 0)%Qc.
Proof.
  assert (N : [FZ 100; FZ 110; FZ 99] <> []) by discriminate.
  assert (F : Forall (fun x => is_positive x = true)
                [FZ 100; FZ 110; FZ 99]).
  { repeat (constructor; [reflexivity|]). constructor. }
  split; [exact N|]. split; [exact F|].
  exact (@max_drawdown_range sqrt_approx pow_approx
           [FZ 100; FZ 110; FZ 99] [f0; FQ 1 10; FQ (-1) 10] N F).
Defined.

Lemma win_rate_and_profit_factor_ranges_witness :
  exists s,
    summary sqrt_approx pow_approx
      (PerformanceAnalyzer_init [FZ 100; FZ 110; FZ 99]
         [f0; FQ 1 10; FQ (-1) 10]) = Ok s /\
    (dropna [f0; FQ 1 10; FQ (-1) 10] = [] -> isnan (win_rate s) = true) /\
    (dropna [f0; FQ 1 10; FQ (-1) 10] <> [] ->
     exists w, win_rate s = Fin w /\ (0 <= w)%Qc /\ (w <= 1)%Qc) /\
    (existsb lt0 (dropna [f0; FQ 1 10; FQ (-1) 10]) = false ->
     isnan (profit_factor s) = true) /\
    (existsb lt0 (dropna [f0; FQ 1 10; FQ (-1) 10]) = true ->
     Forall (fun x => isfinite x = true)
       (dropna [f0; FQ 1 10; FQ (-1) 10]) ->
     fleb f0 (profit_factor s) = true).
Proof.
  destruct (summary sqrt_approx pow_approx
              (PerformanceAnalyzer_init [FZ 100; FZ 110; FZ 99]
                 [f0; FQ 1 10; FQ (-1) 10])) as [s|e] eqn:E;
    [|vm_compute in E; discriminate E].
  exists s. split; [reflexivity|].
  exact (@win_rate_and_profit_factor_ranges sqrt_approx pow_approx
           [FZ 100; FZ 110; FZ 99] [f0; FQ 1 10; FQ (-1) 10] s E).
Defined.

(** ** The equity curve of a backtest *)

Ltac qc_to_q :=
  unfold Qclt, Qcle, Qcdiv, Qcmult, Qcinv, Qcplus, Qcminus, Qcopp in *;
  cbn [this Q2Qc] in *; rewrite ?Qred_correct in *;
  unfold inject_Z in *.

Lemma isfinite_prod_upto (f : nat -> float) (t : nat) :
  (forall k, k <= t -> isfinite (f k) = true) ->
  isfinite (prod_upto f t) = true.
Proof.
  induction t as [|t IH]; intros H; cbn [prod_upto]; [now apply H|].
  apply isfinite_fmul; [apply IH; intros k Hk; apply H; lia|now apply H].
Qed.

Lemma is_positive_fmul (x y : float) :
  is_positive x = true -> is_positive y = true ->
  is_positive (x * y)%flt = true.
Proof.
  rewrite !is_positive_Fin. intros (a & -> & Ha) (b & -> & Hb).
  exists (a * b)%Qc. split; [reflexivity|]. qc_to_q. nra.
Qed.

Lemma is_positive_prod_upto (f : nat -> float) (t : nat) :
  (forall k, k <= t -> is_positive (f k) = true) ->
  is_positive (prod_upto f t) = true.
Proof.
  induction t as [|t IH]; intros H; cbn [prod_upto]; [now apply H|].
  apply is_positive_fmul; [apply IH; intros k Hk; apply H; lia|now apply H].
Qed.

Lemma is_positive_price_ok (p : float) :
  is_positive p = true -> price_ok p = true.
Proof.
  destruct p as [q| | |]; try discriminate. cbn. unfold qsign.
  destruct (q ?= 0)%Qc eqn:C; try discriminate. intros _.
  unfold f0, FZ. cbn. change (Q2Qc (inject_Z 0)) with 0%Qc.
  now rewrite C.
Qed.

Lemma long_only_signal_ok (s : float) :
  long_only s = true -> signal_ok s = true.
Proof. now destruct s. Qed.

Lemma Qc_long_only_factor (s a b : Qc) :
  (0 <= s)%Qc -> (s <= 1)%Qc -> (0 < a)%Qc -> (0 < b)%Qc ->
  (0 < 1 + s * (a / b + - (1)))%Qc.
Proof.
  intros Hs0 Hs1 Ha Hb. qc_to_q.
  assert (I : (0 < / this b)%Q) by now apply Qinv_lt_0_compat.
  set (e := (/ this b)%Q) in *. set (A := this a) in *.
  set (S := this s) in *.
  assert (R : (0 < A * e)%Q) by nra.
  set (r := (A * e)%Q) in *. nra.
Qed.

Section EquityProps.
Variables (pad : bool) (price sig : Series) (ic : float).
Hypothesis aligned : length sig = length price.

Lemma long_only_factor (t : nat) :
  Forall (fun p => is_positive p = true) price ->
  Forall (fun s => long_only s = true) sig ->
  t < length price ->
  is_positive (f1 + periodReturn price sig f0 (signalChange sig) t)%flt
  = true.
Proof.
  intros Hp Hs Ht. unfold periodReturn.
  assert (Hc : isfinite (signalChange sig t) = true).
  { destruct t as [|t]; [reflexivity|]. cbn [signalChange].
    apply isfinite_missing_fabs, signal_ok_fsub;
      apply long_only_signal_ok, (cell_Forall Hs); lia. }
  rewrite (fmul_0_l _ Hc), fsub_0_r.
  destruct t as [|t]; [reflexivity|]. cbn [position priceReturn].
  pose proof (cell_Forall Hp Ht) as Pa.
  pose proof (@cell_Forall _ price t Hp ltac:(lia)) as Pb.
  cbn beta in Pa, Pb. apply is_positive_Fin in Pa, Pb.
  destruct Pa as (a & -> & Ha). destruct Pb as (b & -> & Hb).
  assert (Sb : qsign b = Gt) by now apply Qcgt_alt.
  pose proof (@cell_Forall _ sig t Hs ltac:(lia)) as Ps. cbn beta in Ps.
  destruct (cell sig t) as [s| | |] eqn:Es; try discriminate.
  - cbn [missing_as_0 isnan]. unfold long_only in Ps. cbn [isnan orb] in Ps.
    apply andb_prop in Ps. destruct Ps as [Ps0 Ps1].
    unfold f0, f1, FZ in Ps0, Ps1. apply fleb_Fin in Ps0, Ps1.
    unfold f1, FZ. cbn [fdiv fsub fneg fadd fmul]. rewrite Sb.
    apply is_positive_Fin. eexists. split; [reflexivity|].
    now apply Qc_long_only_factor.
  - cbn [missing_as_0 isnan]. rewrite fmul_0_l; [reflexivity|].
    unfold f1, FZ. cbn [fdiv fsub fneg fadd]. now rewrite Sb.
Qed.
End EquityProps.

Lemma is_positive_nonneg (x : float) :
  is_positive x = true -> isfinite x = true /\ fleb f0 x = true.
Proof.
  intros H. apply is_positive_Fin in H. destruct H as (q & -> & Hq).
  split; [reflexivity|]. change f0 with (Fin 0%Qc).
  now apply fleb_Fin, Qclt_le_weak.
Qed.

(** X16.  On finite non-zero prices, an aligned signal of finite or missing
    cells, a finite cost and a finite capital, every period return stored by
    [backtest] and every point of its equity curve is a finite number: no
    NaN and no infinity appears. *)
Theorem backtest_equity_finite (pad : bool) (self : TradingStrategy)
    (data : DataFrame) (price sig : Series) (ic tc : float) :
  getcol data (price_col self) = Ok price ->
  generate_signals self ic data = Ok sig ->
  length sig = length price ->
  Forall (fun p => price_ok p = true) price ->
  Forall (fun s => signal_ok s = true) sig ->
  isfinite tc = true -> isfinite ic = true ->
  exists equity rets self',
    backtest pad self data ic tc = Ok (equity, self') /\
    returns self' = Some rets /\ equity_curve self' = Some equity /\
    length equity = length price /\ length rets = length price /\
    Forall (fun e => isfinite e = true) equity /\
    Forall (fun r => isfinite r = true) rets.
Proof.
  intros Hp Hs L Hpr Hsg Htc Hic.
  set (l := backtest_compute pad price sig ic tc).
  exists (l_equity l), (l_strat_ret l). unfold backtest, backtest_run.
  rewrite Hp. cbn [bind]. rewrite Hs. cbn [bind]. fold l.
  eexists. split; [reflexivity|]. cbn [returns equity_curve].
  split; [reflexivity|]. split; [reflexivity|].
  pose proof (@length_l_equity pad price sig ic tc L) as Le.
  pose proof (@length_l_strat_ret pad price sig ic tc L) as Lr.
  split; [exact Le|]. split; [exact Lr|]. split.
  - apply Forall_cell. intros t Ht. fold l in Le. rewrite Le in Ht.
    unfold l. rewrite cell_l_equity by assumption. unfold equityAt.
    apply isfinite_fmul; [assumption|]. apply isfinite_prod_upto.
    intros k Hk. apply isfinite_fadd; [reflexivity|].
    apply isfinite_periodReturn; try assumption. lia.
  - apply Forall_cell. intros t Ht. fold l in Lr. rewrite Lr in Ht.
    unfold l. rewrite cell_l_strat_ret by assumption.
    now apply isfinite_periodReturn.
Qed.

(** X17.  A long-only strategy without leverage (every signal missing or
    between 0 and 1) backtested without transaction cost on finite prices
    above zero, from a capital above zero, keeps its equity finite and never
    negative at every period: it cannot lose more than its capital.  (Over
    exact numbers the equity stays above zero; zero is kept in the statement
    because binary64 rounding reaches it, as for the prices 1e20, 1000 held
    with signal 1.  An overflow of a price ratio or of the running product
    is abstracted.) *)
Theorem long_only_equity_positive (pad : bool) (self : TradingStrategy)
    (data : DataFrame) (price sig : Series) (ic : float) :
  getcol data (price_col self) = Ok price ->
  generate_signals self ic data = Ok sig ->
  length sig = length price ->
  Forall (fun p => is_positive p = true) price ->
  Forall (fun s => long_only s = true) sig ->
  is_positive ic = true ->
  exists equity self',
    backtest pad self data ic f0 = Ok (equity, self') /\
    length equity = length price /\
    Forall (fun e => isfinite e = true /\ fleb f0 e = true) equity.
Proof.
  intros Hp Hs L Hpr Hsg Hic.
  set (l := backtest_compute pad price sig ic f0).
  exists (l_equity l). unfold backtest, backtest_run.
  rewrite Hp. cbn [bind]. rewrite Hs. cbn [bind]. fold l.
  eexists. split; [reflexivity|].
  pose proof (@length_l_equity pad price sig ic f0 L) as Le.
  split; [exact Le|].
  assert (Hpo : Forall (fun p => price_ok p = true) price).
  { revert Hpr. apply Forall_impl. exact is_positive_price_ok. }
  assert (Hso : Forall (fun s => signal_ok s = true) sig).
  { revert Hsg. apply Forall_impl. exact long_only_signal_ok. }
  apply Forall_cell. intros t Ht. fold l in Le. rewrite Le in Ht.
  unfold l. rewrite cell_l_equity by (try assumption; reflexivity).
  unfold equityAt. apply is_positive_nonneg.
  apply is_positive_fmul; [assumption|].
  apply is_positive_prod_upto. intros k Hk.
  apply long_only_factor; try assumption. lia.
Qed.

Lemma backtest_equity_finite_witness :
  exists equity rets self',
    backtest true (fixed_signal_strategy [f0; FZ 1; FZ 1]) example_data
      (FZ 10000) (FQ 1 100) = Ok (equity, self') /\
    returns self' = Some rets /\ equity_curve self' = Some equity /\
    length equity = length prices_100_110_121 /\
    length rets = length prices_100_110_121 /\
    Forall (fun e => isfinite e = true) equity /\
    Forall (fun r => isfinite r = true) rets.
Proof.
  apply (@backtest_equity_finite true (fixed_signal_strategy [f0; FZ 1; FZ 1])
           example_data prices_100_110_121 [f0; FZ 1; FZ 1] (FZ 10000)
           (FQ 1 100)); try reflexivity.
  - repeat (constructor; [reflexivity|]). constructor.
  - repeat (constructor; [reflexivity|]). constructor.
Defined.

Lemma long_only_equity_positive_witness :
  exists equity self',
    backtest true (fixed_signal_strategy [NaN; FQ 1 2; FZ 1]) example_data
      (FZ 10000) f0 = Ok (equity, self') /\
    length equity = length prices_100_110_121 /\
    Forall (fun e => isfinite e = true /\ fleb f0 e = true) equity.
Proof.
  apply (@long_only_equity_positive true
           (fixed_signal_strategy [NaN; FQ 1 2; FZ 1]) example_data
           prices_100_110_121 [NaN; FQ 1 2; FZ 1] (FZ 10000));
    try reflexivity.
  - repeat (constructor; [reflexivity|]). constructor.
  - repeat (constructor; [reflexivity|]). constructor.
Defined.

(** ** The cache files of DataManager._save_split *)

Lemma chunks_concat {A} (c : nat) (k : nat) (df : list A) :
  length df <= k * c ->
  concat (map (fun j => firstn c (skipn (j * c) df)) (seq 0 k)) = df.
Proof.
  revert df. induction k as [|k IH]; intros df H.
  - destruct df; [reflexivity|cbn in H; lia].
  - cbn [seq map concat]. rewrite <- seq_shift, map_map. cbn [Nat.mul].
    change (skipn 0 df) with df.
    transitivity (firstn c df ++ skipn c df); [|apply firstn_skipn]. f_equal.
    rewrite <- (IH (skipn c df)) at 1.
    + f_equal. apply map_ext. intros j.
      now rewrite skipn_skipn, Nat.add_comm.
    + rewrite length_skipn. cbn in H. lia.
Qed.

Lemma nth_error_seq0 (k j j' : nat) :
  nth_error (seq 0 k) j = Some j' -> j' = j /\ j < k.
Proof.
  intros H.
  assert (L : j < length (seq 0 k)) by (apply nth_error_Some; congruence).
  rewrite length_seq in L.
  split; [|assumption].
  apply (nth_error_nth _ _ 0) in H. rewrite seq_nth in H by assumption.
  cbn in H. congruence.
Qed.

Lemma save_split_chunk_ok (max_file_size mem : Z) (n : nat) :
  (0 < mem)%Z ->
  exists chunk,
    save_split_chunk max_file_size mem n = Ok chunk /\ (1 <= chunk)%Z.
Proof.
  intros Hm. unfold save_split_chunk.
  set (n' := match n with O => 1%Z | _ => Z.of_nat n end).
  assert (Hn : (0 < n')%Z) by (unfold n'; destruct n; lia).
  unfold FZ. cbn [fdiv]. rewrite (qsign_pos Hn).
  assert (Hq : qsign (Q2Qc (inject_Z mem) / Q2Qc (inject_Z n')) = Gt).
  { apply Qcgt_alt. unfold Qclt, Qcdiv, Qcmult, Qcinv. cbn [this Q2Qc].
    rewrite !Qred_correct.
    assert (H1 : (0 < inject_Z mem)%Q) by (rewrite <- (Zlt_Qlt 0); lia).
    assert (H2 : (0 < inject_Z n')%Q) by (rewrite <- (Zlt_Qlt 0); lia).
    apply Qmult_lt_0_compat; [assumption|now apply Qinv_lt_0_compat]. }
  rewrite Hq. cbn [py_int_of_float bind]. eexists. split; [reflexivity|].
  lia.
Qed.

Section SaveSplitProps.
Variable Row : Type.

(** X18.  When [_save_split] returns, the files it wrote hold the rows of
    the frame in order, each row exactly once: the parts are numbered 1, 2,
    ... without a gap, none is empty, every part but the last has exactly
    [chunk] rows and the last at most [chunk], for one [chunk >= 1]; an
    empty frame writes no file.  It returns whenever the memory measured is
    above zero. *)
Theorem save_split_partitions (max_file_size mem : Z) (df : list Row) :
  ((0 < mem)%Z ->
   exists parts, _save_split max_file_size mem df = Ok parts) /\
  forall parts,
    _save_split max_file_size mem df = Ok parts ->
    concat (map snd parts) = df /\
    map fst parts = map Z.of_nat (seq 1 (length parts)) /\
    Forall (fun p => snd p <> []) parts /\
    (df = [] -> parts = []) /\
    exists chunk,
      1 <= chunk /\
      (forall j p, nth_error parts j = Some p ->
         length (snd p) <= chunk /\
         (S j < length parts -> length (snd p) = chunk)).
Proof.
  split.
  - intros Hm. unfold _save_split.
    destruct (save_split_chunk_ok max_file_size (length df) Hm)
      as (chunk & -> & Hc).
    cbn [bind]. unfold py_range. destruct chunk as [|p|p]; try lia.
    cbn [bind]. eauto.
  - intros parts H. unfold _save_split in H.
    destruct (save_split_chunk max_file_size mem (length df))
      as [chunk|] eqn:Ec; [|discriminate].
    cbn [bind] in H.
    assert (Hc : (1 <= chunk)%Z).
    { unfold save_split_chunk in Ec.
      destruct (py_int_of_float _) as [c|]; [|discriminate].
      cbn [bind] in Ec. apply Ok_inj in Ec. lia. }
    unfold py_range in H. destruct chunk as [|p|p]; try lia.
    cbn [bind] in H. apply Ok_inj in H.
    set (c := Pos.to_nat p).
    assert (Hc0 : 0 < c) by (unfold c; lia).
    set (n := length df) in *.
    set (k := Z.to_nat (if (0 <? Z.of_nat n)%Z
                        then ((Z.of_nat n - 0 - 1) / Z.pos p + 1)%Z
                        else 0%Z)) in *.
    assert (Hk : n <= k * c /\ (0 < n -> (k - 1) * c < n) /\
                 (n = 0 -> k = 0)).
    { unfold k. destruct (0 <? Z.of_nat n)%Z eqn:E.
      - apply Z.ltb_lt in E.
        set (d := ((Z.of_nat n - 0 - 1) / Z.pos p)%Z).
        assert (Hd0 : (0 <= d)%Z) by (apply Z.div_pos; lia).
        pose proof (Z.mul_div_le (Z.of_nat n - 0 - 1) (Z.pos p)
                      ltac:(lia)) as L1.
        pose proof (Z.mul_succ_div_gt (Z.of_nat n - 0 - 1) (Z.pos p)
                      ltac:(lia)) as L2.
        fold d in L1, L2. unfold c.
        replace (Z.to_nat (d + 1)) with (S (Z.to_nat d)) by lia.
        split; [nia|]. split; [|lia]. intros _.
        replace (S (Z.to_nat d) - 1) with (Z.to_nat d) by lia. nia.
      - apply Z.ltb_ge in E. cbn. split; [lia|]. split; lia. }
    destruct Hk as (Hk1 & Hk2 & Hk3).
    assert (Hparts : parts
              = map (fun j => (Z.of_nat (S j),
                               firstn c (skipn (j * c) df))) (seq 0 k)).
    { rewrite <- H, map_map. apply map_ext_in. intros j Hj.
      apply in_seq in Hj. f_equal.
      - replace (0 + Z.of_nat j * Z.pos p)%Z with (Z.of_nat j * Z.pos p)%Z
          by lia.
        rewrite Z.div_mul by lia. lia.
      - unfold iloc_slice, c. f_equal. f_equal. lia. }
    assert (Lp : length parts = k)
      by now rewrite Hparts, length_map, length_seq.
    split; [|split; [|split; [|split]]].
    + rewrite Hparts, map_map. cbn [snd]. now apply chunks_concat.
    + rewrite Lp, Hparts, map_map. cbn [fst].
      rewrite <- seq_shift, map_map. reflexivity.
    + rewrite Hparts. apply Forall_forall. intros q Hq.
      apply in_map_iff in Hq. destruct Hq as (j & <- & Hj).
      apply in_seq in Hj. cbn [snd]. intros E.
      apply (f_equal (@length Row)) in E.
      rewrite length_firstn, length_skipn in E. cbn [length] in E.
      fold n in E.
      assert (j * c <= (k - 1) * c) by (apply Nat.mul_le_mono_r; lia).
      assert (0 < n) by (destruct n; [specialize (Hk3 eq_refl); lia|lia]).
      specialize (Hk2 ltac:(lia)). lia.
    + intros E. rewrite Hparts.
      assert (K : k = 0) by (apply Hk3; unfold n; now rewrite E).
      now rewrite K.
    + exists c. split; [lia|]. intros j q Hj. rewrite Hparts in Hj.
      rewrite nth_error_map in Hj.
      destruct (nth_error (seq 0 k) j) as [j'|] eqn:Ej; [|discriminate].
      cbn in Hj. injection Hj as <-. cbn [snd].
      apply nth_error_seq0 in Ej. destruct Ej as [-> Hjk].
      rewrite length_firstn, length_skipn. fold n.
      split; [lia|]. intros Hlast. rewrite Lp in Hlast.
      assert (S j * c <= (k - 1) * c) by (apply Nat.mul_le_mono_r; lia).
      assert (0 < n) by (destruct n; [specialize (Hk3 eq_refl); lia|lia]).
      specialize (Hk2 ltac:(lia)). cbn in H0. lia.
Qed.
End SaveSplitProps.

(** ** Strategy collections *)

Lemma dict_mem_in {V} (d : dict V) (k : string) :
  dict_mem d k = true <-> In k (map fst d).
Proof.
  unfold dict_mem. split.
  - destruct (lookup d k) as [v|] eqn:E; [|discriminate]. intros _.
    apply lookup_Some_in in E. change k with (fst (k, v)). now apply in_map.
  - intros H. apply lookup_in in H. destruct H as [v ->]. reflexivity.
Qed.

Lemma add_strategy_spec (d : dict TradingStrategy) (s : TradingStrategy) :
  (In (name s) (map fst d) /\ add_strategy d s = d) \/
  (~ In (name s) (map fst d) /\ add_strategy d s = d ++ [(name s, s)]).
Proof.
  unfold add_strategy. destruct (dict_mem d (name s)) eqn:E.
  - left. split; [now apply dict_mem_in|reflexivity].
  - right. assert (N : ~ In (name s) (map fst d)).
    { intros I. apply dict_mem_in in I. congruence. }
    split; [assumption|now apply dict_set_new].
Qed.

Lemma add_strategy_keyed (d : dict TradingStrategy) (s : TradingStrategy) :
  keyed_by_name d -> keyed_by_name (add_strategy d s).
Proof.
  intros [N F]. destruct (add_strategy_spec d s) as [[_ ->]|[Hn ->]];
    [now split|]. split.
  - rewrite map_app. cbn [map fst].
    rewrite <- (rev_involutive (map fst d ++ [name s])).
    apply NoDup_rev. rewrite rev_app_distr. cbn.
    constructor; [now rewrite <- in_rev|now apply NoDup_rev].
  - apply Forall_app. split; [assumption|]. now repeat constructor.
Qed.

Lemma add_strategy_lookup (d : dict TradingStrategy) (s : TradingStrategy)
    (n : string) :
  lookup (add_strategy d s) n
  = match lookup d n with
    | Some s0 => Some s0
    | None => if String.eqb (name s) n then Some s else None
    end.
Proof.
  unfold add_strategy, dict_mem.
  destruct (lookup d (name s)) as [s1|] eqn:E.
  - destruct (lookup d n) as [s0|] eqn:En; [reflexivity|].
    destruct (String.eqb (name s) n) eqn:B; [|reflexivity].
    apply String.eqb_eq in B. congruence.
  - destruct (String.eqb (name s) n) eqn:B.
    + apply String.eqb_eq in B. subst n. rewrite E.
      apply lookup_dict_set_same.
    + apply String.eqb_neq in B. rewrite (lookup_dict_set_other _ _ B).
      now destruct (lookup d n).
Qed.

Lemma collect_keyed (strats : list TradingStrategy)
    (d : dict TradingStrategy) :
  keyed_by_name d -> keyed_by_name (fold_left add_strategy strats d).
Proof.
  revert d. induction strats as [|s strats IH]; intros d H; [assumption|].
  cbn [fold_left]. apply IH. now apply add_strategy_keyed.
Qed.

Lemma collect_lookup (strats : list TradingStrategy)
    (d : dict TradingStrategy) (n : string) :
  lookup (fold_left add_strategy strats d) n
  = match lookup d n with
    | Some s0 => Some s0
    | None => find (fun s => String.eqb (name s) n) strats
    end.
Proof.
  revert d. induction strats as [|s strats IH]; intros d; cbn [fold_left find].
  - now destruct (lookup d n).
  - rewrite IH, add_strategy_lookup. destruct (lookup d n); [reflexivity|].
    now destruct (String.eqb (name s) n).
Qed.

Lemma collect_length (strats : list TradingStrategy)
    (d : dict TradingStrategy) :
  length (fold_left add_strategy strats d) <= length d + length strats.
Proof.
  revert d. induction strats as [|s strats IH]; intros d; cbn [fold_left].
  - cbn. lia.
  - specialize (IH (add_strategy d s)).
    destruct (add_strategy_spec d s) as [[_ E]|[_ E]]; rewrite E in IH |- *.
    + cbn. lia.
    + rewrite length_app in IH. cbn in *. lia.
Qed.

Lemma collect_distinct (strats : list TradingStrategy)
    (d : dict TradingStrategy) :
  NoDup (map fst d ++ map name strats) ->
  fold_left add_strategy strats d
  = d ++ map (fun s => (name s, s)) strats.
Proof.
  revert d. induction strats as [|s strats IH]; intros d N; cbn.
  - now rewrite app_nil_r.
  - assert (Hn : ~ In (name s) (map fst d)).
    { intros I. cbn in N. apply NoDup_remove_2 in N. apply N.
      apply in_or_app. now left. }
    destruct (add_strategy_spec d s) as [[I _]|[_ ->]]; [contradiction|].
    rewrite IH.
    + now rewrite <- app_assoc.
    + rewrite map_app, <- app_assoc. exact N.
Qed.

Lemma find_name_in (strats : list TradingStrategy) (n : string) :
  In n (map name strats) <->
  exists s, find (fun s => String.eqb (name s) n) strats = Some s.
Proof.
  induction strats as [|s strats IH]; cbn.
  - split; [contradiction|]. intros [s H]. discriminate.
  - destruct (String.eqb (name s) n) eqn:B.
    + apply String.eqb_eq in B. split; eauto.
    + apply String.eqb_neq in B. rewrite <- IH. tauto.
Qed.

(** X19.  A collection built from a list of strategies never raises, keeps
    every name once and, of the strategies that share a name, the first of
    the list: looking a name up gives the first strategy of the list with
    that name, it holds at most as many strategies as the list, and holds
    the list itself when its names are distinct. *)
Theorem collection_from_list_keeps_first
    (strategy_cls : option StrategyClass)
    (param_grid : option (dict (list pyval)))
    (strats : list TradingStrategy) :
  exists c,
    StrategyCollection_init strategy_cls param_grid (Some strats) = Ok c /\
    NoDup (names c) /\
    (forall n,
       lookup (sc_strategies c) n
       = find (fun s => String.eqb (name s) n) strats) /\
    (forall n, In n (names c) <-> In n (map name strats)) /\
    len c <= length strats /\
    (NoDup (map name strats) -> iter c = strats).
Proof.
  eexists. split; [reflexivity|]. unfold names, len, iter.
  cbn [sc_strategies].
  assert (K : keyed_by_name (fold_left add_strategy strats [])).
  { apply collect_keyed. split; constructor. }
  assert (L : forall n,
            lookup (fold_left add_strategy strats []) n
            = find (fun s => String.eqb (name s) n) strats).
  { intros n. now rewrite collect_lookup. }
  split; [apply K|]. split; [exact L|]. split; [|split].
  - intros n. rewrite find_name_in. setoid_rewrite <- L. split.
    + intros I. now apply lookup_in.
    + intros [s E]. apply lookup_Some_in in E.
      change n with (fst (n, s)). now apply in_map.
  - apply (collect_length strats []).
  - intros N. rewrite (@collect_distinct strats []) by exact N.
    cbn [app]. rewrite map_map. cbn [snd]. apply map_id.
Qed.

Lemma generate_keyed (cls : StrategyClass) (cands : list kwargs)
    (d : dict TradingStrategy) :
  keyed_by_name d ->
  keyed_by_name
    (fold_left (fun acc params =>
                  match construct cls params with
                  | Ok strat => add_strategy acc strat
                  | Raise _ => acc
                  end) cands d).
Proof.
  revert d. induction cands as [|p cands IH]; intros d H; [assumption|].
  cbn [fold_left]. apply IH. destruct (construct cls p); [|assumption].
  now apply add_strategy_keyed.
Qed.

Lemma generate_length (cls : StrategyClass) (cands : list kwargs)
    (d : dict TradingStrategy) :
  length
    (fold_left (fun acc params =>
                  match construct cls params with
                  | Ok strat => add_strategy acc strat
                  | Raise _ => acc
                  end) cands d)
  <= length d + length cands.
Proof.
  revert d. induction cands as [|p cands IH]; intros d; cbn [fold_left].
  - cbn. lia.
  - match goal with |- length (fold_left _ _ ?d') <= _ =>
      specialize (IH d') end.
    destruct (construct cls p) as [s|]; [|cbn; lia].
    destruct (add_strategy_spec d s) as [[_ E]|[_ E]]; rewrite E in IH |- *.
    + cbn. lia.
    + rewrite length_app in IH. cbn in *. lia.
Qed.

Lemma generate_origin (cls : StrategyClass) (cands : list kwargs)
    (d : dict TradingStrategy) (n : string) (s : TradingStrategy) :
  In (n, s)
    (fold_left (fun acc params =>
                  match construct cls params with
                  | Ok strat => add_strategy acc strat
                  | Raise _ => acc
                  end) cands d) ->
  In (n, s) d \/
  exists params, In params cands /\ construct cls params = Ok s.
Proof.
  revert d. induction cands as [|p cands IH]; intros d H; [now left|].
  cbn [fold_left] in H. apply IH in H. destruct H as [H|(q & Hq & E)].
  - destruct (construct cls p) as [s0|] eqn:C; [|now left].
    destruct (add_strategy_spec d s0) as [[_ E]|[_ E]]; rewrite E in H;
      [now left|].
    apply in_app_or in H. destruct H as [H|[[= <- <-]|[]]]; [now left|].
    right. exists p. split; [now left|assumption].
  - right. exists q. split; [now right|assumption].
Qed.

Lemma build_grid_from_config_loop_eq (config : dict param_spec)
    (grid : dict (list pyval)) :
  build_grid_from_config_loop config grid = build_grid config grid.
Proof.
  revert grid. induction config as [|[param spec] config IH]; intros grid;
    [reflexivity|].
  cbn [build_grid_from_config_loop build_grid].
  assert (E : config_values spec = spec_grid spec) by now destruct spec.
  rewrite E. destruct (spec_grid spec); cbn [bind]; [apply IH|reflexivity].
Qed.

(** X20.  A collection built from a class and a grid never raises, whatever
    the constructor does: a candidate whose constructor raises is skipped.
    Every strategy it holds was built by the constructor from a candidate of
    the grid and is stored under its own name, each name once; it holds at
    most one strategy per candidate, and at most one in all when the class
    gives every instance the same name. *)
Theorem collection_from_grid (cls : StrategyClass)
    (grid : dict (list pyval)) :
  exists c,
    StrategyCollection_init (Some cls) (Some grid) None = Ok c /\
    sc_param_grid c = Some grid /\
    NoDup (names c) /\
    len c <= grid_size grid /\
    (forall n s,
       lookup (sc_strategies c) n = Some s ->
       name s = n /\
       exists params,
         In params (grid_candidates grid) /\ construct cls params = Ok s) /\
    (forall fixed,
       (forall params s, construct cls params = Ok s -> name s = fixed) ->
       len c <= 1).
Proof.
  eexists. split; [reflexivity|]. cbn [sc_param_grid]. split; [reflexivity|].
  unfold names, len. cbn [sc_strategies]. unfold _generate_strategies.
  fold (_generate_strategies cls grid []).
  set (d := _generate_strategies cls grid []).
  assert (K : keyed_by_name d).
  { apply (generate_keyed cls (grid_candidates grid)). split; constructor. }
  assert (O : forall n s, In (n, s) d ->
                name s = n /\
                exists params,
                  In params (grid_candidates grid) /\
                  construct cls params = Ok s).
  { intros n s I. split.
    - destruct K as [_ F]. rewrite Forall_forall in F. exact (F _ I).
    - unfold d, _generate_strategies in I. apply generate_origin in I.
      destruct I as [[]|I]. exact I. }
  split; [apply K|]. split; [|split].
  - pose proof (generate_length cls (grid_candidates grid) []) as L.
    change (length d <= length (@nil (string * TradingStrategy))
                       + length (grid_candidates grid)) in L.
    cbn [length plus] in L.
    unfold grid_candidates in L. rewrite length_map, length_product in L.
    unfold grid_size. 
    assert (E : forall g : dict (list pyval),
              fold_right (fun l acc => length l * acc) 1 (map snd g)
              = fold_right (fun kv acc => length (snd kv) * acc) 1 g).
    { induction g as [|[k v] g IHg]; cbn; [reflexivity|now rewrite IHg]. }
    now rewrite <- E.
  - intros n s E. apply O. now apply lookup_Some_in.
  - intros fixed Hf. destruct K as [N _].
    assert (A : forall kv, In kv d -> fst kv = fixed).
    { intros [n s] I. destruct (O n s I) as [Hn (p & _ & C)].
      cbn. rewrite <- Hn. exact (Hf p s C). }
    destruct d as [|kv1 [|kv2 d']]; cbn; try lia.
    exfalso. cbn in N. inversion_clear N as [|? ? N1 _]. apply N1.
    left. rewrite (A kv1), (A kv2); [reflexivity|right; now left|now left].
Qed.

(** X21.  [StrategyCollection._build_grid_from_config] builds the grid that
    [Optimizer.__init__] builds: for a class the default collection is made
    from the candidates that [optimize_grid] evaluates, and it can be built
    exactly when the optimizer can. *)
Theorem collection_grid_is_optimizer_grid (cls : StrategyClass) :
  (forall config, _build_grid_from_config config = build_grid config []) /\
  ((exists c, StrategyCollection_init (Some cls) None None = Ok c) <->
   (exists opt, Optimizer_init cls = Ok opt)) /\
  (forall c opt,
     StrategyCollection_init (Some cls) None None = Ok c ->
     Optimizer_init cls = Ok opt ->
     sc_param_grid c = Some (param_grid opt) /\
     sc_strategies c = _generate_strategies cls (param_grid opt) []).
Proof.
  assert (B : forall config,
            _build_grid_from_config config = build_grid config []).
  { intros config. apply build_grid_from_config_loop_eq. }
  split; [exact B|]. unfold StrategyCollection_init, Optimizer_init.
  destruct (cls_param_config cls) as [config|].
  - rewrite B. destruct (build_grid config []) as [g|e]; cbn [bind].
    + split; [split; eauto|]. intros c opt [= <-] [= <-]. split; reflexivity.
    + split; [split; intros [x H]; discriminate|]. intros c opt H.
      discriminate.
  - cbn [bind]. split; [split; intros [x H]; discriminate|].
    intros c opt H. discriminate.
Qed.

(** ** Saved strategies *)

Lemma string_app_inv_head (p a b : string) :
  (p ++ a)%string = (p ++ b)%string -> a = b.
Proof.
  induction p as [|c p IH]; cbn; [trivial|]. intros [= H]. now apply IH.
Qed.

Lemma list_ascii_of_string_app (a b : string) :
  list_ascii_of_string (a ++ b)
  = list_ascii_of_string a ++ list_ascii_of_string b.
Proof.
  induction a as [|c a IH]; cbn; [reflexivity|]. now rewrite IH.
Qed.

Lemma string_app_inv_tail (a b s : string) :
  (a ++ s)%string = (b ++ s)%string -> a = b.
Proof.
  intros H. apply (f_equal list_ascii_of_string) in H.
  rewrite !list_ascii_of_string_app in H. apply app_inv_tail in H.
  rewrite <- (string_of_list_ascii_of_string a),
    <- (string_of_list_ascii_of_string b).
  now rewrite H.
Qed.

Lemma sanitized_separator (c : Ascii.ascii) :
  is_separator c = true ->
  (if Ascii.eqb (if Ascii.eqb c space then underscore else c) slash
   then underscore else if Ascii.eqb c space then underscore else c)
  = underscore.
Proof.
  unfold is_separator. destruct (Ascii.eqb c space); [reflexivity|].
  destruct (Ascii.eqb c slash); [reflexivity|]. cbn [orb].
  intros H. now apply Ascii.eqb_eq in H.
Qed.

Lemma sanitized_other (c : Ascii.ascii) :
  is_separator c = false ->
  (if Ascii.eqb (if Ascii.eqb c space then underscore else c) slash
   then underscore else if Ascii.eqb c space then underscore else c)
  = c.
Proof.
  unfold is_separator. destruct (Ascii.eqb c space); [discriminate|].
  destruct (Ascii.eqb c slash); [discriminate|]. reflexivity.
Qed.

Lemma sanitized_char_eq (c1 c2 : Ascii.ascii) :
  (if Ascii.eqb (if Ascii.eqb c1 space then underscore else c1) slash
   then underscore else if Ascii.eqb c1 space then underscore else c1)
  = (if Ascii.eqb (if Ascii.eqb c2 space then underscore else c2) slash
     then underscore else if Ascii.eqb c2 space then underscore else c2)
  <-> c1 = c2 \/ (is_separator c1 = true /\ is_separator c2 = true).
Proof.
  destruct (is_separator c1) eqn:S1; destruct (is_separator c2) eqn:S2;
    rewrite ?(sanitized_separator _ S1), ?(sanitized_separator _ S2),
      ?(sanitized_other _ S1), ?(sanitized_other _ S2).
  - tauto.
  - split.
    + intros <-. discriminate S2.
    + intros [->|[_ H]]; [congruence|discriminate H].
  - split.
    + intros ->. discriminate S1.
    + intros [->|[H _]]; [congruence|discriminate H].
  - split; [tauto|]. intros [E|[H _]]; [assumption|discriminate H].
Qed.

Lemma sanitized_eq (n1 n2 : string) :
  replace_char slash underscore (replace_char space underscore n1)
  = replace_char slash underscore (replace_char space underscore n2)
  <-> same_file_name n1 n2.
Proof.
  unfold same_file_name. revert n2.
  induction n1 as [|c1 n1 IH]; intros [|c2 n2];
    cbn [replace_char list_ascii_of_string].
  - split; [constructor|reflexivity].
  - split; [discriminate|]. intros H. inversion H.
  - split; [discriminate|]. intros H. inversion H.
  - split.
    + intros [= Hc Hr]. constructor; [now apply sanitized_char_eq|].
      now apply IH.
    + intros H. inversion_clear H as [|? ? ? ? Hc Hr].
      apply sanitized_char_eq in Hc. apply IH in Hr. now rewrite Hc, Hr.
Qed.

Lemma strategy_path_eq (mgr : StrategyManager) (n1 n2 : string) :
  strategy_path mgr n1 = strategy_path mgr n2 <-> same_file_name n1 n2.
Proof.
  rewrite <- sanitized_eq. unfold strategy_path, strategy_file. split.
  - intros H. apply string_app_inv_head in H.
    apply string_app_inv_head in H. now apply string_app_inv_tail in H.
  - now intros ->.
Qed.

(** X22.  [StrategyManager.load] returns the strategy last saved under a
    name of the same file, and two names share a file exactly when they
    have the same length and agree at every position up to the choice among
    space, slash and underscore: loading the name of a saved strategy gives
    it back, and saving under [a b] replaces what was saved under [a_b] or
    [a/b]. *)
Theorem load_returns_last_saved_of_file (mgr : StrategyManager)
    (fs : file_system) (s : TradingStrategy) :
  StrategyManager_load mgr (StrategyManager_save mgr fs s) (name s) = Ok s /\
  (forall n,
     strategy_path mgr n = strategy_path mgr (name s) <->
     same_file_name n (name s)) /\
  (forall n,
     same_file_name n (name s) ->
     StrategyManager_load mgr (StrategyManager_save mgr fs s) n = Ok s) /\
  (forall n,
     ~ same_file_name n (name s) ->
     StrategyManager_load mgr (StrategyManager_save mgr fs s) n
     = StrategyManager_load mgr fs n) /\
  same_file_name "a b" "a_b" /\ same_file_name "a/b" "a_b".
Proof.
  unfold StrategyManager_load, StrategyManager_save.
  split; [now rewrite lookup_dict_set_same|].
  split; [intros n; apply strategy_path_eq|]. split; [|split].
  - intros n H. apply (strategy_path_eq mgr) in H. rewrite H.
    now rewrite lookup_dict_set_same.
  - intros n H. rewrite lookup_dict_set_other; [reflexivity|].
    intros E. apply H. apply (strategy_path_eq mgr). now symmetry.
  - split; apply sanitized_eq; reflexivity.
Qed.

Lemma init_keyed (strategy_cls : option StrategyClass)
    (param_grid : option (dict (list pyval)))
    (strategies : option (list TradingStrategy)) (c : StrategyCollection) :
  StrategyCollection_init strategy_cls param_grid strategies = Ok c ->
  keyed_by_name (sc_strategies c).
Proof.
  unfold StrategyCollection_init. destruct strategies as [strats|].
  - intros [= <-]. apply collect_keyed. split; constructor.
  - destruct strategy_cls as [cls|]; [|discriminate].
    destruct (match param_grid with Some g => Ok g | None => _ end)
      as [g|]; [|discriminate].
    cbn [bind]. intros [= <-]. cbn [sc_strategies].
    apply (generate_keyed cls (grid_candidates g)). split; constructor.
Qed.

Lemma save_fold_other (mgr : StrategyManager)
    (strats : list TradingStrategy) (fs : file_system) (p : string) :
  ~ In p (map (fun s => strategy_path mgr (name s)) strats) ->
  lookup (fold_left (StrategyManager_save mgr) strats fs) p = lookup fs p.
Proof.
  revert fs. induction strats as [|x l IH]; intros fs Hn; [reflexivity|].
  cbn [fold_left]. rewrite IH by (intros J; apply Hn; now right).
  unfold StrategyManager_save. apply lookup_dict_set_other.
  intros E. apply Hn. now left.
Qed.

Lemma save_fold_lookup (mgr : StrategyManager)
    (strats : list TradingStrategy) (fs : file_system) (s : TradingStrategy) :
  NoDup (map (fun s => strategy_path mgr (name s)) strats) ->
  In s strats ->
  lookup (fold_left (StrategyManager_save mgr) strats fs)
    (strategy_path mgr (name s)) = Some s.
Proof.
  revert fs. induction strats as [|s0 strats IH]; intros fs N I;
    [contradiction|].
  cbn [fold_left]. cbn [map] in N. inversion_clear N as [|? ? N0 Nr].
  destruct I as [->|I]; [|now apply IH].
  rewrite save_fold_other by exact N0.
  unfold StrategyManager_save. apply lookup_dict_set_same.
Qed.

(** X23.  Saving a collection and loading its names back gives the same
    collection, provided no two of its names share a file; the directory
    given to [save_all] replaces that of the manager. *)
Theorem save_all_load_all_round_trip
    (strategy_cls : option StrategyClass)
    (param_grid : option (dict (list pyval)))
    (strategies : option (list TradingStrategy)) (c : StrategyCollection)
    (mgr : StrategyManager) (directory : option string) (fs : file_system) :
  StrategyCollection_init strategy_cls param_grid strategies = Ok c ->
  (forall n1 n2,
     In n1 (names c) -> In n2 (names c) -> same_file_name n1 n2 ->
     n1 = n2) ->
  exists c',
    load_all (names c) (fst (save_all c mgr directory fs))
      (snd (save_all c mgr directory fs)) = Ok c' /\
    sc_strategies c' = sc_strategies c /\
    sm_directory (fst (save_all c mgr directory fs))
    = match directory with Some d => d | None => sm_directory mgr end.
Proof.
  intros Hc Hfiles. pose proof (init_keyed _ _ _ Hc) as [N F].
  unfold save_all. cbn [fst snd].
  set (mgr' := match directory with
               | Some d => {| sm_directory := d |}
               | None => mgr
               end).
  set (fs' := fold_left (StrategyManager_save mgr') (iter c) fs).
  assert (Hn : map name (iter c) = names c).
  { unfold iter, names. rewrite map_map. apply map_ext_in.
    intros kv I. rewrite Forall_forall in F. exact (F kv I). }
  assert (P : NoDup (map (fun s => strategy_path mgr' (name s)) (iter c))).
  { rewrite <- (map_map name (strategy_path mgr')), Hn.
    clear -N Hfiles. unfold names in *.
    induction (map fst (sc_strategies c)) as [|n l IH]; [constructor|].
    inversion_clear N as [|? ? Nn Nl]. cbn [map]. constructor.
    - intros I. apply in_map_iff in I. destruct I as (n' & E & I').
      apply strategy_path_eq in E.
      assert (n' = n) by (apply Hfiles; [now right|now left|assumption]).
      subst n'. contradiction.
    - apply IH; [|assumption]. intros n1 n2 I1 I2.
      apply Hfiles; now right. }
  assert (M : mapM (StrategyManager_load mgr' fs') (names c) = Ok (iter c)).
  { rewrite <- Hn.
    assert (G : forall l, incl l (iter c) ->
              mapM (StrategyManager_load mgr' fs') (map name l) = Ok l).
    { induction l as [|s l IHl]; intros I; [reflexivity|].
      cbn [map mapM]. unfold StrategyManager_load at 1. unfold fs'.
      rewrite (save_fold_lookup mgr' (iter c) fs s P)
        by (apply I; now left).
      cbn [bind]. fold fs'. rewrite IHl; [reflexivity|].
      intros x Hx. apply I. now right. }
    apply G, incl_refl. }
  unfold load_all. rewrite M. cbn [bind].
  eexists. split; [reflexivity|]. split.
  - cbn [sc_strategies]. rewrite (@collect_distinct (iter c) []).
    + cbn [app]. unfold iter. rewrite map_map.
      rewrite <- (map_id (sc_strategies c)) at 2. apply map_ext_in.
      intros [n s] I. rewrite Forall_forall in F. specialize (F _ I).
      cbn in *. now rewrite F.
    + cbn [map app]. now rewrite Hn.
  - unfold mgr'. now destruct directory.
Qed.

Lemma save_all_load_all_round_trip_witness :
  exists c c',
    StrategyCollection_init None None
      (Some [named_strategy "sma"; named_strategy "ema"]) = Ok c /\
    load_all (names c)
      (fst (save_all c {| sm_directory := "strategies" |} None []))
      (snd (save_all c {| sm_directory := "strategies" |} None [])) = Ok c' /\
    sc_strategies c' = sc_strategies c /\
    sm_directory (fst (save_all c {| sm_directory := "strategies" |} None []))
    = "strategies"%string.
Proof.
  eexists.
  assert (Hc : StrategyCollection_init None None
                 (Some [named_strategy "sma"; named_strategy "ema"])
               = Ok {| sc_strategies :=
                         [("sma"%string, named_strategy "sma");
                          ("ema"%string, named_strategy "ema")];
                       sc_strategy_cls := None;
                       sc_param_grid := None |}) by reflexivity.
  destruct (@save_all_load_all_round_trip None None
              (Some [named_strategy "sma"; named_strategy "ema"]) _
              {| sm_directory := "strategies" |} None [] Hc)
    as (c' & H).
  - intros n1 n2 [<-|[<-|[]]] [<-|[<-|[]]] S; try reflexivity; exfalso;
      apply sanitized_eq in S; discriminate S.
  - exists c'. split; [exact Hc|exact H].
Defined.

(** ** find_best_strategy *)

Lemma dict_set_keys {V} (d : dict V) (k : string) (v : V) :
  map fst (dict_set d k v)
  = if dict_mem d k then map fst d else map fst d ++ [k].
Proof.
  destruct (dict_mem d k) eqn:E.
  - apply dict_mem_in in E.
    induction d as [|[k0 v0] d IH]; [contradiction|]. cbn [dict_set].
    destruct (String.eqb k0 k) eqn:B.
    + reflexivity.
    + cbn [map fst]. f_equal. apply IH. destruct E as [E|E]; [|assumption].
      cbn in E. apply String.eqb_neq in B. contradiction.
  - rewrite dict_set_new.
    + rewrite map_app. reflexivity.
    + intros I. apply dict_mem_in in I. congruence.
Qed.

Lemma dict_mem_keys {V W} (d : dict V) (e : dict W) (k : string) :
  map fst d = map fst e -> dict_mem d k = dict_mem e k.
Proof.
  intros H. destruct (dict_mem d k) eqn:A.
  - apply dict_mem_in in A. rewrite H in A. apply dict_mem_in in A.
    now rewrite A.
  - destruct (dict_mem e k) eqn:B; [|reflexivity].
    apply dict_mem_in in B. rewrite <- H in B. apply dict_mem_in in B.
    congruence.
Qed.

Lemma backtest_ok_fields (pad : bool) (s s' : TradingStrategy)
    (data : DataFrame) (ic tc : float) (eq : Series) :
  backtest pad s data ic tc = Ok (eq, s') ->
  name s' = name s /\ equity_curve s' = Some eq /\
  exists rets, returns s' = Some rets.
Proof.
  unfold backtest. destruct (backtest_run pad s data ic tc) as [l|];
    [|discriminate].
  cbn [bind]. intros [= <- <-]. cbn. eauto.
Qed.

Lemma sort_key_to_dict (metric : string) (s : Summary) :
  (In metric metric_names ->
   exists x, sort_key metric (to_dict s) = Ok x /\ get_metric metric s = Ok x)
  /\
  (~ In metric metric_names ->
   sort_key metric (to_dict s) = Raise (KeyError metric)).
Proof.
  split.
  - intros H. unfold metric_names in H.
    repeat (destruct H as [<-|H]; [eexists; split; reflexivity|]).
    contradiction.
  - intros H. unfold sort_key. rewrite lookup_notin; [reflexivity|].
    intros I. apply H. exact I.
Qed.

(** the first position of a descending sort holds a largest valid key *)
Lemma nargsort_desc_top (argsort : list float -> list nat)
    (keys : list float) :
  argsort_sorts argsort -> keys <> [] ->
  exists i0 rest,
    nargsort_desc argsort keys = i0 :: rest /\
    i0 < length keys /\
    forall j, j < length keys -> isnan (nth j keys NaN) = false ->
      fleb (nth j keys NaN) (nth i0 keys NaN) = true.
Proof.
  intros Hs Hne. pose proof (nargsort_desc_perm Hs keys) as P.
  destruct (nargsort_desc_spec Hs keys)
    as (valid & missing & E & Hv & Sv & Hn & _ & _).
  destruct (nargsort_desc argsort keys) as [|i0 order] eqn:Eo.
  { exfalso. apply Permutation_length in P. cbn in P.
    rewrite length_seq in P. destruct keys; [congruence|discriminate]. }
  exists i0, order. split; [reflexivity|]. split.
  { assert (I : In i0 (seq 0 (length keys)))
      by (apply (Permutation_in _ P); now left).
    apply in_seq in I. lia. }
  intros j Hj Hnan.
  assert (Hjo : In j (i0 :: order)).
  { apply (Permutation_in _ (Permutation_sym P)). apply in_seq. lia. }
  assert (Hjv : In j valid).
  { rewrite E in Hjo. apply in_app_or in Hjo. destruct Hjo as [?|Hjm];
      [assumption|].
    rewrite Forall_forall in Hn. apply Hn in Hjm. congruence. }
  destruct valid as [|v0 valid']; [contradiction|].
  cbn [app] in E. injection E as <- _.
  destruct Hjv as [<-|Hjv]; [now apply fleb_refl|].
  inversion_clear Sv as [|? ? _ F]. rewrite Forall_forall in F.
  now apply F.
Qed.

Section FindBest.
Variable pad : bool.
Variable sqrt : float -> float.
Variable pow : float -> float -> float.
Variable argsort : list float -> list nat.
Variable suggest_categorical : Trial -> string -> list pyval -> result pyval.
Variable suggest_int : Trial -> string -> Z -> Z -> Z -> result Z.
Variable suggest_float :
  Trial -> string -> float -> float -> option float -> result float.
Variable differential_evolution :
  (list float -> result float) -> list (pyval * pyval) -> result (list float).
Variable best_trial : direction -> list (Trial * float) -> result Trial.

Let step := find_step pad sqrt pow argsort suggest_categorical suggest_int
              suggest_float differential_evolution best_trial.
Let find := find_best_strategy pad sqrt pow argsort suggest_categorical
              suggest_int suggest_float differential_evolution best_trial.

(** what the loop keeps true of its three results *)
Let consistent (st : best_state) : Prop :=
  Forall (fun nr =>
            (exists s, snd nr = to_dict s) /\
            dict_mem (strategy_obj_map st) (fst nr) = true)
         (perf_records st) /\
  map fst (equity_map st) = map fst (strategy_obj_map st) /\
  forall n strat,
    lookup (strategy_obj_map st) n = Some strat ->
    name strat = n /\
    exists eq, equity_curve strat = Some eq /\
               lookup (equity_map st) n = Some eq.

Lemma evaluate_best_consistent (cls : StrategyClass) (data : DataFrame)
    (params : kwargs) (st : best_state) :
  consistent st ->
  consistent (evaluate_best pad sqrt pow cls data params st) /\
  length (perf_records (evaluate_best pad sqrt pow cls data params st))
  <= S (length (perf_records st)).
Proof.
  intros (Hr & Hk & Ho). unfold evaluate_best.
  destruct (construct cls params) as [strat0|]; [|split; [now split|lia]].
  destruct (backtest pad strat0 data (FZ 10000) f0) as [[eq strat]|] eqn:B;
    [|split; [now split|lia]].
  destruct (@backtest_ok_fields _ _ _ _ _ _ _ B) as (_ & Heq & rets & Hrets).
  rewrite Hrets.
  set (em := dict_set (equity_map st) (name strat) eq).
  set (om := dict_set (strategy_obj_map st) (name strat) strat).
  assert (Hk' : map fst em = map fst om).
  { unfold em, om.
    rewrite !dict_set_keys, (@dict_mem_keys _ _ _ _ (name strat) Hk), Hk.
    reflexivity. }
  assert (Ho' : forall n s0,
            lookup om n = Some s0 ->
            name s0 = n /\
            exists e0, equity_curve s0 = Some e0 /\ lookup em n = Some e0).
  { intros n s0 H. unfold om, em in *.
    destruct (String.eqb (name strat) n) eqn:E.
    - apply String.eqb_eq in E. subst n.
      rewrite lookup_dict_set_same in H. injection H as <-.
      split; [reflexivity|]. exists eq. split; [assumption|].
      apply lookup_dict_set_same.
    - apply String.eqb_neq in E.
      rewrite (lookup_dict_set_other _ _ E) in H.
      rewrite (lookup_dict_set_other _ _ E). now apply Ho. }
  assert (Hr' : Forall (fun nr =>
                  (exists s, snd nr = to_dict s) /\
                  dict_mem om (fst nr) = true) (perf_records st)).
  { revert Hr. apply Forall_impl. intros nr [Hs Hm]. split; [assumption|].
    apply dict_mem_in. unfold om. rewrite dict_set_keys.
    apply dict_mem_in in Hm.
    destruct (dict_mem (strategy_obj_map st) (name strat));
      [assumption|]. apply in_or_app. now left. }
  destruct (summary sqrt pow (PerformanceAnalyzer_init eq rets)) as [s|];
    cbn [perf_records equity_map strategy_obj_map].
  - split; [|rewrite length_app; cbn; lia].
    split; [|split; assumption].
    cbn [perf_records strategy_obj_map].
    apply Forall_app. split; [exact Hr'|].
    constructor; [|constructor]. cbn [fst snd]. split; [now exists s|].
    unfold dict_mem, om. now rewrite lookup_dict_set_same.
  - split; [|lia]. split; [exact Hr'|]. split; assumption.
Qed.

Lemma step_consistent (method : string) (kw : method_kwargs)
    (data : DataFrame) (metric : string) (st : best_state)
    (cls : StrategyClass) :
  consistent st ->
  consistent (step method kw data metric st cls) /\
  length (perf_records (step method kw data metric st cls))
  <= S (length (perf_records st)).
Proof.
  intros H. unfold step, find_step.
  destruct (Optimizer_init cls) as [opt|]; [|split; [assumption|lia]].
  destruct (best_of_method _ _ _ _ _ _ _ _ _ _ _ _ _ _) as [[params|]|];
    try (split; [assumption|lia]).
  now apply evaluate_best_consistent.
Qed.

Lemma loop_consistent (method : string) (kw : method_kwargs)
    (data : DataFrame) (metric : string) (strategies : list StrategyClass)
    (st : best_state) :
  consistent st ->
  consistent (fold_left (step method kw data metric) strategies st) /\
  length (perf_records
            (fold_left (step method kw data metric) strategies st))
  <= length (perf_records st) + length strategies.
Proof.
  revert st. induction strategies as [|cls l IH]; intros st H;
    cbn [fold_left length].
  - split; [assumption|lia].
  - destruct (step_consistent method kw data metric cls H) as [H1 L1].
    destruct (IH _ H1) as [H2 L2]. split; [assumption|lia].
Qed.

Lemma consistent_no_strategy : consistent no_strategy.
Proof.
  split; [constructor|]. split; [reflexivity|]. intros n strat H.
  discriminate.
Qed.

Lemma loop_skips (method : string) (kw : method_kwargs) (data : DataFrame)
    (metric : string) (strategies : list StrategyClass) (st : best_state) :
  (forall opt,
     match best_of_method pad sqrt pow argsort suggest_categorical
             suggest_int suggest_float differential_evolution best_trial
             method kw opt data metric with
     | Ok (Some _) => False
     | _ => True
     end) ->
  fold_left (step method kw data metric) strategies st = st.
Proof.
  intros H. induction strategies as [|cls l IH]; [reflexivity|].
  cbn [fold_left]. rewrite <- IH at 2. f_equal. unfold step, find_step.
  destruct (Optimizer_init cls) as [opt|]; [|reflexivity].
  specialize (H opt).
  destruct (best_of_method _ _ _ _ _ _ _ _ _ _ _ _ _ _) as [[params|]|];
    [contradiction|reflexivity|reflexivity].
Qed.

(** X24.  [find_best_strategy] raises its "No valid strategies" error for
    every list of classes when the method is none of [bayes], [de] and
    [grid], when the method is [bayes] and [n_trials] or [seed] is not
    passed (so with its defaults alone), when a keyword argument of the
    other routine is passed, and when the list is empty. *)
Theorem find_best_strategy_without_a_routine
    (strategies : list StrategyClass) (data : DataFrame)
    (method metric : string) (kw : method_kwargs) :
  (method <> "bayes"%string -> method <> "de"%string ->
   method <> "grid"%string ->
   find strategies data method metric kw = Raise no_valid_strategies) /\
  (method = "bayes"%string ->
   kw_n_trials kw = None \/ kw_seed kw = None \/
   kw_maxiter kw <> None \/ kw_popsize kw <> None ->
   find strategies data method metric kw = Raise no_valid_strategies) /\
  (method = "de"%string ->
   kw_n_trials kw <> None \/ kw_seed kw <> None ->
   find strategies data method metric kw = Raise no_valid_strategies) /\
  (strategies = [] ->
   find strategies data method metric kw = Raise no_valid_strategies).
Proof.
  assert (G : (forall opt,
                 match best_of_method pad sqrt pow argsort
                         suggest_categorical suggest_int suggest_float
                         differential_evolution best_trial method kw opt
                         data metric with
                 | Ok (Some _) => False
                 | _ => True
                 end) ->
              find strategies data method metric kw
              = Raise no_valid_strategies).
  { intros H. unfold find, find_best_strategy.
    fold (step method kw data metric).
    now rewrite (loop_skips method kw data metric strategies no_strategy H). }
  split; [|split; [|split]].
  - intros H1 H2 H3. apply G. intros opt. unfold best_of_method.
    apply String.eqb_neq in H1, H2, H3. now rewrite H1, H2, H3.
  - intros -> H. apply G. intros opt. unfold best_of_method.
    cbn [String.eqb Ascii.eqb Bool.eqb].
    destruct (kw_maxiter kw), (kw_popsize kw), (kw_n_trials kw),
      (kw_seed kw); try exact I; exfalso; intuition congruence.
  - intros -> H. apply G. intros opt. unfold best_of_method.
    cbn [String.eqb Ascii.eqb Bool.eqb].
    destruct (kw_n_trials kw), (kw_seed kw); try exact I; exfalso;
      intuition congruence.
  - intros ->. reflexivity.
Qed.

(** X25.  No exception of an optimization, a constructor, a backtest or a
    summary leaves [find_best_strategy]: with a metric of [summary] the
    only exception it raises is its "No valid strategies" error, and with
    any other metric name (but the index name [strategy]) it raises that
    error or, once a class was evaluated, the [KeyError] of the final
    sort, and never returns. *)
Theorem find_best_strategy_exceptions (strategies : list StrategyClass)
    (data : DataFrame) (method metric : string) (kw : method_kwargs) :
  (In metric metric_names ->
   forall e,
     find strategies data method metric kw = Raise e ->
     e = no_valid_strategies) /\
  (~ In metric metric_names -> metric <> "strategy"%string ->
   find strategies data method metric kw = Raise no_valid_strategies \/
   find strategies data method metric kw = Raise (KeyError metric)).
Proof.
  destruct (loop_consistent method kw data metric strategies
              consistent_no_strategy) as [(Hr & _) _].
  unfold find, find_best_strategy. fold (step method kw data metric).
  destruct (perf_records
              (fold_left (step method kw data metric) strategies
                 no_strategy)) as [|r0 rs] eqn:E.
  - split; [intros _ e [= <-]; reflexivity|now left].
  - split.
    + intros Hm e H. exfalso. unfold sort_perf in H.
      destruct (@mapM_ok _ _ (fun r : string * row => sort_key metric (snd r))
                  (r0 :: rs)) as [keys Hk].
      { revert Hr. apply Forall_impl. intros nr [[s Hs] _]. rewrite Hs.
        destruct (proj1 (sort_key_to_dict metric s) Hm) as (x & Hx & _).
        now exists x. }
      rewrite Hk in H. discriminate.
    + intros Hm _. right. unfold sort_perf. cbn [mapM].
      inversion_clear Hr as [|? ? [[s Hs] _] _]. rewrite Hs.
      now rewrite (proj2 (sort_key_to_dict metric s) Hm).
Qed.

(** X26.  When [find_best_strategy] returns, its table has at least one
    row and at most one per class; every row holds the metrics of a summary
    and is named after a strategy that has an entry in both maps; the two
    maps have the same names, each object is stored under its own name and
    its equity curve is the one stored under that name; and with a sort
    that meets the contract of numpy's [argsort] the first row is a best
    one among the rows whose metric is not NaN. *)
Theorem find_best_strategy_result (strategies : list StrategyClass)
    (data : DataFrame) (method metric : string) (kw : method_kwargs)
    (perf_df : list (string * row)) (equities : dict Series)
    (objects : dict TradingStrategy) :
  argsort_sorts argsort ->
  find strategies data method metric kw = Ok (perf_df, equities, objects) ->
  1 <= length perf_df <= length strategies /\
  (forall n r,
     In (n, r) perf_df ->
     (exists s, r = to_dict s) /\
     exists eq strat,
       lookup equities n = Some eq /\ lookup objects n = Some strat) /\
  map fst equities = map fst objects /\
  (forall n strat,
     lookup objects n = Some strat ->
     name strat = n /\
     exists eq, equity_curve strat = Some eq /\ lookup equities n = Some eq) /\
  exists top rest,
    perf_df = top :: rest /\
    forall n r x,
      In (n, r) perf_df -> sort_key metric r = Ok x -> isnan x = false ->
      exists x0, sort_key metric (snd top) = Ok x0 /\ fleb x x0 = true.
Proof.
  intros Hs H.
  destruct (loop_consistent method kw data metric strategies
              consistent_no_strategy) as [(Hr & Hk & Ho) L].
  unfold find, find_best_strategy in H. fold (step method kw data metric) in H.
  set (st := fold_left (step method kw data metric) strategies no_strategy)
    in *.
  destruct (perf_records st) as [|r0 rs] eqn:E; [discriminate|].
  rewrite <- E in *. unfold sort_perf in H.
  destruct (mapM (fun r : string * row => sort_key metric (snd r))
              (perf_records st)) as [keys|] eqn:Hm; [|discriminate].
  cbn [bind] in H. injection H as <- <- <-.
  pose proof (mapM_length _ _ Hm) as Lk.
  pose proof (nargsort_desc_perm Hs keys) as P.
  assert (Pr : Permutation
                 (map (fun i => nth i (perf_records st) (EmptyString, []))
                      (nargsort_desc argsort keys))
                 (perf_records st)).
  { rewrite (Permutation_map _ P), Lk. now rewrite map_nth_seq. }
  assert (Hlen : length (perf_records st) <= length strategies).
  { cbn in L. exact L. }
  split.
  { rewrite (Permutation_length Pr). split; [rewrite E; cbn; lia|exact Hlen]. }
  split.
  { intros n r I. apply (Permutation_in _ Pr) in I.
    rewrite Forall_forall in Hr. destruct (Hr _ I) as [Hsum Hmem].
    cbn [fst snd] in *. split; [exact Hsum|].
    apply dict_mem_in in Hmem. pose proof Hmem as Hmem'.
    rewrite <- Hk in Hmem'. apply lookup_in in Hmem, Hmem'.
    destruct Hmem as [strat Hst]. destruct Hmem' as [eq Heq]. eauto. }
  split; [exact Hk|]. split; [exact Ho|].
  assert (Hkne : keys <> []).
  { intros C. rewrite C in Lk. rewrite E in Lk. discriminate. }
  destruct (nargsort_desc_top Hs Hkne) as (i0 & order & Eo & Hi0 & Htop).
  rewrite Eo. cbn [map]. eexists. eexists. split; [reflexivity|].
  assert (Hkey : forall j nr, nth_error (perf_records st) j = Some nr ->
            sort_key metric (snd nr) = Ok (nth j keys NaN)).
  { intros j nr Hj.
    destruct (@mapM_nth_error _ _ _ _ _ _ _ Hm Hj) as (b & Eb & Hb).
    rewrite Eb. f_equal. symmetry. now apply nth_error_nth. }
  intros n r x I Hx Hnan.
  assert (I' : In (n, r) (perf_records st)).
  { apply (Permutation_in _ Pr). rewrite Eo. exact I. }
  apply In_nth_error in I'. destruct I' as [j Hj].
  pose proof (Hkey _ _ Hj) as Hxj. cbn [snd] in Hxj. rewrite Hx in Hxj.
  apply Ok_inj in Hxj. subst x.
  assert (Hjlt : j < length keys).
  { rewrite Lk. apply nth_error_Some. congruence. }
  exists (nth i0 keys NaN). split.
  - apply Hkey. apply nth_error_nth'. now rewrite <- Lk.
  - now apply Htop.
Qed.
End FindBest.

Lemma find_best_strategy_result_witness :
  argsort_sorts (insertion_argsort true) /\
  exists perf_df equities objects,
    find_best_strategy true sqrt_approx pow_approx (insertion_argsort true)
      first_choice lowest_int lowest_float lower_corner first_trial
      [example_cls two_k_config] example_data "grid" "Total Return"
      no_kwargs = Ok (perf_df, equities, objects) /\
    1 <= length perf_df <= length [example_cls two_k_config] /\
    (forall n r,
       In (n, r) perf_df ->
       (exists s, r = to_dict s) /\
       exists eq strat,
         lookup equities n = Some eq /\ lookup objects n = Some strat) /\
    map fst equities = map fst objects /\
    (forall n strat,
       lookup objects n = Some strat ->
       name strat = n /\
       exists eq,
         equity_curve strat = Some eq /\ lookup equities n = Some eq) /\
    exists top rest,
      perf_df = top :: rest /\
      forall n r x,
        In (n, r) perf_df -> sort_key "Total Return" r = Ok x ->
        isnan x = false ->
        exists x0, sort_key "Total Return" (snd top) = Ok x0 /\
                   fleb x x0 = true.
Proof.
  split; [apply insertion_argsort_sorts|].
  destruct (find_best_strategy true sqrt_approx pow_approx
              (insertion_argsort true) first_choice lowest_int lowest_float
              lower_corner first_trial [example_cls two_k_config]
              example_data "grid" "Total Return" no_kwargs)
    as [[[perf_df equities] objects]|e] eqn:E;
    [|vm_compute in E; discriminate E].
  exists perf_df, equities, objects. split; [reflexivity|].
  exact (@find_best_strategy_result true sqrt_approx pow_approx
           (insertion_argsort true) first_choice lowest_int lowest_float
           lower_corner first_trial [example_cls two_k_config] example_data
           "grid"%string "Total Return"%string no_kwargs perf_df equities
           objects (insertion_argsort_sorts true) E).
Defined.

(** ** The cache key of load_data *)

(** X27.  The cache key of [load_data] is made of the values given, not of
    the arguments they were given for: two calls whose non-empty values of
    [start], [end], [period] and [interval] are the same in the same order
    share their cache files, so a value passed as [period] finds the cache
    of the same value passed as [start]; a single symbol and a one-element
    list of it share a key, and so do the symbols [a, b] and the one symbol
    [a-b]. *)
Theorem cache_key_forgets_argument_names (symbols : string + list string)
    (s e p i s' e' p' i' : option string) :
  (filter nonempty (map or_empty [s; e; p; i])
   = filter nonempty (map or_empty [s'; e'; p'; i']) ->
   basename symbols s e p i = basename symbols s' e' p' i') /\
  (forall x,
     basename symbols (Some x) None None None
     = basename symbols None None (Some x) None) /\
  (forall x y,
     basename symbols (Some x) (Some y) None None
     = basename symbols None None (Some x) (Some y)) /\
  (forall sym, basename (inl sym) s e p i = basename (inr [sym]) s e p i) /\
  (forall a b,
     basename (inr [a; b]) s e p i
     = basename (inl (a ++ "-" ++ b)%string) s e p i).
Proof.
  split; [|split; [|split; [|split]]].
  - intros H. unfold basename. cbn [map] in H.
    change [join "-" (sym_list_of symbols); or_empty s; or_empty e;
            or_empty p; or_empty i]
      with ([join "-" (sym_list_of symbols)]
            ++ [or_empty s; or_empty e; or_empty p; or_empty i]).
    change [join "-" (sym_list_of symbols); or_empty s'; or_empty e';
            or_empty p'; or_empty i']
      with ([join "-" (sym_list_of symbols)]
            ++ [or_empty s'; or_empty e'; or_empty p'; or_empty i']).
    rewrite !filter_app, H. reflexivity.
  - intros x. unfold basename. cbn [or_empty filter nonempty].
    destruct (nonempty (join "-" (sym_list_of symbols))), (nonempty x);
      reflexivity.
  - intros x y. unfold basename. cbn [or_empty filter nonempty].
    destruct (nonempty (join "-" (sym_list_of symbols))), (nonempty x),
      (nonempty y); reflexivity.
  - reflexivity.
  - reflexivity.
Qed.

(** ** Backtesting a collection *)

(** the first position of an ascending sort holds a smallest valid key *)
Lemma nargsort_asc_spec (argsort : list float -> list nat)
    (keys : list float) :
  argsort_sorts argsort ->
  Permutation (nargsort_asc argsort keys) (seq 0 (length keys)) /\
  (keys <> [] ->
   exists i0 rest,
     nargsort_asc argsort keys = i0 :: rest /\
     i0 < length keys /\
     forall j, j < length keys -> isnan (nth j keys NaN) = false ->
       fleb (nth i0 keys NaN) (nth j keys NaN) = true).
Proof.
  intros Hs. unfold nargsort_asc.
  set (idx := seq 0 (length keys)).
  set (valid := filter (fun i => negb (isnan (nth i keys NaN))) idx).
  set (missing := filter (fun i => isnan (nth i keys NaN)) idx).
  set (vals := map (fun i => nth i keys NaN) valid).
  assert (Hv : Forall (fun k => isnan k = false) vals).
  { apply Forall_forall. intros k Hk. apply in_map_iff in Hk.
    destruct Hk as (i & <- & Hi). apply filter_In in Hi.
    destruct Hi as [_ Hi]. now destruct (isnan (nth i keys NaN)). }
  destruct (Hs vals Hv) as [P S].
  assert (Lv : length vals = length valid) by apply length_map.
  set (pick := fun j => nth j valid O).
  assert (Pv : Permutation (map pick (argsort vals)) valid).
  { rewrite (Permutation_map pick P), Lv. unfold pick.
    now rewrite map_nth_seq. }
  assert (Pall : Permutation (map pick (argsort vals) ++ missing) idx).
  { rewrite Pv. unfold valid, missing.
    rewrite (filter_ext (fun i => isnan (nth i keys NaN))
               (fun i => negb (negb (isnan (nth i keys NaN)))))
      by (intros; now rewrite negb_involutive).
    apply (filter_partition_perm
             (fun i => negb (isnan (nth i keys NaN))) idx). }
  split; [exact Pall|]. intros Hne.
  assert (Hbelow : forall a, In a (argsort vals) -> a < length valid).
  { intros a Ha. apply (Permutation_in _ P) in Ha. apply in_seq in Ha. lia. }
  assert (Hval : forall a, a < length valid ->
            nth a vals NaN = nth (pick a) keys NaN).
  { intros a Ha. unfold vals, pick.
    rewrite (nth_indep _ NaN (nth O keys NaN))
      by (rewrite length_map; exact Ha).
    now rewrite (map_nth (fun i => nth i keys NaN) valid O a). }
  assert (Hmiss : forall j, In j missing -> isnan (nth j keys NaN) = true).
  { intros j Hj. apply filter_In in Hj. apply Hj. }
  destruct (map pick (argsort vals) ++ missing) as [|i0 order] eqn:Eo.
  { exfalso. apply Permutation_length in Pall. unfold idx in Pall.
    rewrite length_seq in Pall. destruct keys; [congruence|discriminate]. }
  exists i0, order. split; [reflexivity|]. split.
  { assert (I : In i0 idx) by (apply (Permutation_in _ Pall); now left).
    apply in_seq in I. lia. }
  intros j Hj Hnan.
  assert (Hjo : In j (i0 :: order)).
  { apply (Permutation_in _ (Permutation_sym Pall)). apply in_seq. lia. }
  rewrite <- Eo in Hjo. apply in_app_or in Hjo.
  destruct Hjo as [Hjv|Hjm]; [|apply Hmiss in Hjm; congruence].
  destruct (argsort vals) as [|a0 sorted] eqn:Ea; [contradiction|].
  cbn [map app] in Eo. injection Eo as <- _.
  cbn [map] in Hjv. destruct Hjv as [<-|Hjv].
  { apply fleb_refl. rewrite <- Hval by (apply Hbelow; now left).
    rewrite Forall_forall in Hv. apply Hv, nth_In.
    rewrite Lv. apply Hbelow. now left. }
  apply in_map_iff in Hjv. destruct Hjv as (b & <- & Hb).
  inversion_clear S as [|? ? _ F]. rewrite Forall_forall in F.
  specialize (F b Hb).
  rewrite !Hval in F by (apply Hbelow; first [now left|now right]).
  exact F.
Qed.

Section CollectionRuns.
Variable pad : bool.
Variable sqrt : float -> float.
Variable pow : float -> float -> float.
Variable argsort : list float -> list nat.
Variable load_data :
  string + list string -> option string -> option string ->
  option string -> option string -> result DataFrame.

(** X28.  [run_backtest] raises when no data is loaded and passes on the
    exception of a failing backtest; on loaded data it returns the equity
    curve of the backtest of its strategy, unless that curve is empty: on
    data without rows the backtest returns an empty curve and
    [run_backtest] raises [IndexError] from the summary it computes. *)
Theorem run_backtest_returns_backtest_equity (self : TradingSystem)
    (ic tc : float) :
  (ts_data self = None ->
   exists e, run_backtest pad sqrt pow self ic tc = Raise e) /\
  (forall data e,
     ts_data self = Some data ->
     backtest pad (ts_strategy self) data ic tc = Raise e ->
     run_backtest pad sqrt pow self ic tc = Raise e) /\
  (forall data eq strat,
     ts_data self = Some data ->
     backtest pad (ts_strategy self) data ic tc = Ok (eq, strat) ->
     (eq <> [] ->
      run_backtest pad sqrt pow self ic tc
      = Ok (eq, {| ts_symbol := ts_symbol self; ts_strategy := strat;
                   ts_data := Some data |})) /\
     (eq = [] ->
      run_backtest pad sqrt pow self ic tc
      = Raise (IndexError "single positional indexer is out-of-bounds"))).
Proof.
  unfold run_backtest. split; [|split].
  - intros ->. eauto.
  - intros data e -> ->. reflexivity.
  - intros data eq strat -> B. rewrite B. cbn [bind fst snd].
    destruct (@backtest_ok_fields _ _ _ _ _ _ _ B) as (_ & _ & rets & ->).
    cbn [bind]. split.
    + intros Hne. destruct (summary_ok sqrt pow rets Hne) as [s ->].
      reflexivity.
    + intros ->. reflexivity.
Qed.

Let run_all := backtest_all_loop pad sqrt pow load_data.

Lemma backtest_all_loop_spec (symbol : string)
    (period interval : option string) (ic tc : float)
    (items : dict TradingStrategy) (eqd eqd' : dict Series)
    (items' : dict TradingStrategy) :
  NoDup (map fst items) ->
  (forall n, In n (map fst items) -> ~ In n (map fst eqd)) ->
  run_all symbol period interval ic tc items eqd = Ok (eqd', items') ->
  map fst eqd' = map fst eqd ++ map fst items /\
  map fst items' = map fst items /\
  (forall n, ~ In n (map fst items) -> lookup eqd' n = lookup eqd n) /\
  (items <> [] ->
   exists data,
     load_data (inl symbol) None None period interval = Ok data /\
     forall n strat,
       In (n, strat) items ->
       exists eq strat',
         backtest pad strat data ic tc = Ok (eq, strat') /\
         eq <> [] /\
         lookup eqd' n = Some eq /\
         lookup items' n = Some strat').
Proof.
  revert eqd eqd' items'.
  induction items as [|[n0 s0] items IH]; intros eqd eqd' items' N D H.
  - cbn in H. injection H as <- <-. cbn. rewrite app_nil_r.
    repeat split; try reflexivity. intros C. congruence.
  - cbn [run_all backtest_all_loop] in H.
    unfold TradingSystem_load in H. cbn [ts_symbol ts_strategy] in H.
    destruct (load_data (inl symbol) None None period interval)
      as [data|] eqn:Ld; [|discriminate].
    cbn [bind snd] in H. unfold run_backtest at 1 in H.
    cbn [ts_data ts_strategy ts_symbol] in H.
    destruct (backtest pad s0 data ic tc) as [[eq0 s0']|] eqn:B;
      [|discriminate].
    cbn [bind fst snd] in H.
    destruct (@backtest_ok_fields _ _ _ _ _ _ _ B) as (_ & _ & rets & Hr).
    rewrite Hr in H. cbn [bind] in H.
    destruct (summary sqrt pow (PerformanceAnalyzer_init eq0 rets))
      as [sm|] eqn:Sm; [|discriminate].
    cbn [bind fst snd ts_strategy] in H.
    assert (Hne0 : eq0 <> []).
    { intros ->. discriminate Sm. }
    fold run_all in H.
    destruct (run_all symbol period interval ic tc items
                (dict_set eqd n0 eq0)) as [[eqd1 items1]|] eqn:R;
      [|discriminate].
    cbn [bind fst snd] in H. injection H as <- <-.
    cbn [map fst] in N. inversion_clear N as [|? ? Nn Nr].
    assert (Dn0 : ~ In n0 (map fst eqd)) by (apply D; now left).
    assert (Ks : map fst (dict_set eqd n0 eq0) = map fst eqd ++ [n0]).
    { rewrite (@dict_set_new _ eqd n0 eq0 Dn0), map_app. reflexivity. }
    destruct (IH (dict_set eqd n0 eq0) eqd1 items1 Nr) as (K1 & K2 & K3 & K4).
    { intros n Hn. rewrite Ks. intros I. apply in_app_or in I.
      destruct I as [I|[<-|[]]]; [|contradiction].
      apply (D n); [now right|assumption]. }
    { exact R. }
    split; [rewrite K1, Ks, <- app_assoc; reflexivity|].
    split; [cbn [map fst]; now rewrite K2|]. split.
    + intros n Hn. cbn [map fst] in Hn.
      rewrite K3 by (intros I; apply Hn; now right).
      apply lookup_dict_set_other. intros ->. apply Hn. now left.
    + intros _. exists data. split; [reflexivity|].
      intros n strat [[= <- <-]|I].
      * exists eq0, s0'. split; [assumption|]. split; [assumption|]. split.
        -- rewrite K3 by assumption. apply lookup_dict_set_same.
        -- cbn [lookup]. now rewrite String.eqb_refl.
      * destruct items as [|it items0]; [contradiction|].
        destruct K4 as (data' & Ld' & K4); [discriminate|].
        apply Ok_inj in Ld'. subst data'.
        destruct (K4 n strat I) as (eq & strat' & Hb & Hne & Hl & Hi).
        exists eq, strat'. repeat (split; [assumption|]).
        cbn [lookup]. destruct (String.eqb n0 n) eqn:E; [|assumption].
        apply String.eqb_eq in E. subst n0. exfalso. apply Nn.
        change n with (fst (n, strat)). now apply in_map.
Qed.

Lemma backtest_all_runs_every_strategy (self after : StrategyCollection)
    (symbol : string) (period interval : option string) (ic tc : float)
    (equity_dict : dict Series) :
  NoDup (names self) ->
  backtest_all pad sqrt pow load_data self symbol period interval ic tc
  = Ok (equity_dict, after) ->
  map fst equity_dict = names self /\
  names after = names self /\
  (sc_strategies self <> [] ->
   exists data,
     load_data (inl symbol) None None period interval = Ok data /\
     forall n strat,
       In (n, strat) (sc_strategies self) ->
       exists eq strat',
         backtest pad strat data ic tc = Ok (eq, strat') /\
         eq <> [] /\
         lookup equity_dict n = Some eq /\
         lookup (sc_strategies after) n = Some strat').
Proof.
  intros N H. unfold backtest_all in H.
  destruct (backtest_all_loop pad sqrt pow load_data symbol period interval
              ic tc (sc_strategies self) []) as [[eqd items']|] eqn:R;
    [|discriminate].
  cbn [bind fst snd] in H. injection H as <- <-.
  destruct (@backtest_all_loop_spec symbol period interval ic tc
              (sc_strategies self) [] eqd items' N) as (K1 & K2 & _ & K4).
  { intros n _ []. }
  { exact R. }
  unfold names. cbn [sc_strategies]. repeat split; assumption.
Qed.

(** X29.  [backtest_all] is all or nothing: when it returns, the data were
    loaded and every strategy of the collection ran to a non-empty equity
    curve, stored under the name of the strategy, in the order of the
    collection; the first strategy whose run raises, or whose curve is
    empty, makes the whole call raise, with no partial result.  The
    collection keeps its names and holds the strategies as their runs left
    them. *)
Theorem backtest_all_is_all_or_nothing (self after : StrategyCollection)
    (symbol : string) (period interval : option string) (ic tc : float)
    (equity_dict : dict Series) :
  NoDup (names self) ->
  backtest_all pad sqrt pow load_data self symbol period interval ic tc
  = Ok (equity_dict, after) ->
  map fst equity_dict = names self /\
  names after = names self /\
  (sc_strategies self <> [] ->
   exists data,
     load_data (inl symbol) None None period interval = Ok data /\
     forall n strat,
       In (n, strat) (sc_strategies self) ->
       exists eq strat',
         backtest pad strat data ic tc = Ok (eq, strat') /\
         eq <> [] /\
         lookup equity_dict n = Some eq /\
         lookup (sc_strategies after) n = Some strat').
Proof.
  intros N H.
  exact (@backtest_all_runs_every_strategy self after symbol period
           interval ic tc equity_dict N H).
Qed.
End CollectionRuns.

Lemma sma_ema_names : NoDup (names sma_ema_collection).
Proof.
  constructor; [intros [H|[]]; discriminate H|].
  constructor; [intros []|constructor].
Qed.

Lemma backtest_all_is_all_or_nothing_witness :
  NoDup (names sma_ema_collection) /\
  exists equity_dict after,
    backtest_all true sqrt_approx pow_approx cached_example
      sma_ema_collection "SPY" (Some "1y"%string) (Some "1d"%string)
      (FZ 10000) f0 = Ok (equity_dict, after) /\
    map fst equity_dict = names sma_ema_collection /\
    names after = names sma_ema_collection /\
    (sc_strategies sma_ema_collection <> [] ->
     exists data,
       cached_example (inl "SPY"%string) None None (Some "1y"%string)
         (Some "1d"%string) = Ok data /\
       forall n strat,
         In (n, strat) (sc_strategies sma_ema_collection) ->
         exists eq strat',
           backtest true strat data (FZ 10000) f0 = Ok (eq, strat') /\
           eq <> [] /\
           lookup equity_dict n = Some eq /\
           lookup (sc_strategies after) n = Some strat').
Proof.
  split; [exact sma_ema_names|].
  destruct (backtest_all true sqrt_approx pow_approx cached_example
              sma_ema_collection "SPY" (Some "1y"%string)
              (Some "1d"%string) (FZ 10000) f0)
    as [[equity_dict after]|e] eqn:E; [|vm_compute in E; discriminate E].
  exists equity_dict, after. split; [reflexivity|].
  exact (@backtest_all_is_all_or_nothing true sqrt_approx pow_approx
           cached_example sma_ema_collection after "SPY"%string
           (Some "1y"%string) (Some "1d"%string) (FZ 10000) f0 equity_dict
           sma_ema_names E).
Defined.

Lemma mapM_Forall2 {A B} (f : A -> result B) (l : list A) (bs : list B) :
  mapM f l = Ok bs -> Forall2 (fun a b => f a = Ok b) l bs.
Proof.
  revert bs. induction l as [|a l IH]; intros bs H; cbn in H.
  - apply Ok_inj in H. subst bs. constructor.
  - destruct (f a) as [b|] eqn:E; [|discriminate]. cbn [bind] in H.
    destruct (mapM f l) as [bs'|]; [|discriminate]. cbn [bind] in H.
    apply Ok_inj in H. subst bs. constructor; [assumption|now apply IH].
Qed.

Lemma Forall2_In_r {A B} (R : A -> B -> Prop) (l : list A) (bs : list B)
    (b : B) :
  Forall2 R l bs -> In b bs -> exists a, In a l /\ R a b.
Proof.
  induction 1 as [|a0 b0 l bs Hab _ IH]; intros I; [contradiction|].
  destruct I as [->|I].
  - exists a0. split; [now left|assumption].
  - destruct (IH I) as (a & Ha & Hr). exists a. split; [now right|assumption].
Qed.

Lemma lookup_in_nodup {V} (d : dict V) (k : string) (v : V) :
  NoDup (map fst d) -> In (k, v) d -> lookup d k = Some v.
Proof.
  induction d as [|[k0 v0] d IH]; intros N I; [contradiction|].
  cbn [map fst] in N. inversion_clear N as [|? ? Nk Nr]. cbn [lookup].
  destruct I as [[= -> ->]|I]; [now rewrite String.eqb_refl|].
  destruct (String.eqb k0 k) eqn:E; [|now apply IH].
  apply String.eqb_eq in E. subst k0. exfalso. apply Nk.
  change k with (fst (k, v)). now apply in_map.
Qed.

Section PerformanceTable.
Variable pad : bool.
Variable sqrt : float -> float.
Variable pow : float -> float -> float.
Variable argsort : list float -> list nat.
Variable load_data :
  string + list string -> option string -> option string ->
  option string -> option string -> result DataFrame.

(** X30.  [backtest_and_performance_all] on an empty collection raises
    [KeyError] for the sort column.  When it returns, its equity curves are
    those of [backtest_all], its table has one row per strategy of the
    collection, each row holds the summary of the equity curve and of the
    returns that the run left in the strategy of that name, and, with a
    sort that meets the contract of numpy's [argsort], its first row has
    the smallest sort value ([ascending]) or the largest one (the default)
    among the rows whose value is not NaN. *)
Theorem performance_table_of_collection (self : StrategyCollection)
    (symbol : string) (period interval : option string) (ic tc : float)
    (sort_by : string) (ascending : bool) :
  (sc_strategies self = [] ->
   backtest_and_performance_all pad sqrt pow argsort load_data self symbol
     period interval ic tc sort_by ascending = Raise (KeyError sort_by)) /\
  (argsort_sorts argsort -> NoDup (names self) ->
   forall perf_df equity_dict after,
     backtest_and_performance_all pad sqrt pow argsort load_data self
       symbol period interval ic tc sort_by ascending
     = Ok (perf_df, equity_dict, after) ->
     backtest_all pad sqrt pow load_data self symbol period interval ic tc
     = Ok (equity_dict, after) /\
     Permutation (map fst perf_df) (names self) /\
     (forall n r,
        In (n, r) perf_df ->
        exists eq strat rets s,
          lookup equity_dict n = Some eq /\
          lookup (sc_strategies after) n = Some strat /\
          returns strat = Some rets /\
          summary sqrt pow (PerformanceAnalyzer_init eq rets) = Ok s /\
          r = summary_cells s) /\
     exists top rest,
       perf_df = top :: rest /\
       forall n r x,
         In (n, r) perf_df -> sort_key sort_by r = Ok x ->
         isnan x = false ->
         exists x0,
           sort_key sort_by (snd top) = Ok x0 /\
           (if ascending then fleb x0 x else fleb x x0) = true).
Proof.
  split.
  - intros E. unfold backtest_and_performance_all, backtest_all.
    rewrite E. reflexivity.
  - intros Hs N perf_df equity_dict after H.
    unfold backtest_and_performance_all in H.
    destruct (backtest_all pad sqrt pow load_data self symbol period
                interval ic tc) as [[eqd c']|] eqn:B; [|discriminate].
    cbn [bind fst snd] in H.
    destruct (mapM (performance_record sqrt pow (sc_strategies c')) eqd)
      as [records|] eqn:M; [|discriminate].
    cbn [bind] in H.
    destruct (sort_records argsort sort_by ascending records)
      as [df|] eqn:S; [|discriminate].
    cbn [bind] in H. injection H as <- <- <-.
    split; [reflexivity|].
    destruct (@backtest_all_runs_every_strategy pad sqrt pow load_data
                self c' symbol period interval ic tc eqd N B) as [K1 _].
    pose proof (mapM_Forall2 _ _ M) as F.
    assert (Hfst : map fst records = map fst eqd).
    { clear -F. induction F as [|a b l bs Hab _ IH]; [reflexivity|].
      cbn [map]. rewrite IH. f_equal. unfold performance_record in Hab.
      destruct (getitem _ _) as [st|]; [|discriminate]. cbn [bind] in Hab.
      destruct (returns st) as [rs|]; [|discriminate]. cbn [bind] in Hab.
      destruct (summary _ _ _) as [s|]; [|discriminate]. cbn [bind] in Hab.
      apply Ok_inj in Hab. now subst b. }
    assert (Hrec : forall n r, In (n, r) records ->
              exists eq strat rets s,
                lookup eqd n = Some eq /\
                lookup (sc_strategies c') n = Some strat /\
                returns strat = Some rets /\
                summary sqrt pow (PerformanceAnalyzer_init eq rets) = Ok s /\
                r = summary_cells s).
    { intros n r I.
      assert (Nd : NoDup (map fst eqd)) by now rewrite K1.
      destruct (@Forall2_In_r _ _ _ _ _ _ F I) as (entry0 & Hen & Hp).
      assert (G : exists entry, In entry eqd /\
                    performance_record sqrt pow (sc_strategies c') entry
                    = Ok (n, r)) by (exists entry0; now split).
      clear entry0 Hen Hp.
      destruct G as ([n' eq] & Hen & Hp). unfold performance_record in Hp.
      cbn [fst snd] in Hp. unfold getitem in Hp.
      destruct (lookup (sc_strategies c') n') as [st|] eqn:L;
        [|discriminate].
      cbn [bind] in Hp. destruct (returns st) as [rs|] eqn:R;
        [|discriminate].
      cbn [bind] in Hp.
      destruct (summary sqrt pow (PerformanceAnalyzer_init eq rs))
        as [s|] eqn:Sm; [|discriminate].
      cbn [bind] in Hp. injection Hp as -> <-.
      exists eq, st, rs, s. repeat split; try assumption.
      now apply lookup_in_nodup. }
    unfold sort_records in S.
    destruct records as [|r0 rs] eqn:Er; [discriminate|].
    rewrite <- Er in *.
    destruct (mapM (fun r : string * row => sort_key sort_by (snd r))
                records) as [keys|] eqn:Hm; [|discriminate].
    cbn [bind] in S. apply Ok_inj in S.
    pose proof (mapM_length _ _ Hm) as Lk.
    assert (Hkne : keys <> []).
    { intros C. rewrite C in Lk. rewrite Er in Lk. discriminate. }
    set (order := if ascending then nargsort_asc argsort keys
                  else nargsort_desc argsort keys) in *.
    assert (P : Permutation order (seq 0 (length keys))).
    { unfold order. destruct ascending.
      - apply (nargsort_asc_spec keys Hs).
      - apply (nargsort_desc_perm Hs keys). }
    assert (Pr : Permutation df records).
    { rewrite <- S, (Permutation_map _ P), Lk. now rewrite map_nth_seq. }
    split; [rewrite (Permutation_map fst Pr), Hfst; now rewrite K1|].
    split.
    { intros n r I. apply Hrec. now apply (Permutation_in _ Pr). }
    assert (T : exists i0 rest,
              order = i0 :: rest /\ i0 < length keys /\
              forall j, j < length keys -> isnan (nth j keys NaN) = false ->
                (if ascending then fleb (nth i0 keys NaN) (nth j keys NaN)
                 else fleb (nth j keys NaN) (nth i0 keys NaN)) = true).
    { unfold order. destruct ascending.
      - apply (nargsort_asc_spec keys Hs). exact Hkne.
      - apply (nargsort_desc_top Hs Hkne). }
    destruct T as (i0 & rest & Eo & Hi0 & Htop).
    rewrite <- S, Eo. cbn [map]. eexists. eexists. split; [reflexivity|].
    assert (Hkey : forall j nr, nth_error records j = Some nr ->
              sort_key sort_by (snd nr) = Ok (nth j keys NaN)).
    { intros j nr Hj.
      destruct (@mapM_nth_error _ _ _ _ _ _ _ Hm Hj) as (b & Eb & Hb).
      rewrite Eb. f_equal. symmetry. now apply nth_error_nth. }
    intros n r x I Hx Hnan.
    assert (I' : In (n, r) records).
    { apply (Permutation_in _ Pr). rewrite <- S, Eo. exact I. }
    apply In_nth_error in I'. destruct I' as [j Hj].
    pose proof (Hkey _ _ Hj) as Hxj. cbn [snd] in Hxj. rewrite Hx in Hxj.
    apply Ok_inj in Hxj. subst x.
    assert (Hjlt : j < length keys).
    { rewrite Lk. apply nth_error_Some. congruence. }
    exists (nth i0 keys NaN). split.
    + apply Hkey. apply nth_error_nth'. now rewrite <- Lk.
    + now apply Htop.
Qed.
End PerformanceTable.

Lemma performance_table_of_collection_witness :
  argsort_sorts (insertion_argsort true) /\
  NoDup (names sma_ema_collection) /\
  exists perf_df equity_dict after,
    backtest_and_performance_all true sqrt_approx pow_approx
      (insertion_argsort true) cached_example sma_ema_collection "SPY"
      (Some "1y"%string) (Some "1d"%string) (FZ 10000) f0 "Total Return"
      false = Ok (perf_df, equity_dict, after) /\
    backtest_all true sqrt_approx pow_approx cached_example
      sma_ema_collection "SPY" (Some "1y"%string) (Some "1d"%string)
      (FZ 10000) f0 = Ok (equity_dict, after) /\
    Permutation (map fst perf_df) (names sma_ema_collection) /\
    (forall n r,
       In (n, r) perf_df ->
       exists eq strat rets s,
         lookup equity_dict n = Some eq /\
         lookup (sc_strategies after) n = Some strat /\
         returns strat = Some rets /\
         summary sqrt_approx pow_approx (PerformanceAnalyzer_init eq rets)
         = Ok s /\
         r = summary_cells s) /\
    exists top rest,
      perf_df = top :: rest /\
      forall n r x,
        In (n, r) perf_df -> sort_key "Total Return" r = Ok x ->
        isnan x = false ->
        exists x0,
          sort_key "Total Return" (snd top) = Ok x0 /\
          (if false then fleb x0 x else fleb x x0) = true.
Proof.
  split; [apply insertion_argsort_sorts|]. split; [exact sma_ema_names|].
  destruct (backtest_and_performance_all true sqrt_approx pow_approx
              (insertion_argsort true) cached_example sma_ema_collection
              "SPY" (Some "1y"%string) (Some "1d"%string) (FZ 10000) f0
              "Total Return" false)
    as [[[perf_df equity_dict] after]|e] eqn:E;
    [|vm_compute in E; discriminate E].
  exists perf_df, equity_dict, after. split; [reflexivity|].
  exact (proj2 (@performance_table_of_collection true sqrt_approx pow_approx
                  (insertion_argsort true) cached_example sma_ema_collection
                  "SPY"%string (Some "1y"%string) (Some "1d"%string)
                  (FZ 10000) f0 "Total Return"%string false)
           (insertion_argsort_sorts true) sma_ema_names perf_df equity_dict
           after E).
Defined.
